(** * sqlhelper: placeholder expansion, literal encoding and the
      type-aware sanitizer pipeline of [sqlhelper.go], embedded in Rocq.

    - Go strings are byte sequences: they are modelled by [string] (a list
      of 8-bit [ascii] characters), [len] by [String.length], runes by [Z].
    - A Go function that may panic (a slice expression out of range) or
      loop for ever returns a [run] value; a result pair [(string, error)]
      is a pair whose second component is [None] for the nil error.
    - The functions of Go's libraries whose code is not in the repository
      (NFKC normalisation, [strings.ToLower], [strings.TrimSpace], float
      and time formatting) are the fields of a record [GoLib] that every
      definition takes as an argument; [GoLib_ascii] states what they do on
      ASCII text.
    - A [range] over a Go map visits its entries in an order chosen by the
      runtime: the blocklist loops take that order as an argument
      ([MapIter]), a permutation of the map literal. *)

From Stdlib Require Import List String Ascii ZArith Lia Bool Arith Permutation.
From Stdlib Require Import Numbers.DecimalString DecimalZ DecimalPos.
Import ListNotations.

Local Open Scope string_scope.
Local Open Scope nat_scope.

Set Warnings "-abstract-large-number".

(* ------------------------------------------------------------------ *)
(** ** Outcomes of a Go call *)

Inductive run (A : Type) : Type :=
| Done (a : A)      (* the call returns *)
| Panic             (* run-time panic (slice bounds, nil map entry) *)
| Diverge.          (* the loop never ends (the model ran out of fuel) *)

Arguments Done {A} a.
Arguments Panic {A}.
Arguments Diverge {A}.

Definition bind {A B : Type} (c : run A) (k : A -> run B) : run B :=
  match c with
  | Done a => k a
  | Panic => Panic
  | Diverge => Diverge
  end.

Notation "x <- c ;; k" := (bind c (fun x => k))
  (at level 61, c at next level, right associativity).

(* ------------------------------------------------------------------ *)
(** ** Bytes, slices and the [strings] functions the source calls *)

Definition byte (c : ascii) : Z := Z.of_N (N_of_ascii c).
Definition chr (b : Z) : ascii := ascii_of_N (Z.to_N b).
Definition str1 (c : ascii) : string := String c EmptyString.

Definition TAB : ascii := "009"%char.
Definition LF : ascii := "010"%char.
Definition VT : ascii := "011"%char.
Definition FF : ascii := "012"%char.
Definition CR : ascii := "013"%char.
Definition NUL : ascii := "000"%char.
Definition CtrlZ : ascii := "026"%char.
Definition DQUOTE : ascii := "034"%char.
Definition SQUOTE : ascii := "039"%char.
Definition BACKSLASH : ascii := "092"%char.

Fixpoint take (n : nat) (s : string) : string :=
  match n, s with
  | S n', String c s' => String c (take n' s')
  | _, _ => EmptyString
  end.

Fixpoint drop (n : nat) (s : string) : string :=
  match n, s with
  | S n', String _ s' => drop n' s'
  | _, _ => s
  end.

(** Every byte of [s] satisfies [P]. *)
Fixpoint allBytes (P : ascii -> bool) (s : string) : bool :=
  match s with
  | EmptyString => true
  | String c s' => P c && allBytes P s'
  end.

(** [s[lo:hi]], [s[lo:]] and [s[:hi]]: Go panics unless
    [0 <= lo <= hi <= len(s)]. *)
Definition slice (s : string) (lo hi : nat) : run string :=
  if (lo <=? hi) && (hi <=? String.length s)
  then Done (take (hi - lo) (drop lo s))
  else Panic.

Definition sliceFrom (s : string) (lo : nat) : run string :=
  slice s lo (String.length s).

Definition sliceTo (s : string) (hi : nat) : run string :=
  slice s 0 hi.

(** [strings.HasPrefix(s, p)]. *)
Fixpoint HasPrefix (s p : string) {struct p} : bool :=
  match p, s with
  | EmptyString, _ => true
  | String a p', String b s' => Ascii.eqb a b && HasPrefix s' p'
  | String _ _, EmptyString => false
  end.

(** [strings.Index(s, substr)]; [None] stands for Go's [-1]. *)
Fixpoint Index (s substr : string) : option nat :=
  if HasPrefix s substr then Some 0
  else match s with
       | EmptyString => None
       | String _ s' => option_map S (Index s' substr)
       end.

(** [strings.IndexByte(s, c)]. *)
Fixpoint IndexByte (s : string) (c : ascii) : option nat :=
  match s with
  | EmptyString => None
  | String b s' => if Ascii.eqb b c then Some 0 else option_map S (IndexByte s' c)
  end.

(** [strings.Contains(s, substr)] is [Index(s, substr) >= 0]. *)
Definition Contains (s substr : string) : bool :=
  match Index s substr with Some _ => true | None => false end.

(** [strings.ReplaceAll(s, old, new)] for a non-empty [old] (every call in
    the source passes a non-empty literal): leftmost occurrences, not
    overlapping.  [skip] counts the bytes of a matched occurrence still to
    be passed over. *)
Fixpoint replaceAllFrom (skip : nat) (s old new : string) : string :=
  match s with
  | EmptyString => EmptyString
  | String c s' =>
      match skip with
      | S k => replaceAllFrom k s' old new
      | O => if HasPrefix s old
             then new ++ replaceAllFrom (String.length old - 1) s' old new
             else String c (replaceAllFrom 0 s' old new)
      end
  end.

Definition ReplaceAll (s old new : string) : string := replaceAllFrom 0 s old new.

(* ------------------------------------------------------------------ *)
(** ** UTF-8: what [for _, r := range s] and [WriteRune] do *)

Definition rune := Z.

Local Open Scope Z_scope.
Definition RuneError : rune := 65533.   (* U+FFFD *)

Definition inRange (lo hi b : Z) : bool := (lo <=? b)%Z && (b <=? hi)%Z.
Definition isCont (c : ascii) : bool := inRange 128 191 (byte c).
Definition low6 (c : ascii) : Z := Z.land (byte c) 63.

(** Bounds of the second byte of a multi-byte sequence, by first byte
    (the [acceptRanges] table of [unicode/utf8]). *)
Definition secondLo (b0 : Z) : Z :=
  if (b0 =? 224)%Z then 160 else if (b0 =? 240)%Z then 144 else 128.
Definition secondHi (b0 : Z) : Z :=
  if (b0 =? 237)%Z then 159 else if (b0 =? 244)%Z then 143 else 191.

(** The runes a [range] loop over [s] yields, in order: an invalid or
    truncated sequence yields [RuneError] and advances one byte. *)
Fixpoint runes (s : string) : list rune :=
  match s with
  | EmptyString => []
  | String c0 s1 =>
      let b0 := byte c0 in
      if (b0 <? 128)%Z then b0 :: runes s1
      else if inRange 194 223 b0 then
        match s1 with
        | String c1 s2 =>
            if isCont c1
            then Z.lor (Z.shiftl (Z.land b0 31) 6) (low6 c1) :: runes s2
            else RuneError :: runes s1
        | EmptyString => RuneError :: runes s1
        end
      else if inRange 224 239 b0 then
        match s1 with
        | String c1 (String c2 s3) =>
            if inRange (secondLo b0) (secondHi b0) (byte c1) && isCont c2
            then Z.lor (Z.shiftl (Z.land b0 15) 12)
                   (Z.lor (Z.shiftl (low6 c1) 6) (low6 c2)) :: runes s3
            else RuneError :: runes s1
        | _ => RuneError :: runes s1
        end
      else if inRange 240 244 b0 then
        match s1 with
        | String c1 (String c2 (String c3 s4)) =>
            if inRange (secondLo b0) (secondHi b0) (byte c1) && isCont c2 && isCont c3
            then Z.lor (Z.shiftl (Z.land b0 7) 18)
                   (Z.lor (Z.shiftl (low6 c1) 12)
                      (Z.lor (Z.shiftl (low6 c2) 6) (low6 c3))) :: runes s4
            else RuneError :: runes s1
        | _ => RuneError :: runes s1
        end
      else RuneError :: runes s1
  end.

(** [utf8.AppendRune]: the bytes [strings.Builder.WriteRune(r)] appends. *)
Definition encodeRune (r : rune) : string :=
  if inRange 0 127 r then str1 (chr r)
  else if inRange 128 2047 r then
    String (chr (Z.lor 192 (Z.shiftr r 6)))
      (str1 (chr (Z.lor 128 (Z.land r 63))))
  else if inRange 2048 55295 r || inRange 57344 65535 r then
    String (chr (Z.lor 224 (Z.shiftr r 12)))
      (String (chr (Z.lor 128 (Z.land (Z.shiftr r 6) 63)))
         (str1 (chr (Z.lor 128 (Z.land r 63)))))
  else if inRange 65536 1114111 r then
    String (chr (Z.lor 240 (Z.shiftr r 18)))
      (String (chr (Z.lor 128 (Z.land (Z.shiftr r 12) 63)))
         (String (chr (Z.lor 128 (Z.land (Z.shiftr r 6) 63)))
            (str1 (chr (Z.lor 128 (Z.land r 63))))))
  else String (chr 239) (String (chr 191) (str1 (chr 189))).

Local Close Scope Z_scope.

(* ------------------------------------------------------------------ *)
(** ** Parameter types and the type inferrer *)

Inductive ParamType : Type :=
| ParamTypeGeneric
| ParamTypeID
| ParamTypeName
| ParamTypeDescription.

Definition ParamType_eqb (a b : ParamType) : bool :=
  match a, b with
  | ParamTypeGeneric, ParamTypeGeneric
  | ParamTypeID, ParamTypeID
  | ParamTypeName, ParamTypeName
  | ParamTypeDescription, ParamTypeDescription => true
  | _, _ => false
  end.

(** [(r >= 'a' && r <= 'z') || (r >= 'A' && r <= 'Z') ||
     (r >= '0' && r <= '9') || r == '-' || r == '_'] *)
Definition isIDRune (r : rune) : bool :=
  (inRange 97 122 r || inRange 65 90 r || inRange 48 57 r
   || (r =? 45) || (r =? 95))%Z.

(** [(r >= 0x4e00 && r <= 0x9fff) || (r >= 0x3400 && r <= 0x4dbf) ||
     (r >= 0xf900 && r <= 0xfaff)] *)
Definition isCJKRune (r : rune) : bool :=
  (inRange 19968 40959 r || inRange 13312 19903 r || inRange 63744 64255 r)%Z.

Definition namePatterns : list string :=
  [ "项目"; "小区"; "大厦"; "广场"; "中心"; "花园"; "公寓"; "别墅"; "期"; "区"; "号" ].

(** The three loops of [InferType]; each leaves its flag as the source's
    [break] does. *)
Fixpoint InferType_isID (rs : list rune) (isID : bool) : bool :=
  match rs with
  | [] => isID
  | r :: rest => if negb (isIDRune r) then false else InferType_isID rest isID
  end.

Fixpoint InferType_hasChinese (rs : list rune) (found : bool) : bool :=
  match rs with
  | [] => found
  | r :: rest => if isCJKRune r then true else InferType_hasChinese rest found
  end.

Fixpoint InferType_hasNamePattern (value : string) (ps : list string) (found : bool) : bool :=
  match ps with
  | [] => found
  | pattern :: rest =>
      if Contains value pattern then true
      else InferType_hasNamePattern value rest found
  end.

Definition InferType (value : string) : ParamType :=
  if String.length value =? 0 then ParamTypeGeneric
  else if (String.length value <=? 100) && InferType_isID (runes value) true
  then ParamTypeID
  else if (500 <? String.length value)
          || Contains value (str1 LF) || Contains value (str1 CR)
  then ParamTypeDescription
  else
    let hasChineseOrNamePattern := InferType_hasChinese (runes value) false in
    let hasChineseOrNamePattern :=
      if negb hasChineseOrNamePattern
      then InferType_hasNamePattern value namePatterns hasChineseOrNamePattern
      else hasChineseOrNamePattern in
    if hasChineseOrNamePattern then ParamTypeName else ParamTypeGeneric.

(** The decision list of the specification, first match wins. *)
Definition inferType_spec (value : string) : ParamType :=
  if String.eqb value "" then ParamTypeGeneric
  else if (String.length value <=? 100) && forallb isIDRune (runes value)
  then ParamTypeID
  else if (500 <? String.length value)
          || Contains value (str1 LF) || Contains value (str1 CR)
  then ParamTypeDescription
  else if existsb isCJKRune (runes value)
          || existsb (Contains value) namePatterns
  then ParamTypeName
  else ParamTypeGeneric.

(* ------------------------------------------------------------------ *)
(** ** The escaper *)

Definition quoteString (s : string) : string :=
  let s := ReplaceAll s (str1 BACKSLASH) (String BACKSLASH (str1 BACKSLASH)) in
  let s := ReplaceAll s (str1 SQUOTE) (String SQUOTE (str1 SQUOTE)) in
  let s := ReplaceAll s (str1 DQUOTE) (String BACKSLASH (str1 DQUOTE)) in
  let s := ReplaceAll s (str1 LF) (String BACKSLASH "n") in
  let s := ReplaceAll s (str1 CR) (String BACKSLASH "r") in
  let s := ReplaceAll s (str1 TAB) (String BACKSLASH "t") in
  let s := ReplaceAll s (str1 NUL) (String BACKSLASH "0") in
  let s := ReplaceAll s (str1 CtrlZ) (String BACKSLASH "Z") in
  str1 SQUOTE ++ s ++ str1 SQUOTE.

(* ------------------------------------------------------------------ *)
(** ** Blocklists

    Each [dangerousPatterns] map literal of the source, in the order it is
    written.  A Go [range] over a map visits the entries in an order the
    runtime chooses afresh each time; the loops below therefore take the
    order as an argument ([MapIter]), a permutation of the map's entries. *)

Definition PatternMap := list (string * string).

Definition DescriptionValidator_dangerousPatterns : PatternMap :=
  [ ("'; drop table", "'; drop_table");
    ("'; delete from", "'; delete_from");
    ("'; truncate table", "'; truncate_table");
    ("'; insert into", "'; insert_into");
    ("; drop table", "; drop_table");
    ("; delete from", "; delete_from");
    ("; truncate table", "; truncate_table");
    ("; insert into", "; insert_into");
    ("union select", "union_select");
    ("union all select", "union_all_select");
    ("xp_cmdshell", "xp_cmd_shell");
    ("sp_executesql", "sp_execute_sql");
    ("--", "_-");
    ("/*", "/_*");
    ("*/", "*_/") ].

Definition GenericValidator_dangerousPatterns : PatternMap :=
  [ ("union select", "union_select");
    ("union all select", "union_all_select");
    ("'; drop table", "'; drop_table");
    ("'; delete from", "'; delete_from");
    ("'; truncate table", "'; truncate_table");
    ("'; insert into", "'; insert_into");
    ("'; update ", "'; update_");
    ("; drop table", "; drop_table");
    ("; delete from", "; delete_from");
    ("; truncate table", "; truncate_table");
    ("; insert into", "; insert_into");
    ("; update ", "; update_");
    (" or 1=1", "_or_1=1");
    (" or '1'='1", "_or_'1'='1");
    (" and 1=1", "_and_1=1");
    ("/*", "/_*");
    ("*/", "*_/");
    ("--", "__");
    ("xp_cmdshell", "xp_cmd_shell");
    ("sp_executesql", "sp_execute_sql") ].

Definition NameValidator_dangerousPatterns : PatternMap :=
  [ ("union select", "union_select");
    ("union all select", "union_all_select");
    (" or ", "_or_");
    (" and ", "_and_");
    ("' or '", "'_or_'");
    (String DQUOTE (" or " ++ str1 DQUOTE), String DQUOTE ("_or_" ++ str1 DQUOTE));
    ("' and '", "'_and_'");
    (String DQUOTE (" and " ++ str1 DQUOTE), String DQUOTE ("_and_" ++ str1 DQUOTE));
    (" or 1=1", "_or_1=1");
    (" or '1'='1", "_or_'1'='1");
    ("'; drop table", "'; drop_table");
    ("'; delete from", "'; delete_from");
    ("'; insert into", "'; insert_into");
    ("'; update set", "'; update_set");
    ("/*", "/_*");
    ("*/", "*_/");
    ("--", "__");
    ("#", "_#");
    ("xp_cmdshell", "xp_cmd_shell");
    ("sp_executesql", "sp_execute_sql");
    ("ascii", "_ascii_");
    ("substring", "_substring_");
    ("concat", "_concat_");
    ("extractvalue", "_extractvalue_");
    ("waitfor", "_waitfor_");
    ("delay", "_delay_") ].

Definition sanitizeStringInput_dangerousPatterns : PatternMap :=
  [ ("union select", "union_select");
    ("union all select", "union_all_select");
    ("' or '1'='1", "'_or_'1'='1");
    ("' or 1=1", "'_or_1=1");
    ("'; drop table", "';_drop_table");
    ("'; delete from", "';_delete_from");
    ("'; update ", "';_update_");
    ("'; insert into", "';_insert_into");
    ("/*", "/_*");
    ("*/", "*_/");
    ("--", "__");
    ("xp_cmdshell", "xp_cmd_shell");
    ("sp_executesql", "sp_execute_sql") ].

(** The order in which one [range] statement visits a map. *)
Definition MapIter := PatternMap -> PatternMap.

Definition MapIter_ok (it : MapIter) : Prop :=
  forall m, Permutation (it m) m.

(** The order of the map literal itself: one of the orders Go may choose. *)
Definition sourceOrder : MapIter := fun m => m.

(* ------------------------------------------------------------------ *)
(** ** Values, errors, validators *)

Inductive error : Type :=
| errorString (msg : string).   (* errors.New, fmt.Errorf *)

Definition errMorePlaceholders : error := errorString "占位符个数 > 参数个数".
Definition errMoreValues : error := errorString "占位符个数 < 参数个数".
Definition errUnsupported (typeName : string) : error :=
  errorString ("unsupported type " ++ typeName).

(** A [time.Time]: an instant and the zone it is shown in. *)
Inductive Time : Type :=
| mkTime (unixNano : Z) (zoneOffset : Z).

(** The dynamic values [literal] switches on.  [VInt] stands for every
    integer type of the case list ([n] is the mathematical value),
    floating-point values carry their IEEE bit pattern, and [VOther] is any
    other type, with the name [%T] prints.  A [driver.Valuer] is given by
    what the call of its [Value()] method does: it returns a value, which
    may be a Valuer again ([VValuerOk]), or an error ([VValuerErr]); it
    panics ([VValuerPanic]); it does not return ([VValuerHangs]); or it
    returns a Valuer whose [Value()] returns a Valuer again, and so on
    without end ([VValuerChain]). *)
Inductive Value : Type :=
| VNil
| VBool (b : bool)
| VInt (n : Z)
| VFloat32 (bits : Z)
| VFloat64 (bits : Z)
| VString (s : string)
| VBytes (b : string)
| VTime (t : Time)
| VValuerOk (typeName : string) (dv : Value)
| VValuerErr (typeName : string) (err : error)
| VValuerPanic (typeName : string)
| VValuerHangs (typeName : string)
| VValuerChain (typeName : string)
| VOther (typeName : string).

(** The interface [ParamValidator].  [Validate] also receives the order in
    which the validator's blocklist map is ranged over (the ID validator
    has no map and ignores it). *)
Record ParamValidator : Type := {
  Validate : MapIter -> string -> run string;
  GetType : ParamType
}.

(** [map[ParamType]ParamValidator] *)
Record TypeAwareProcessor : Type := {
  validators : ParamType -> option ParamValidator
}.

Definition RegisterValidator (tap : TypeAwareProcessor) (validator : ParamValidator)
  : TypeAwareProcessor :=
  {| validators := fun t =>
       if ParamType_eqb t (GetType validator) then Some validator
       else validators tap t |}.

(** The second lookup yields Go's nil interface when [ParamTypeGeneric] was
    never registered; calling a method on it panics. *)
Definition GetValidator (tap : TypeAwareProcessor) (paramType : ParamType)
  : option ParamValidator :=
  match validators tap paramType with
  | Some validator => Some validator
  | None => validators tap ParamTypeGeneric
  end.

Definition ProcessString (tap : TypeAwareProcessor) (it : MapIter)
  (value : string) (paramType : ParamType) : run string :=
  match GetValidator tap paramType with
  | Some validator => Validate validator it value
  | None => Panic
  end.

(** [regexp.MustCompile(`\s+`).ReplaceAllString(s, " ")]: RE2's [\s] is
    the byte class [\t\n\f\r ]; every maximal run becomes one space. *)
Definition isRegexpSpace (c : ascii) : bool :=
  Ascii.eqb c TAB || Ascii.eqb c LF || Ascii.eqb c FF || Ascii.eqb c CR
  || Ascii.eqb c " "%char.

Fixpoint collapseSpaces (inRun : bool) (s : string) : string :=
  match s with
  | EmptyString => EmptyString
  | String c s' =>
      if isRegexpSpace c
      then if inRun then collapseSpaces true s'
           else String " "%char (collapseSpaces true s')
      else String c (collapseSpaces false s')
  end.

(** [fmt.Sprintf("%d", n)] *)
Definition Sprintf_d (n : Z) : string := NilZero.string_of_int (Z.to_int n).

(** [strconv.FormatBool] *)
Definition FormatBool (b : bool) : string := if b then "true" else "false".

(** [if len(s) > n { s = s[:n] }] *)
Definition truncate (n : nat) (s : string) : string :=
  if n <? String.length s then take n s else s.

(** Functions of Go's libraries that the source calls and whose code is not
    part of it. *)
Record GoLib : Type := {
  norm_NFKC : string -> string;             (* norm.NFKC.String *)
  strings_ToLower : string -> string;       (* strings.ToLower *)
  strings_TrimSpace : string -> string;     (* strings.TrimSpace *)
  float64_of_float32 : Z -> Z;              (* float64(v) for a float32 v *)
  strconv_FormatFloat : Z -> string;        (* strconv.FormatFloat(x, 'g', -1, 64) *)
  time_Format : Time -> string -> string    (* t.Format(layout) *)
}.

Section Runtime.

Variable lib : GoLib.

Local Abbreviation NFKC := (norm_NFKC lib).
Local Abbreviation ToLower := (strings_ToLower lib).
Local Abbreviation TrimSpace := (strings_TrimSpace lib).
Local Abbreviation float32to64 := (float64_of_float32 lib).
Local Abbreviation FormatFloat := (strconv_FormatFloat lib).
Local Abbreviation Time_Format := (time_Format lib).

(** *** replaceCaseInsensitive *)

(** One turn of the [for] loop per unit of fuel. *)
Fixpoint replaceLoop (fuel : nat) (s sLower oldLower new : string)
  (lenOld lastEnd : nat) (result : string) : run string :=
  match fuel with
  | O => Diverge
  | S fuel' =>
      rest <- sliceFrom sLower lastEnd ;;
      match Index rest oldLower with
      | None =>
          tail <- sliceFrom s lastEnd ;;
          Done (result ++ tail)
      | Some index =>
          let actualIndex := lastEnd + index in
          seg <- slice s lastEnd actualIndex ;;
          replaceLoop fuel' s sLower oldLower new lenOld
            (actualIndex + lenOld) (result ++ seg ++ new)
      end
  end.

(** The fuel given is enough for every non-empty [old]; with an empty
    [old] the loop of the source never ends, and the model says
    [Diverge]. *)
Definition replaceCaseInsensitive (s old new : string) : run string :=
  let oldLower := ToLower old in
  let sLower := ToLower s in
  replaceLoop (String.length sLower + 2) s sLower oldLower new
    (String.length old) 0 EmptyString.

(** The loop every sanitizer runs over its map:
    [for pattern, replacement := range dangerousPatterns { if
    strings.Contains(lower, pattern) { result = replaceCaseInsensitive(...);
    lower = strings.ToLower(result) } }]. *)
Fixpoint rangePatterns (order : PatternMap) (lower result : string) : run string :=
  match order with
  | [] => Done result
  | (pattern, replacement) :: rest =>
      if Contains lower pattern then
        result' <- replaceCaseInsensitive result pattern replacement ;;
        rangePatterns rest (ToLower result') result'
      else rangePatterns rest lower result
  end.

(** *** The four validators *)

Fixpoint IDValidator_loop (rs : list rune) (result : string) : string :=
  match rs with
  | [] => result
  | r :: rest =>
      if isIDRune r
      then IDValidator_loop rest (result ++ encodeRune r)
      else IDValidator_loop rest (result ++ encodeRune 95%Z)
  end.

Definition IDValidator_Validate (it : MapIter) (value : string) : run string :=
  let normalized := NFKC value in
  let cleaned := IDValidator_loop (runes normalized) EmptyString in
  Done (truncate 100 cleaned).

Definition DescriptionValidator_Validate (it : MapIter) (value : string) : run string :=
  let normalized := NFKC value in
  let normalized := ReplaceAll normalized (String CR (str1 LF)) (str1 LF) in
  let normalized := ReplaceAll normalized (str1 CR) (str1 LF) in
  let lower := ToLower normalized in
  result <- rangePatterns (it DescriptionValidator_dangerousPatterns) lower normalized ;;
  Done (truncate 10000 result).

Definition GenericValidator_Validate (it : MapIter) (value : string) : run string :=
  let normalized := NFKC value in
  let normalized := ReplaceAll normalized (str1 TAB) " " in
  let normalized := ReplaceAll normalized (str1 LF) " " in
  let normalized := ReplaceAll normalized (str1 CR) " " in
  let normalized := collapseSpaces false normalized in
  let normalized := TrimSpace normalized in
  let lower := ToLower normalized in
  result <- rangePatterns (it GenericValidator_dangerousPatterns) lower normalized ;;
  Done (truncate 2000 result).

Definition NameValidator_Validate (it : MapIter) (value : string) : run string :=
  let normalized := NFKC value in
  let normalized := ReplaceAll normalized (str1 TAB) " " in
  let normalized := ReplaceAll normalized (str1 LF) " " in
  let normalized := ReplaceAll normalized (str1 CR) " " in
  let normalized := collapseSpaces false normalized in
  let normalized := TrimSpace normalized in
  let lower := ToLower normalized in
  result <- rangePatterns (it NameValidator_dangerousPatterns) lower normalized ;;
  Done (truncate 500 result).

Definition IDValidator : ParamValidator :=
  {| Validate := IDValidator_Validate; GetType := ParamTypeID |}.
Definition DescriptionValidator : ParamValidator :=
  {| Validate := DescriptionValidator_Validate; GetType := ParamTypeDescription |}.
Definition GenericValidator : ParamValidator :=
  {| Validate := GenericValidator_Validate; GetType := ParamTypeGeneric |}.
Definition NameValidator : ParamValidator :=
  {| Validate := NameValidator_Validate; GetType := ParamTypeName |}.

Definition NewTypeAwareProcessor : TypeAwareProcessor :=
  let processor := {| validators := fun _ => None |} in
  let processor := RegisterValidator processor IDValidator in
  let processor := RegisterValidator processor NameValidator in
  let processor := RegisterValidator processor DescriptionValidator in
  let processor := RegisterValidator processor GenericValidator in
  processor.

Definition globalProcessor : TypeAwareProcessor := NewTypeAwareProcessor.

(** *** sanitizeStringInput *)

Definition sanitizeStringInput (it : MapIter) (s : string) : run string :=
  let s := truncate 65535 s in
  let lower := ToLower s in
  rangePatterns (it sanitizeStringInput_dangerousPatterns) lower s.

(** *** literal and Expand *)

Definition reflectFloat (v : Value) : run Z :=
  match v with
  | VFloat32 bits => Done (float32to64 bits)
  | VFloat64 bits => Done bits
  | _ => Panic
  end.

(** A Go result pair [(string, error)]; [None] is the nil error. *)
Definition result : Type := string * option error.

Fixpoint literal (it : MapIter) (v : Value) : run result :=
  match v with
  | VNil => Done ("NULL", None)
  | VBool val => Done (FormatBool val, None)
  | VInt val => Done (Sprintf_d val, None)
  | VFloat32 _ | VFloat64 _ =>
      x <- reflectFloat v ;;
      Done (FormatFloat x, None)
  | VString val =>
      let paramType := InferType val in
      sanitized <- ProcessString globalProcessor it val paramType ;;
      Done (quoteString sanitized, None)
  | VBytes val =>
      let str := val in
      let paramType := InferType str in
      sanitized <- ProcessString globalProcessor it str paramType ;;
      Done (quoteString sanitized, None)
  | VTime val =>
      Done ("'" ++ Time_Format val "2006-01-02 15:04:05" ++ "'", None)
  | VValuerOk _ dv => literal it dv
  | VValuerErr _ err => Done (EmptyString, Some err)
  | VValuerPanic _ => Panic           (* the panic of [v.Value()] goes up *)
  | VValuerHangs _ => Diverge         (* [v.Value()] does not return *)
  | VValuerChain _ => Diverge         (* [literal(dv)] on a Valuer, again and again *)
  | VOther typeName => Done (EmptyString, Some (errUnsupported typeName))
  end.

Definition Literal (it : MapIter) (v : Value) : run result := literal it v.

(** The loop of [Expand]; [start] is 0 at every test of the loop condition.
    The [argI]-th call of [literal] ranges over its map in the order
    [sched argI]. *)
Fixpoint ExpandLoop (fuel : nat) (sched : nat -> MapIter) (sql : string)
  (vars : list Value) (argI : nat) (buf : string) : run result :=
  match fuel with
  | O => Diverge
  | S fuel' =>
      match IndexByte sql "?"%char with
      | Some pos =>
          if List.length vars <=? argI
          then Done (EmptyString, Some errMorePlaceholders)
          else
            head <- sliceTo sql pos ;;
            match nth_error vars argI with
            | None => Panic
            | Some v =>
                r <- literal (sched argI) v ;;
                match r with
                | (_, Some err) => Done (EmptyString, Some err)
                | (lit, None) =>
                    sql' <- sliceFrom sql (pos + 1) ;;
                    ExpandLoop fuel' sched sql' vars (S argI) (buf ++ head ++ lit)
                end
            end
      | None =>
          if negb (argI =? List.length vars)
          then Done (EmptyString, Some errMoreValues)
          else Done (buf ++ sql, None)
      end
  end.

Definition Expand (sched : nat -> MapIter) (sql : string) (vars : list Value)
  : run result :=
  ExpandLoop (String.length sql + 1) sched sql vars 0 EmptyString.

End Runtime.

(* ------------------------------------------------------------------ *)
(** ** The library functions on ASCII text

    On a string of bytes below 128 the library functions have a simple
    closed form; these definitions serve to run the model on such inputs. *)

Definition isASCIIByte (c : ascii) : bool := (byte c <? 128)%Z.
Definition isASCII (s : string) : bool := allBytes isASCIIByte s.

Definition asciiLower (c : ascii) : ascii :=
  if inRange 65 90 (byte c) then chr (byte c + 32) else c.

Fixpoint mapString (f : ascii -> ascii) (s : string) : string :=
  match s with
  | EmptyString => EmptyString
  | String c s' => String (f c) (mapString f s')
  end.

Definition asciiToLower (s : string) : string := mapString asciiLower s.
Definition asciiNFKC (s : string) : string := s.

(** [strings.TrimSpace] on ASCII text trims [\t \n \v \f \r] and space. *)
Definition isAsciiSpace (c : ascii) : bool :=
  Ascii.eqb c TAB || Ascii.eqb c LF || Ascii.eqb c VT || Ascii.eqb c FF
  || Ascii.eqb c CR || Ascii.eqb c " "%char.

Fixpoint trimLeft (s : string) : string :=
  match s with
  | String c s' => if isAsciiSpace c then trimLeft s' else s
  | EmptyString => EmptyString
  end.

Fixpoint trimRight (s : string) : string :=
  match s with
  | EmptyString => EmptyString
  | String c s' =>
      match trimRight s' with
      | EmptyString => if isAsciiSpace c then EmptyString else str1 c
      | t => String c t
      end
  end.

Definition asciiTrimSpace (s : string) : string := trimRight (trimLeft s).

(** The library restricted to ASCII text.  Floating-point and time
    formatting are not exercised through it. *)
Definition asciiLib : GoLib :=
  {| norm_NFKC := asciiNFKC;
     strings_ToLower := asciiToLower;
     strings_TrimSpace := asciiTrimSpace;
     float64_of_float32 := fun bits => bits;
     strconv_FormatFloat := fun _ => EmptyString;
     time_Format := fun _ _ => EmptyString |}.

(* ------------------------------------------------------------------ *)
(** ** Definitions used to state the properties *)

(** One substitution of the specification: every byte [a] becomes [new]. *)
Fixpoint substByte (a : ascii) (new : string) (s : string) : string :=
  match s with
  | EmptyString => EmptyString
  | String c s' => (if Ascii.eqb c a then new else str1 c) ++ substByte a new s'
  end.

(** The eight substitutions applied at once, byte by byte. *)
Definition escapeByte (c : ascii) : string :=
  if Ascii.eqb c BACKSLASH then String BACKSLASH (str1 BACKSLASH)
  else if Ascii.eqb c SQUOTE then String SQUOTE (str1 SQUOTE)
  else if Ascii.eqb c DQUOTE then String BACKSLASH (str1 DQUOTE)
  else if Ascii.eqb c LF then String BACKSLASH "n"
  else if Ascii.eqb c CR then String BACKSLASH "r"
  else if Ascii.eqb c TAB then String BACKSLASH "t"
  else if Ascii.eqb c NUL then String BACKSLASH "0"
  else if Ascii.eqb c CtrlZ then String BACKSLASH "Z"
  else str1 c.

Fixpoint escapeAll (s : string) : string :=
  match s with
  | EmptyString => EmptyString
  | String c s' => escapeByte c ++ escapeAll s'
  end.

(** The substitutions in the order of the specification. *)
Definition escapeInOrder (s : string) : string :=
  substByte CtrlZ (String BACKSLASH "Z")
    (substByte NUL (String BACKSLASH "0")
       (substByte TAB (String BACKSLASH "t")
          (substByte CR (String BACKSLASH "r")
             (substByte LF (String BACKSLASH "n")
                (substByte DQUOTE (String BACKSLASH (str1 DQUOTE))
                   (substByte SQUOTE (String SQUOTE (str1 SQUOTE))
                      (substByte BACKSLASH (String BACKSLASH (str1 BACKSLASH)) s))))))).

(** The allow-list of the ID validator, as the specification words it:
    a character of [A-Za-z0-9_-] passes unchanged, any other becomes [_]. *)
Definition isIDByte (c : ascii) : bool := isIDRune (byte c).

Definition idCleanRune (r : rune) : string :=
  if isIDRune r then str1 (chr r) else "_".

Fixpoint idClean (rs : list rune) : string :=
  match rs with
  | [] => EmptyString
  | r :: rest => idCleanRune r ++ idClean rest
  end.

(** What is known of the library functions on ASCII text: NFKC leaves it
    unchanged, [ToLower] maps [A-Z] to [a-z] byte by byte, [TrimSpace]
    removes leading and trailing [\t \n \v \f \r] and spaces. *)
Definition GoLib_ascii (lib : GoLib) : Prop :=
  (forall s, isASCII s = true -> norm_NFKC lib s = s)
  /\ (forall s, isASCII s = true -> strings_ToLower lib s = asciiToLower s)
  /\ (forall s, isASCII s = true -> strings_TrimSpace lib s = asciiTrimSpace s).

(** One turn of the blocklist loop, as a function of [result] alone. *)
Definition visit (lib : GoLib) (p : string * string) (result : string) : run string :=
  if Contains (strings_ToLower lib result) (fst p)
  then replaceCaseInsensitive lib result (fst p) (snd p)
  else Done result.

Fixpoint visitAll (lib : GoLib) (order : PatternMap) (result : string) : run string :=
  match order with
  | [] => Done result
  | p :: rest => result' <- visit lib p result ;; visitAll lib rest result'
  end.

(** The validator the specification selects for a parameter type. *)
Definition validateAs (lib : GoLib) (t : ParamType) : MapIter -> string -> run string :=
  match t with
  | ParamTypeID => IDValidator_Validate lib
  | ParamTypeName => NameValidator_Validate lib
  | ParamTypeDescription => DescriptionValidator_Validate lib
  | ParamTypeGeneric => GenericValidator_Validate lib
  end.

Definition singleQuoted (q : string) : Prop :=
  exists body, q = str1 SQUOTE ++ body ++ str1 SQUOTE.

(** The scan of two texts side by side: the lower-cased text [sLower] is
    read from left to right beside the original [s], byte by byte; where
    the lower-cased pattern starts in [sLower], the replacement is emitted
    and as many bytes as the pattern has are skipped in both texts ([skip]
    of them are still to pass); elsewhere the byte of [s] is kept.  When
    [sLower] is [s] lower-cased byte for byte, this is the replacement of
    the occurrences of the pattern, read without regard to case, from left
    to right. *)
Fixpoint scanReplace (skip : nat) (sLower s pat new : string) {struct s} : string :=
  match s with
  | EmptyString => EmptyString
  | String c s' =>
      match skip with
      | S k => scanReplace k (drop 1 sLower) s' pat new
      | O =>
          if HasPrefix sLower pat
          then new ++ scanReplace (String.length pat - 1) (drop 1 sLower) s' pat new
          else String c (scanReplace 0 (drop 1 sLower) s' pat new)
      end
  end.

(** The texts the Generic loop passes through on ['; DROP TABLE users;--]:
    [b1] tells whether a drop-table pattern was applied, [b2] whether the
    comment marker was. *)
Definition dropTableText (b1 b2 : bool) : string :=
  (if b1 then "'; drop_table users;" else "'; DROP TABLE users;")
  ++ (if b2 then "__" else "--").

Definition isDropTable (p : string * string) : bool :=
  String.eqb (fst p) "'; drop table" || String.eqb (fst p) "; drop table".

Definition isDashDash (p : string * string) : bool := String.eqb (fst p) "--".

(** Number of placeholders of a template. *)
Fixpoint placeholders (sql : string) : nat :=
  match sql with
  | EmptyString => 0
  | String c sql' =>
      if Ascii.eqb c "?"%char then S (placeholders sql') else placeholders sql'
  end.

(** The template with its placeholders replaced, from left to right, by
    the texts [lits]; every other byte is kept. *)
Fixpoint fill (sql : string) (lits : list string) : string :=
  match sql with
  | EmptyString => EmptyString
  | String c sql' =>
      if Ascii.eqb c "?"%char then
        match lits with
        | lit :: lits' => lit ++ fill sql' lits'
        | [] => String c (fill sql' [])
        end
      else String c (fill sql' lits)
  end.

(** [lits] are the literal encodings of [vars], the value at position [i]
    being encoded by the [i]-th call of [literal]. *)
Fixpoint encodes (lib : GoLib) (sched : nat -> MapIter) (i : nat)
  (vars : list Value) (lits : list string) : Prop :=
  match vars, lits with
  | [], [] => True
  | v :: vars', lit :: lits' =>
      literal lib (sched i) v = Done (lit, None)
      /\ encodes lib sched (S i) vars' lits'
  | _, _ => False
  end.

(** The cap of each validator. *)
Definition lengthCap (t : ParamType) : nat :=
  match t with
  | ParamTypeID => 100
  | ParamTypeName => 500
  | ParamTypeGeneric => 2000
  | ParamTypeDescription => 10000
  end.

(** A blocklist of non-empty ASCII patterns with ASCII replacements. *)
Definition asciiEntry (p : string * string) : bool :=
  isASCII (fst p) && isASCII (snd p) && (1 <=? String.length (fst p)).

Fixpoint repeatByte (c : ascii) (n : nat) : string :=
  match n with
  | O => EmptyString
  | S n' => String c (repeatByte c n')
  end.

Definition longerThan (n : nat) (r : run string) : bool :=
  match r with
  | Done out => n <? String.length out
  | _ => false
  end.

Definition HasSuffix (p B : string) : bool :=
  (String.length B <=? String.length p)
  && String.eqb (drop (String.length p - String.length B) p) B.

(** No occurrence of [q] can start inside [B] when [B] is followed by more
    text: no non-empty end of [B] is a beginning of [q] or begins with
    [q]. *)
Fixpoint startsNowhere (q B : string) : bool :=
  match B with
  | EmptyString => true
  | String _ B' =>
      negb (HasPrefix q B) && negb (HasPrefix B q) && startsNowhere q B'
  end.

(** One of the two texts begins with the other. *)
Definition compat (u v : string) : bool := HasPrefix u v || HasPrefix v u.

(** What a replacement [r] keeps of its pattern [p]: the beginning that the
    two share, and, of the rest [T] of [r], the longest proper end that is
    also an end of [p].  [suffixCut p T] is the length of what lies between
    the two in [r], the part that the replacement changes. *)
Fixpoint commonPrefix (p r : string) : string :=
  match p, r with
  | String a p', String b r' =>
      if Ascii.eqb a b then String a (commonPrefix p' r') else EmptyString
  | _, _ => EmptyString
  end.

Fixpoint suffixCut (p T : string) : nat :=
  match T with
  | EmptyString => 0
  | String _ T' => if HasSuffix p T' then 1 else S (suffixCut p T')
  end.

(** No occurrence of [q] can lie over one of the bytes [a .. e-1] of [r],
    whatever surrounds [r]: an occurrence that starts inside [r], at an
    offset [o < e], either ends within the first [a] bytes or disagrees
    with [r]; an occurrence that starts [m] bytes before [r] either ends
    within the first [a] bytes or disagrees with [r]. *)
Definition untouched (q r : string) (a e : nat) : bool :=
  forallb (fun o => (o + String.length q <=? a) || negb (compat (drop o r) q))
    (seq 0 e)
  && forallb (fun m => (String.length q - m <=? a) || negb (compat r (drop m q)))
       (seq 1 (String.length q - 1)).

(** Replacing [p] by the lower-case text [r] cannot bring in an occurrence
    of the pattern [q]: none can lie over the part of [r] that differs from
    [p]. *)
Definition keepsAbsent (q : string) (pr : string * string) : bool :=
  let (p, r) := pr in
  let A := commonPrefix p r in
  let k := suffixCut p (drop (String.length A) r) in
  (1 <=? String.length p) && (1 <=? k)
  && untouched q r (String.length A) (String.length A + k).

(** Replacing [q] by [r] leaves no occurrence of [q]. *)
Definition clears (q r : string) : bool :=
  let A := commonPrefix q r in
  let T := drop (String.length A) r in
  keepsAbsent q (q, r)
  && (String.length A <? String.length q)
  && startsNowhere q (drop (suffixCut q T) T).

(** A pattern [q'] is neutralized by a blocklist when the list has an
    entry whose pattern [q] occurs in [q'], whose replacement clears [q],
    and no replacement of the list can bring [q] back. *)
Definition neutralizedBy (table : PatternMap) (q' : string) : bool :=
  existsb (fun entry =>
             Contains q' (fst entry)
             && clears (fst entry) (asciiToLower (snd entry))
             && forallb (fun pr => keepsAbsent (fst entry) (fst pr, asciiToLower (snd pr)))
                  table)
    table.


(** Lower-case ASCII patterns, not empty, with ASCII replacements. *)
Definition lowerEntry (p : string * string) : bool :=
  asciiEntry p && String.eqb (asciiToLower (fst p)) (fst p).

(** The whitespace policy of the Name and Generic validators on ASCII
    text. *)
Definition normalizeSpaces (s : string) : string :=
  asciiTrimSpace
    (collapseSpaces false
       (ReplaceAll (ReplaceAll (ReplaceAll s (str1 TAB) " ") (str1 LF) " ")
          (str1 CR) " ")).

(** [strings.ToLower] on ASCII text and on the letter U+023A (UTF-8 bytes
    200 186), whose lower case U+2C65 takes three bytes (226 177 165):
    lower-casing does not keep byte offsets. *)
Fixpoint ToLower_AStroke (s : string) : string :=
  match s with
  | EmptyString => EmptyString
  | String c s' =>
      match s' with
      | String d s'' =>
          if Ascii.eqb c "200"%char && Ascii.eqb d "186"%char
          then String "226"%char (String "177"%char (String "165"%char
                 (ToLower_AStroke s'')))
          else String (asciiLower c) (ToLower_AStroke s')
      | EmptyString => str1 (asciiLower c)
      end
  end.

(** The library on texts made of ASCII and [Ⱥ] (which NFKC leaves
    unchanged). *)
Definition aStrokeLib : GoLib :=
  {| norm_NFKC := asciiNFKC;
     strings_ToLower := ToLower_AStroke;
     strings_TrimSpace := asciiTrimSpace;
     float64_of_float32 := fun bits => bits;
     strconv_FormatFloat := fun _ => EmptyString;
     time_Format := fun _ _ => EmptyString |}.


(** The call returns or panics. *)
Definition terminated {A : Type} (r : run A) : bool :=
  match r with
  | Diverge => false
  | _ => true
  end.

(** Another order Go may choose: the map literal read backwards. *)
Definition reverseOrder : MapIter := fun m => rev m.

(** *** Reading a quoted literal back

    The reading of a single-quoted SQL string literal with backslash
    escapes (MySQL's default): after the opening quote a backslash takes
    the next byte with it, two quotes stand for one quote, and a quote
    alone closes the literal. *)

(** The byte an escape sequence [\d] stands for; a byte without a special
    meaning stands for itself. *)
Definition unescapeByte (d : ascii) : ascii :=
  if Ascii.eqb d "n"%char then LF
  else if Ascii.eqb d "r"%char then CR
  else if Ascii.eqb d "t"%char then TAB
  else if Ascii.eqb d "0"%char then NUL
  else if Ascii.eqb d "Z"%char then CtrlZ
  else if Ascii.eqb d "b"%char then "008"%char
  else d.

Definition consResult (c : ascii) (r : option (string * string))
  : option (string * string) :=
  match r with
  | Some (v, rest) => Some (String c v, rest)
  | None => None
  end.

(** The text read after the opening quote and what follows the closing
    quote; [None] when the literal is not closed. *)
Fixpoint readBody (s : string) : option (string * string) :=
  match s with
  | EmptyString => None
  | String c s' =>
      if Ascii.eqb c BACKSLASH then
        match s' with
        | String d s'' => consResult (unescapeByte d) (readBody s'')
        | EmptyString => None
        end
      else if Ascii.eqb c SQUOTE then
        match s' with
        | String d s'' =>
            if Ascii.eqb d SQUOTE then consResult SQUOTE (readBody s'')
            else Some (EmptyString, s')
        | EmptyString => Some (EmptyString, EmptyString)
        end
      else consResult c (readBody s')
  end.

Definition readLiteral (s : string) : option (string * string) :=
  match s with
  | String c s' => if Ascii.eqb c SQUOTE then readBody s' else None
  | EmptyString => None
  end.

(** The bytes [quoteString] writes as a backslash sequence, the backslash
    and the quotes apart. *)
Definition isControlByte (c : ascii) : bool :=
  Ascii.eqb c LF || Ascii.eqb c CR || Ascii.eqb c TAB || Ascii.eqb c NUL
  || Ascii.eqb c CtrlZ.

(** The map orders of two runs, one after the other: the first [k] calls
    of [literal] range as the calls of the first run did, the following
    ones as the calls of the second run. *)
Definition joinSched (k : nat) (sched1 sched2 : nat -> MapIter) : nat -> MapIter :=
  fun i => if i <? k then sched1 i else sched2 (i - k).

(** The texts a value holds are ASCII. *)
Fixpoint asciiValue (v : Value) : bool :=
  match v with
  | VString s | VBytes s => isASCII s
  | VValuerOk _ dv => asciiValue dv
  | _ => true
  end.

(** Every call of [Value()] that [literal] makes on [v] ends: it returns,
    or it panics. *)
Fixpoint valuerEnds (v : Value) : bool :=
  match v with
  | VValuerOk _ dv => valuerEnds dv
  | VValuerHangs _ | VValuerChain _ => false
  | _ => true
  end.

(** Every call of [Value()] that [literal] makes on [v] returns, a value
    or an error. *)
Fixpoint valuerReturns (v : Value) : bool :=
  match v with
  | VValuerOk _ dv => valuerReturns dv
  | VValuerPanic _ | VValuerHangs _ | VValuerChain _ => false
  | _ => true
  end.

Definition isDigitByte (c : ascii) : bool := inRange 48 57 (byte c).

(** *** The whitespace policy of the Name and Generic validators *)

(** A byte the policy leaves where it is: not one of [\t \n \f \r]. *)
Definition keptByte (c : ascii) : bool :=
  negb (isRegexpSpace c) || Ascii.eqb c " "%char.

(** The text does not begin, or end, with a byte that [TrimSpace] trims. *)
Definition startsClean (x : string) : bool :=
  match x with
  | String c _ => negb (isAsciiSpace c)
  | EmptyString => true
  end.

Fixpoint endsClean (x : string) : bool :=
  match x with
  | EmptyString => true
  | String c EmptyString => negb (isAsciiSpace c)
  | String _ x' => endsClean x'
  end.

(** The normal form of the policy: no [\t \n \f \r], no two spaces in a
    row, no whitespace at either end. *)
Definition spaceNormal (x : string) : bool :=
  allBytes keptByte x && negb (Contains x "  ") && startsClean x && endsClean x.

(** A blocklist entry whose replacement keeps a text in that form. *)
Definition spaceSafe (pr : string * string) : bool :=
  allBytes keptByte (snd pr) && (1 <=? String.length (snd pr))
  && startsClean (snd pr) && endsClean (snd pr)
  && keepsAbsent "  " (fst pr, asciiToLower (snd pr)).

(** *** The line ends of the Description validator *)

Definition notCR (c : ascii) : bool := negb (Ascii.eqb c CR).

(** Steps 2 of [DescriptionValidator.Validate]: CRLF, then a lone CR,
    become LF. *)
Definition DescriptionValidator_lineEnds (s : string) : string :=
  ReplaceAll (ReplaceAll s (String CR (str1 LF)) (str1 LF)) (str1 CR) (str1 LF).

(** An ASCII letter: the bytes lower-casing maps or reaches. *)
Definition isLetter (c : ascii) : bool :=
  inRange 65 90 (byte c) || inRange 97 122 (byte c).

(** *** Text with ideographs *)

(** The UTF-8 encoding of a CJK unified ideograph U+4E00..U+9FFF:
    E4 B8 80 .. E9 BF BF. *)
Definition isCJK3 (c0 c1 c2 : ascii) : bool :=
  inRange 228 233 (byte c0) && isCont c1 && isCont c2
  && ((228 <? byte c0)%Z || (184 <=? byte c1)%Z).

(** A text made of ASCII characters and CJK unified ideographs. *)
Fixpoint plain (s : string) : bool :=
  match s with
  | EmptyString => true
  | String c0 s1 =>
      if isASCIIByte c0 then plain s1
      else match s1 with
           | String c1 (String c2 s3) => isCJK3 c0 c1 c2 && plain s3
           | _ => false
           end
  end.

(** What is known of the library functions on such texts: the ideographs
    have no case and no compatibility decomposition and are no white
    space, so the functions act on the ASCII bytes alone. *)
Definition GoLib_plain (lib : GoLib) : Prop :=
  (forall s, plain s = true -> norm_NFKC lib s = s)
  /\ (forall s, plain s = true -> strings_ToLower lib s = asciiToLower s)
  /\ (forall s, plain s = true -> strings_TrimSpace lib s = asciiTrimSpace s).

(* ================================================================== *)
(** * Properties *)

(** ** Basic facts about strings *)

Lemma append_nil_r (s : string) : s ++ "" = s.
Proof. induction s; simpl; congruence. Qed.

Lemma append_assoc (a b c : string) : (a ++ b) ++ c = a ++ (b ++ c).
Proof. induction a; simpl; congruence. Qed.

Lemma length_append (a b : string) :
  String.length (a ++ b) = String.length a + String.length b.
Proof. induction a; simpl; auto. Qed.

Lemma take_length (n : nat) (s : string) :
  String.length (take n s) = Nat.min n (String.length s).
Proof.
  revert s; induction n as [|n IH]; intros [|c s]; simpl; auto.
Qed.

Lemma drop_length (n : nat) (s : string) :
  String.length (drop n s) = String.length s - n.
Proof.
  revert s; induction n as [|n IH]; intros [|c s]; simpl; auto.
Qed.

Lemma take_drop (n : nat) (s : string) : take n s ++ drop n s = s.
Proof.
  revert s; induction n as [|n IH]; intros [|c s]; simpl; auto.
  now rewrite IH.
Qed.

Lemma take_all (n : nat) (s : string) : String.length s <= n -> take n s = s.
Proof.
  revert s; induction n as [|n IH]; intros [|c s]; simpl; intros H; auto; try lia.
  rewrite IH; auto; lia.
Qed.

Lemma drop_drop (a b : nat) (s : string) : drop b (drop a s) = drop (a + b) s.
Proof.
  revert s; induction a as [|a IH]; intros s; simpl; auto.
  destruct s; simpl; auto. now destruct b.
Qed.

Lemma truncate_length (n : nat) (s : string) : String.length (truncate n s) <= n.
Proof.
  unfold truncate. destruct (Nat.ltb_spec n (String.length s)).
  - rewrite take_length. lia.
  - assumption.
Qed.

(* ------------------------------------------------------------------ *)
(** ** The type inferrer *)

Lemma InferType_isID_forallb (rs : list rune) :
  InferType_isID rs true = forallb isIDRune rs.
Proof.
  induction rs as [|r rs IH]; simpl; auto.
  destruct (isIDRune r); simpl; auto.
Qed.

Lemma InferType_hasChinese_existsb (rs : list rune) :
  InferType_hasChinese rs false = existsb isCJKRune rs.
Proof.
  induction rs as [|r rs IH]; simpl; auto.
  destruct (isCJKRune r); simpl; auto.
Qed.

Lemma InferType_hasNamePattern_existsb (value : string) (ps : list string) :
  InferType_hasNamePattern value ps false = existsb (Contains value) ps.
Proof.
  induction ps as [|p ps IH]; simpl; auto.
  destruct (Contains value p); simpl; auto.
Qed.

(** C5.  [InferType] follows the decision list of the specification, first
    match wins: empty -> Generic; at most 100 bytes, all in [A-Za-z0-9_-]
    -> ID; more than 500 bytes or a line feed or a carriage return ->
    Description; a CJK ideograph or a naming substring -> Name; otherwise
    Generic.  The two examples of the specification are instances. *)
Theorem InferType_decision_order :
  (forall value, InferType value = inferType_spec value)
  /\ InferType "project_123_abc" = ParamTypeID
  /\ InferType "北京朝阳区项目" = ParamTypeName.
Proof.
  split; [|split; reflexivity].
  intros value. unfold InferType, inferType_spec.
  destruct value as [|c value]; [reflexivity|].
  cbn [String.length Nat.eqb String.eqb].
  rewrite InferType_isID_forallb, InferType_hasChinese_existsb.
  destruct (_ && _); [reflexivity|].
  destruct (_ || _ || _); [reflexivity|].
  destruct (existsb isCJKRune _); cbn [negb orb]; [reflexivity|].
  rewrite InferType_hasNamePattern_existsb. reflexivity.
Qed.

(* ------------------------------------------------------------------ *)
(** ** The escaper *)

Lemma ReplaceAll_byte (s : string) (a : ascii) (new : string) :
  ReplaceAll s (str1 a) new = substByte a new s.
Proof.
  unfold ReplaceAll. induction s as [|c s IH]; simpl; auto.
  rewrite (Ascii.eqb_sym a c).
  destruct (Ascii.eqb c a); simpl; now rewrite IH.
Qed.

Lemma substByte_app (a : ascii) (new x y : string) :
  substByte a new (x ++ y) = substByte a new x ++ substByte a new y.
Proof.
  induction x as [|c x IH]; simpl; auto.
  now rewrite IH, append_assoc.
Qed.

Lemma escapeInOrder_app (x y : string) :
  escapeInOrder (x ++ y) = escapeInOrder x ++ escapeInOrder y.
Proof. unfold escapeInOrder. now rewrite !substByte_app. Qed.

Lemma escapeInOrder_byte (c : ascii) : escapeInOrder (str1 c) = escapeByte c.
Proof.
  destruct c as [[] [] [] [] [] [] [] []]; reflexivity.
Qed.

Lemma escapeInOrder_all (s : string) : escapeInOrder s = escapeAll s.
Proof.
  induction s as [|c s IH]; [reflexivity|].
  change (String c s) with (str1 c ++ s).
  rewrite escapeInOrder_app, escapeInOrder_byte, IH. reflexivity.
Qed.

(** C4.  [quoteString] applies the eight substitutions in the order
    backslash, single quote, double quote, line feed, carriage return, tab,
    NUL, 0x1A and wraps the result in single quotes; because the backslash
    comes first, the result is the one obtained by escaping every byte of
    the input once ([escapeAll]): no later step touches what an earlier one
    wrote, so one application is enough.  The example of the specification
    is an instance. *)
Theorem quoteString_order_and_single_pass :
  (forall s, quoteString s = str1 SQUOTE ++ escapeInOrder s ++ str1 SQUOTE)
  /\ (forall s, quoteString s = str1 SQUOTE ++ escapeAll s ++ str1 SQUOTE)
  /\ quoteString "hello's world" = "'hello''s world'".
Proof.
  assert (H : forall s, quoteString s = str1 SQUOTE ++ escapeInOrder s ++ str1 SQUOTE).
  { intros s. unfold quoteString, escapeInOrder.
    now rewrite !ReplaceAll_byte. }
  split; [exact H|]. split; [|reflexivity].
  intros s. now rewrite H, escapeInOrder_all.
Qed.

(* ------------------------------------------------------------------ *)
(** ** Bytes and runes *)

Lemma byte_chr (r : Z) : (0 <= r < 256)%Z -> byte (chr r) = r.
Proof.
  intros H. unfold byte, chr.
  rewrite N_ascii_embedding by lia. lia.
Qed.

Lemma isIDRune_range (r : rune) : isIDRune r = true -> (45 <= r <= 122)%Z.
Proof.
  unfold isIDRune, inRange. intros H.
  repeat (apply orb_true_iff in H; destruct H as [H|H]);
    try (apply andb_true_iff in H; destruct H as [H1 H2]);
    lia.
Qed.

Lemma allBytes_app (P : ascii -> bool) (a b : string) :
  allBytes P (a ++ b) = allBytes P a && allBytes P b.
Proof.
  induction a as [|c a IH]; simpl; auto.
  now rewrite IH, andb_assoc.
Qed.

Lemma allBytes_take (P : ascii -> bool) (n : nat) (s : string) :
  allBytes P s = true -> allBytes P (take n s) = true.
Proof.
  revert s; induction n as [|n IH]; intros [|c s]; simpl; auto.
  intros H. apply andb_true_iff in H as [H1 H2].
  now rewrite H1, IH.
Qed.

Lemma allBytes_truncate (P : ascii -> bool) (n : nat) (s : string) :
  allBytes P s = true -> allBytes P (truncate n s) = true.
Proof.
  unfold truncate. destruct (n <? String.length s); auto using allBytes_take.
Qed.

(* ------------------------------------------------------------------ *)
(** ** The ID validator *)

Lemma encodeRune_ID (r : rune) : isIDRune r = true -> encodeRune r = str1 (chr r).
Proof.
  intros H. apply isIDRune_range in H. unfold encodeRune, inRange.
  destruct (Z.leb_spec 0 r), (Z.leb_spec r 127); simpl; auto; lia.
Qed.

Lemma IDValidator_loop_idClean (rs : list rune) (acc : string) :
  IDValidator_loop rs acc = acc ++ idClean rs.
Proof.
  revert acc; induction rs as [|r rs IH]; intros acc; simpl.
  - now rewrite append_nil_r.
  - unfold idCleanRune. destruct (isIDRune r) eqn:E; rewrite IH, append_assoc.
    + now rewrite encodeRune_ID.
    + reflexivity.
Qed.

Lemma idClean_allowed (rs : list rune) : allBytes isIDByte (idClean rs) = true.
Proof.
  induction rs as [|r rs IH]; simpl; auto.
  rewrite allBytes_app, IH, andb_true_r.
  unfold idCleanRune. destruct (isIDRune r) eqn:E; [|reflexivity].
  simpl. unfold isIDByte. rewrite byte_chr, E; auto.
  apply isIDRune_range in E. lia.
Qed.

(** C6.  Through the registry, the ID validator returns for every input:
    the NFKC-normalised text with every rune of [A-Za-z0-9_-] kept and every
    other rune replaced by [_], cut to 100 bytes; so its output has only
    bytes of [A-Za-z0-9_-] and at most 100 of them. *)
Theorem IDValidator_allow_list (lib : GoLib) (it : MapIter) (s : string) :
  exists out,
    ProcessString (globalProcessor lib) it s ParamTypeID = Done out
    /\ out = truncate 100 (idClean (runes (norm_NFKC lib s)))
    /\ allBytes isIDByte out = true
    /\ String.length out <= 100.
Proof.
  eexists. split; [|split; [reflexivity|split]].
  - cbn. unfold IDValidator_Validate.
    now rewrite IDValidator_loop_idClean.
  - apply allBytes_truncate, idClean_allowed.
  - apply truncate_length.
Qed.

(* ------------------------------------------------------------------ *)
(** ** The blocklist loop *)

Lemma bind_Done {A B : Type} (c : run A) (k : A -> run B) (b : B) :
  bind c k = Done b -> exists a, c = Done a /\ k a = Done b.
Proof. destruct c; simpl; intros H; try discriminate. eauto. Qed.

(** The [lower] variable of the loop is always [ToLower result]. *)
Lemma rangePatterns_visitAll (lib : GoLib) (order : PatternMap) (result : string) :
  rangePatterns lib order (strings_ToLower lib result) result
  = visitAll lib order result.
Proof.
  revert result; induction order as [|[pattern replacement] rest IH];
    intros result; simpl; auto.
  unfold visit; simpl.
  destruct (Contains _ pattern).
  - destruct (replaceCaseInsensitive lib result pattern replacement); simpl; auto.
  - simpl. apply IH.
Qed.

Lemma ProcessString_validateAs (lib : GoLib) (it : MapIter) (s : string) (t : ParamType) :
  ProcessString (globalProcessor lib) it s t = validateAs lib t it s.
Proof. destruct t; reflexivity. Qed.

Lemma validateAs_cap (lib : GoLib) (it : MapIter) (t : ParamType) (s out : string) (n : nat) :
  n = match t with
      | ParamTypeID => 100 | ParamTypeName => 500
      | ParamTypeGeneric => 2000 | ParamTypeDescription => 10000
      end ->
  validateAs lib t it s = Done out -> String.length out <= n.
Proof.
  intros -> H. destruct t; simpl in H;
    unfold GenericValidator_Validate, IDValidator_Validate,
      NameValidator_Validate, DescriptionValidator_Validate in H;
    try (apply bind_Done in H as (r & _ & H));
    injection H as <-; apply truncate_length.
Qed.

(* ------------------------------------------------------------------ *)
(** ** literal on strings and byte slices *)

(** A byte slice takes the path of the string made of its bytes: when
    the two calls of [literal] range over the maps in the same order they
    are the same computation (type inference, validator, escaper), and
    whatever it returns is a single-quoted literal with a nil error. *)
Theorem literal_bytes_as_string (lib : GoLib) (it : MapIter) (b : string) :
  literal lib it (VBytes b) = literal lib it (VString b)
  /\ literal lib it (VBytes b)
     = (sanitized <- validateAs lib (InferType b) it b ;;
        Done (quoteString sanitized, None))
  /\ (forall r, literal lib it (VBytes b) = Done r ->
        snd r = None /\ singleQuoted (fst r)).
Proof.
  split; [reflexivity|]. split.
  - simpl. now rewrite ProcessString_validateAs.
  - intros r H. simpl in H. apply bind_Done in H as (v & _ & H).
    injection H as <-. split; [reflexivity|].
    unfold quoteString. eexists. reflexivity.
Qed.

(* ------------------------------------------------------------------ *)
(** ** replaceCaseInsensitive against the scan of the specification *)

Lemma slice_ok (s : string) (lo hi : nat) :
  lo <= hi -> hi <= String.length s ->
  slice s lo hi = Done (take (hi - lo) (drop lo s)).
Proof.
  intros H1 H2. unfold slice.
  destruct (Nat.leb_spec lo hi); [|lia].
  destruct (Nat.leb_spec hi (String.length s)); [reflexivity|lia].
Qed.

Lemma sliceFrom_ok (s : string) (lo : nat) :
  lo <= String.length s -> sliceFrom s lo = Done (drop lo s).
Proof.
  intros H. unfold sliceFrom. rewrite slice_ok by lia.
  rewrite take_all; auto. rewrite drop_length. lia.
Qed.

Lemma sliceFrom_panics (s : string) (lo : nat) :
  String.length s < lo -> sliceFrom s lo = Panic.
Proof.
  intros H. unfold sliceFrom, slice.
  destruct (Nat.leb_spec lo (String.length s)); [lia|reflexivity].
Qed.

Lemma HasPrefix_length (s p : string) :
  HasPrefix s p = true -> String.length p <= String.length s.
Proof.
  revert s; induction p as [|a p IH]; intros [|b s]; simpl; intros H;
    try lia; try discriminate.
  apply andb_true_iff in H as [_ H]. apply IH in H. lia.
Qed.

Lemma Index_unfold (s sub : string) :
  Index s sub =
  if HasPrefix s sub then Some 0
  else match s with
       | EmptyString => None
       | String _ s' => option_map S (Index s' sub)
       end.
Proof. destruct s; reflexivity. Qed.

Lemma Index_bound (s sub : string) (i : nat) :
  Index s sub = Some i -> i + String.length sub <= String.length s.
Proof.
  revert i; induction s as [|c s IH]; intros i; rewrite Index_unfold;
    destruct (HasPrefix _ sub) eqn:E; intros H; try discriminate.
  - injection H as <-. now apply HasPrefix_length in E.
  - injection H as <-. now apply HasPrefix_length in E.
  - destruct (Index s sub) as [j|]; simpl in H; [|discriminate].
    injection H as <-. specialize (IH j eq_refl). simpl. lia.
Qed.

Lemma scanReplace_skip (k : nat) (sLower s pat new : string) :
  scanReplace k sLower s pat new
  = scanReplace 0 (drop k sLower) (drop k s) pat new.
Proof.
  revert k sLower; induction s as [|c s IH]; intros k sLower.
  - destruct k; reflexivity.
  - destruct k as [|k]; [reflexivity|].
    change (scanReplace (S k) sLower (String c s) pat new)
      with (scanReplace k (drop 1 sLower) s pat new).
    rewrite IH, drop_drop. reflexivity.
Qed.

Lemma scanReplace_no_match (sLower s pat new : string) :
  String.length sLower = String.length s ->
  Index sLower pat = None ->
  scanReplace 0 sLower s pat new = s.
Proof.
  revert sLower; induction s as [|c s IH]; intros sLower HL HI; [reflexivity|].
  destruct sLower as [|d sLower]; [discriminate|].
  rewrite Index_unfold in HI. simpl.
  destruct (HasPrefix (String d sLower) pat); [discriminate|].
  destruct (Index sLower pat) eqn:E; [discriminate|].
  rewrite IH; auto.
Qed.

Lemma scanReplace_match (i : nat) (sLower s pat new : string) :
  String.length sLower = String.length s ->
  1 <= String.length pat ->
  Index sLower pat = Some i ->
  scanReplace 0 sLower s pat new
  = take i s ++ new
    ++ scanReplace 0 (drop (i + String.length pat) sLower)
         (drop (i + String.length pat) s) pat new.
Proof.
  revert sLower s; induction i as [|i IH]; intros sLower s HL HP HI.
  - rewrite Index_unfold in HI.
    destruct (HasPrefix sLower pat) eqn:E.
    + pose proof (HasPrefix_length _ _ E) as HB.
      destruct s as [|c s]; [simpl in *; lia|].
      destruct sLower as [|d sLower]; [discriminate|].
      cbn [scanReplace take]. rewrite E, scanReplace_skip.
      cbn [append]. f_equal. rewrite !drop_drop.
      replace (1 + (String.length pat - 1)) with (0 + String.length pat) by lia.
      destruct (String.length pat) as [|n]; [lia|].
      replace (S n - 1) with n by lia. reflexivity.
    + destruct sLower as [|d sLower]; [discriminate|].
      destruct (Index sLower pat); discriminate.
  - rewrite Index_unfold in HI.
    destruct (HasPrefix sLower pat) eqn:E; [discriminate|].
    destruct sLower as [|d sLower]; [discriminate|].
    destruct (Index sLower pat) as [j|] eqn:EI; [|discriminate].
    injection HI as ->.
    destruct s as [|c s]; [discriminate|].
    cbn [scanReplace]. rewrite E. cbn [drop take append Nat.add].
    f_equal. apply IH; auto.
Qed.

Lemma replaceLoop_scanReplace (lib : GoLib) (fuel : nat)
  (s sLower pat new : string) (lastEnd : nat) (acc : string) :
  String.length sLower = String.length s ->
  1 <= String.length pat ->
  lastEnd <= String.length s ->
  String.length s - lastEnd < fuel ->
  replaceLoop fuel s sLower pat new (String.length pat) lastEnd acc
  = Done (acc ++ scanReplace 0 (drop lastEnd sLower) (drop lastEnd s) pat new).
Proof.
  intros HL HP. revert lastEnd acc.
  induction fuel as [|fuel IH]; intros lastEnd acc HE HF; [lia|].
  cbn [replaceLoop]. rewrite sliceFrom_ok by lia. cbn [bind].
  destruct (Index (drop lastEnd sLower) pat) as [index|] eqn:EI.
  - pose proof (Index_bound _ _ _ EI) as HB. rewrite drop_length in HB.
    rewrite slice_ok by lia. cbn [bind].
    rewrite IH by lia.
    rewrite (scanReplace_match index (drop lastEnd sLower) (drop lastEnd s))
      by (rewrite ?drop_length; auto; lia).
    rewrite !drop_drop, !append_assoc.
    replace (lastEnd + index - lastEnd) with index by lia.
    now rewrite Nat.add_assoc.
  - rewrite sliceFrom_ok by lia. cbn [bind].
    rewrite scanReplace_no_match; auto. rewrite !drop_length; lia.
Qed.

(** Where lower-casing keeps the byte length of the text and of the
    pattern, and the pattern is not empty, [replaceCaseInsensitive] returns
    and its result is the scan of the two texts side by side.  The
    positions at which the scan cuts the text are those of the occurrences
    in the text only where lower-casing maps it byte for byte. *)
Lemma replaceCaseInsensitive_aligned (lib : GoLib) (s old new : string) :
  String.length (strings_ToLower lib s) = String.length s ->
  String.length (strings_ToLower lib old) = String.length old ->
  1 <= String.length old ->
  replaceCaseInsensitive lib s old new
  = Done (scanReplace 0 (strings_ToLower lib s) s (strings_ToLower lib old) new).
Proof.
  intros HS HO HP. unfold replaceCaseInsensitive.
  rewrite <- HO.
  rewrite replaceLoop_scanReplace; auto; lia.
Qed.

(* ------------------------------------------------------------------ *)
(** ** Running the loop in every order of the map *)

Lemma asciiLib_ascii : GoLib_ascii asciiLib.
Proof. repeat split; reflexivity. Qed.

(** On ASCII text a turn of the loop only consults the library on ASCII
    strings, where it is known. *)
Lemma visit_ascii (lib : GoLib) (p : string * string) (s : string) :
  GoLib_ascii lib -> isASCII s = true -> isASCII (fst p) = true ->
  visit lib p s = visit asciiLib p s.
Proof.
  intros (_ & HL & _) Hs Hp.
  unfold visit, replaceCaseInsensitive. cbn [strings_ToLower asciiLib].
  now rewrite (HL s Hs), (HL (fst p) Hp).
Qed.

Lemma existsb_Permutation {A : Type} (f : A -> bool) (l l' : list A) :
  Permutation l l' -> existsb f l = existsb f l'.
Proof.
  induction 1; simpl; auto.
  - now rewrite IHPermutation.
  - destruct (f x), (f y); reflexivity.
  - congruence.
Qed.

(** A text that only moves inside a family [st b1 b2] of four texts, each
    pattern switching on the flags [f1 p] and [f2 p]: after the loop the
    flags are those of the patterns visited, in whatever order. *)
Lemma visitAll_flags (lib : GoLib) (table : PatternMap)
  (f1 f2 : string * string -> bool) (st : bool -> bool -> string) :
  (forall p, In p table -> forall b1 b2,
      visit lib p (st b1 b2) = Done (st (b1 || f1 p) (b2 || f2 p))) ->
  forall order, incl order table -> forall b1 b2,
    visitAll lib order (st b1 b2)
    = Done (st (b1 || existsb f1 order) (b2 || existsb f2 order)).
Proof.
  intros H order. induction order as [|p order IH]; intros Hin b1 b2; simpl.
  - now rewrite !orb_false_r.
  - rewrite H by (apply Hin; now left). simpl.
    rewrite IH by (intros q Hq; apply Hin; now right).
    now rewrite !orb_assoc.
Qed.

Lemma visitAll_flags_perm (lib : GoLib) (table : PatternMap)
  (f1 f2 : string * string -> bool) (st : bool -> bool -> string)
  (order : PatternMap) :
  Permutation order table ->
  Forall (fun p => forall b1 b2,
            visit lib p (st b1 b2) = Done (st (b1 || f1 p) (b2 || f2 p))) table ->
  visitAll lib order (st false false)
  = Done (st (existsb f1 table) (existsb f2 table)).
Proof.
  intros HP HF.
  rewrite (visitAll_flags lib table f1 f2 st).
  - now rewrite !(existsb_Permutation _ _ _ HP).
  - intros p Hp. rewrite Forall_forall in HF. now apply HF.
  - intros p Hp. eapply Permutation_in; eauto.
Qed.

(* ------------------------------------------------------------------ *)
(** ** literal on a string *)

Lemma sourceOrder_ok : MapIter_ok sourceOrder.
Proof. intros m. apply Permutation_refl. Qed.

Lemma GetValidator_matching (lib : GoLib) (t : ParamType) :
  exists validator,
    GetValidator (globalProcessor lib) t = Some validator
    /\ GetType validator = t
    /\ Validate validator = validateAs lib t.
Proof. destruct t; eexists; repeat split. Qed.

Ltac visit_by_computation H :=
  intros [] []; (rewrite visit_ascii by (exact H || reflexivity)); reflexivity.

Lemma Generic_dropTable_turns (lib : GoLib) :
  GoLib_ascii lib ->
  Forall (fun p => forall b1 b2,
            visit lib p (dropTableText b1 b2)
            = Done (dropTableText (b1 || isDropTable p) (b2 || isDashDash p)))
    GenericValidator_dangerousPatterns.
Proof.
  intros H. unfold GenericValidator_dangerousPatterns.
  repeat (apply Forall_cons; [visit_by_computation H|]).
  apply Forall_nil.
Qed.

Lemma GenericValidator_dropTable (lib : GoLib) (it : MapIter) :
  GoLib_ascii lib -> MapIter_ok it ->
  GenericValidator_Validate lib it "'; DROP TABLE users;--"
  = Done "'; drop_table users;__".
Proof.
  intros H Hit. pose proof H as (HN & HL & HT).
  unfold GenericValidator_Validate.
  rewrite (HN _) by reflexivity.
  rewrite (HT _) by reflexivity.
  rewrite rangePatterns_visitAll.
  change (asciiTrimSpace _) with (dropTableText false false).
  rewrite (visitAll_flags_perm lib GenericValidator_dangerousPatterns
             isDropTable isDashDash dropTableText);
    auto using Generic_dropTable_turns.
Qed.

(* ------------------------------------------------------------------ *)
(** ** Expand *)

Lemma IndexByte_None (s : string) (c : ascii) :
  IndexByte s c = None -> forall lits,
  placeholders s = (if Ascii.eqb c "?"%char then 0 else placeholders s)
  /\ (Ascii.eqb c "?"%char = true -> fill s lits = s).
Proof.
  induction s as [|b s IH]; simpl; intros H lits.
  - destruct (Ascii.eqb c "?"); auto.
  - destruct (Ascii.eqb b c) eqn:E; [discriminate|].
    destruct (IndexByte s c); [discriminate|].
    destruct (IH eq_refl lits) as [IH1 IH2].
    destruct (Ascii.eqb c "?") eqn:Ec; [|split; [reflexivity|discriminate]].
    apply Ascii.eqb_eq in Ec; subst c. rewrite E.
    split; auto. intros _. now rewrite IH2.
Qed.

Lemma IndexByte_Some (s : string) (pos : nat) :
  IndexByte s "?"%char = Some pos ->
  pos < String.length s
  /\ placeholders s = S (placeholders (drop (pos + 1) s))
  /\ (forall lit lits,
        fill s (lit :: lits) = take pos s ++ lit ++ fill (drop (pos + 1) s) lits).
Proof.
  revert pos; induction s as [|b s IH]; simpl; intros pos H; [discriminate|].
  destruct (Ascii.eqb b "?") eqn:E.
  - injection H as <-. simpl. repeat split; auto; lia.
  - destruct (IndexByte s "?") as [q|]; [|discriminate].
    injection H as <-. destruct (IH q eq_refl) as (H1 & H2 & H3).
    simpl. repeat split; auto; try lia.
    intros lit lits. now rewrite H3.
Qed.

Lemma nth_error_middle {A : Type} (pre : list A) (v : A) (vs : list A) :
  nth_error (pre ++ v :: vs) (List.length pre) = Some v.
Proof. induction pre; simpl; auto. Qed.

Lemma sliceTo_ok (s : string) (hi : nat) :
  hi <= String.length s -> sliceTo s hi = Done (take hi s).
Proof.
  intros H. unfold sliceTo. rewrite slice_ok by lia.
  now rewrite Nat.sub_0_r.
Qed.

Section ExpandFacts.

Variable lib : GoLib.
Variable sched : nat -> MapIter.

Lemma ExpandLoop_fill (fuel : nat) :
  forall sql buf pre vs lits,
    placeholders sql = List.length vs ->
    encodes lib sched (List.length pre) vs lits ->
    String.length sql < fuel ->
    ExpandLoop lib fuel sched sql (pre ++ vs) (List.length pre) buf
    = Done (buf ++ fill sql lits, None).
Proof.
  induction fuel as [|fuel IH]; intros sql buf pre vs lits HC HE HF; [lia|].
  cbn [ExpandLoop].
  destruct (IndexByte sql "?") as [pos|] eqn:EI.
  - destruct (IndexByte_Some _ _ EI) as (Hpos & Hcount & Hfill).
    rewrite Hcount in HC.
    destruct vs as [|v vs]; [discriminate|].
    destruct lits as [|lit lits]; [contradiction|].
    destruct HE as [Hlit HE].
    rewrite length_app. cbn [List.length].
    destruct (Nat.leb_spec (List.length pre + S (List.length vs)) (List.length pre));
      [lia|].
    rewrite sliceTo_ok by lia. cbn [bind].
    rewrite nth_error_middle, Hlit. cbn [bind].
    rewrite sliceFrom_ok by lia. cbn [bind].
    replace (pre ++ v :: vs)%list with ((pre ++ [v]) ++ vs)%list
      by (now rewrite <- app_assoc).
    replace (S (List.length pre)) with (List.length (pre ++ [v])%list)
      by (rewrite length_app; simpl; lia).
    rewrite (IH _ _ _ _ lits).
    + now rewrite Hfill, !append_assoc.
    + simpl in HC. lia.
    + rewrite length_app. simpl.
      now replace (List.length pre + 1) with (S (List.length pre)) by lia.
    + rewrite drop_length. lia.
  - destruct (IndexByte_None _ _ EI lits) as [Hcount Hfill].
    simpl in Hcount. rewrite Hcount in HC.
    destruct vs; [|discriminate]. rewrite app_nil_r, Nat.eqb_refl. simpl.
    now rewrite Hfill.
Qed.

Lemma ExpandLoop_mismatch_no_text (fuel : nat) :
  forall sql buf pre vs r,
    placeholders sql <> List.length vs ->
    ExpandLoop lib fuel sched sql (pre ++ vs) (List.length pre) buf = Done r ->
    fst r = EmptyString /\ snd r <> None.
Proof.
  induction fuel as [|fuel IH]; intros sql buf pre vs r HC HR; [discriminate|].
  cbn [ExpandLoop] in HR.
  destruct (IndexByte sql "?") as [pos|] eqn:EI.
  - destruct (IndexByte_Some _ _ EI) as (Hpos & Hcount & _).
    destruct (List.length (pre ++ vs) <=? List.length pre) eqn:EL.
    { injection HR as <-. split; [reflexivity|discriminate]. }
    rewrite sliceTo_ok in HR by lia. cbn [bind] in HR.
    destruct vs as [|v vs].
    { rewrite app_nil_r in EL. rewrite Nat.leb_refl in EL. discriminate. }
    rewrite nth_error_middle in HR.
    apply bind_Done in HR as ([lit [err|]] & _ & HR).
    { injection HR as <-. split; [reflexivity|discriminate]. }
    rewrite sliceFrom_ok in HR by lia. cbn [bind] in HR.
    replace (pre ++ v :: vs)%list with ((pre ++ [v]) ++ vs)%list in HR
      by (now rewrite <- app_assoc).
    replace (S (List.length pre)) with (List.length (pre ++ [v])%list) in HR
      by (rewrite length_app; simpl; lia).
    apply IH in HR; auto. simpl in HC. lia.
  - destruct (IndexByte_None _ _ EI []) as [Hcount _].
    simpl in Hcount. rewrite Hcount in HC.
    destruct (Nat.eqb_spec (List.length pre) (List.length (pre ++ vs))) as [E|E].
    { rewrite length_app in E. destruct vs; simpl in *; [congruence|lia]. }
    simpl in HR. injection HR as <-. split; [reflexivity|discriminate].
Qed.

Lemma ExpandLoop_mismatch_error (fuel : nat) :
  forall sql buf pre vs lits,
    placeholders sql <> List.length vs ->
    encodes lib sched (List.length pre) (firstn (placeholders sql) vs) lits ->
    String.length sql < fuel ->
    ExpandLoop lib fuel sched sql (pre ++ vs) (List.length pre) buf
    = Done (EmptyString,
            Some (if List.length vs <? placeholders sql
                  then errMorePlaceholders else errMoreValues)).
Proof.
  induction fuel as [|fuel IH]; intros sql buf pre vs lits HC HE HF; [lia|].
  cbn [ExpandLoop].
  destruct (IndexByte sql "?") as [pos|] eqn:EI.
  - destruct (IndexByte_Some _ _ EI) as (Hpos & Hcount & _).
    rewrite Hcount in *.
    destruct vs as [|v vs].
    { rewrite app_nil_r, Nat.leb_refl. reflexivity. }
    rewrite length_app. cbn [List.length].
    destruct (Nat.leb_spec (List.length pre + S (List.length vs)) (List.length pre));
      [lia|].
    rewrite sliceTo_ok by lia. cbn [bind].
    cbn [firstn] in HE.
    destruct lits as [|lit lits]; [contradiction|].
    destruct HE as [Hlit HE].
    rewrite nth_error_middle, Hlit. cbn [bind].
    rewrite sliceFrom_ok by lia. cbn [bind].
    replace (pre ++ v :: vs)%list with ((pre ++ [v]) ++ vs)%list
      by (now rewrite <- app_assoc).
    replace (S (List.length pre)) with (List.length (pre ++ [v])%list)
      by (rewrite length_app; simpl; lia).
    rewrite (IH _ _ _ _ lits).
    + reflexivity.
    + simpl in HC. lia.
    + rewrite length_app. simpl.
      now replace (List.length pre + 1) with (S (List.length pre)) by lia.
    + rewrite drop_length. lia.
  - destruct (IndexByte_None _ _ EI []) as [Hcount _].
    simpl in Hcount. rewrite Hcount in *.
    destruct (Nat.eqb_spec (List.length pre) (List.length (pre ++ vs))) as [E|E].
    { rewrite length_app in E. destruct vs; simpl in *; [congruence|lia]. }
    reflexivity.
Qed.

End ExpandFacts.

(** C1 (amended).  For a template with exactly as many placeholders as
    there are values, each of which [literal] encodes without error,
    [Expand] succeeds; its result is the template with every placeholder
    replaced, from left to right, by the encoding of the value at the same
    position, every other byte kept. *)
Theorem Expand_fills_placeholders (lib : GoLib) (sched : nat -> MapIter)
  (sql : string) (vars : list Value) (lits : list string) :
  placeholders sql = List.length vars ->
  encodes lib sched 0 vars lits ->
  Expand lib sched sql vars = Done (fill sql lits, None).
Proof.
  intros HC HE. unfold Expand.
  apply (ExpandLoop_fill lib sched _ sql EmptyString [] vars lits); auto. lia.
Qed.

Lemma Expand_fills_placeholders_witness :
  Expand asciiLib (fun _ => sourceOrder) "SELECT * FROM users WHERE id = ?" [VInt 123]
  = Done ("SELECT * FROM users WHERE id = 123", None).
Proof.
  exact (Expand_fills_placeholders asciiLib (fun _ => sourceOrder)
           "SELECT * FROM users WHERE id = ?" [VInt 123] ["123"]
           eq_refl (conj eq_refl I)).
Defined.

(** C1 as stated fails: one placeholder, one value, and [Expand] returns
    the encoder's error for a value of a type without an encoding. *)
Lemma Expand_matching_arity_can_fail :
  placeholders "SELECT ?" = List.length [VOther "struct {}"]
  /\ Expand asciiLib (fun _ => sourceOrder) "SELECT ?" [VOther "struct {}"]
     = Done (EmptyString, Some (errUnsupported "struct {}")).
Proof. split; reflexivity. Qed.

(** C2 (amended).  When the number of placeholders differs from the number
    of values, [Expand] never returns a text: whatever it returns is the
    empty string with a non-nil error.  When moreover every value that
    meets a placeholder is encoded without error, the error is the arity
    error: "more placeholders" as soon as a placeholder finds no value
    left, "more values" after the whole template was scanned. *)
Theorem Expand_arity_mismatch (lib : GoLib) (sched : nat -> MapIter)
  (sql : string) (vars : list Value) :
  placeholders sql <> List.length vars ->
  (forall r, Expand lib sched sql vars = Done r ->
             fst r = EmptyString /\ snd r <> None)
  /\ (forall lits,
        encodes lib sched 0 (firstn (placeholders sql) vars) lits ->
        Expand lib sched sql vars
        = Done (EmptyString,
                Some (if List.length vars <? placeholders sql
                      then errMorePlaceholders else errMoreValues))).
Proof.
  intros HC. unfold Expand. split.
  - intros r. apply (ExpandLoop_mismatch_no_text lib sched _ sql EmptyString [] vars r HC).
  - intros lits HE.
    apply (ExpandLoop_mismatch_error lib sched _ sql EmptyString [] vars lits); auto. lia.
Qed.

Lemma Expand_arity_mismatch_witness :
  Expand asciiLib (fun _ => sourceOrder)
    "SELECT * FROM users WHERE id = ? AND name = ?" [VInt 123]
  = Done (EmptyString, Some errMorePlaceholders)
  /\ Expand asciiLib (fun _ => sourceOrder)
       "SELECT * FROM users WHERE id = ?" [VInt 123; VString "extra"]
     = Done (EmptyString, Some errMoreValues).
Proof.
  split.
  - exact (proj2 (Expand_arity_mismatch asciiLib (fun _ => sourceOrder)
             "SELECT * FROM users WHERE id = ? AND name = ?" [VInt 123]
             ltac:(discriminate)) ["123"] (conj eq_refl I)).
  - exact (proj2 (Expand_arity_mismatch asciiLib (fun _ => sourceOrder)
             "SELECT * FROM users WHERE id = ?" [VInt 123; VString "extra"]
             ltac:(discriminate)) ["123"] (conj eq_refl I)).
Defined.

(** C2 as stated fails: the counts differ, yet the error returned is the
    encoder's, not an arity error. *)
Lemma Expand_mismatch_other_error :
  placeholders "? ?" <> List.length [VOther "struct {}"]
  /\ Expand asciiLib (fun _ => sourceOrder) "? ?" [VOther "struct {}"]
     = Done (EmptyString, Some (errUnsupported "struct {}"))
  /\ errUnsupported "struct {}" <> errMorePlaceholders
  /\ errUnsupported "struct {}" <> errMoreValues.
Proof. repeat split; try discriminate. Qed.

(* ------------------------------------------------------------------ *)
(** ** ASCII text stays ASCII, and the validators return on it *)

Lemma mapString_length (f : ascii -> ascii) (s : string) :
  String.length (mapString f s) = String.length s.
Proof. induction s; simpl; auto. Qed.

Lemma mapString_app (f : ascii -> ascii) (a b : string) :
  mapString f (a ++ b) = mapString f a ++ mapString f b.
Proof. induction a; simpl; congruence. Qed.

Lemma mapString_take (f : ascii -> ascii) (n : nat) (s : string) :
  mapString f (take n s) = take n (mapString f s).
Proof. revert s; induction n; intros [|c s]; simpl; congruence. Qed.

Lemma scanReplace_allBytes (P : ascii -> bool) (s new : string) :
  allBytes P s = true -> allBytes P new = true ->
  forall k sLower pat, allBytes P (scanReplace k sLower s pat new) = true.
Proof.
  intros Hs Hn. induction s as [|c s IH]; intros k sLower pat; [reflexivity|].
  simpl in Hs. apply andb_true_iff in Hs as [Hc Hs].
  cbn [scanReplace]. destruct k; auto.
  destruct (HasPrefix sLower pat).
  - rewrite allBytes_app, Hn. simpl. auto.
  - simpl. rewrite Hc. simpl. auto.
Qed.

Lemma replaceAllFrom_allBytes (P : ascii -> bool) (s old new : string) :
  allBytes P s = true -> allBytes P new = true ->
  forall k, allBytes P (replaceAllFrom k s old new) = true.
Proof.
  intros Hs Hn. induction s as [|c s IH]; intros k; [reflexivity|].
  simpl in Hs. apply andb_true_iff in Hs as [Hc Hs].
  cbn [replaceAllFrom]. destruct k; auto.
  destruct (HasPrefix (String c s) old).
  - rewrite allBytes_app, Hn. simpl. auto.
  - simpl. rewrite Hc. simpl. auto.
Qed.

Lemma ReplaceAll_ascii (s old new : string) :
  isASCII s = true -> isASCII new = true -> isASCII (ReplaceAll s old new) = true.
Proof. intros; now apply replaceAllFrom_allBytes. Qed.

Lemma collapseSpaces_ascii (s : string) (inRun : bool) :
  isASCII s = true -> isASCII (collapseSpaces inRun s) = true.
Proof.
  unfold isASCII. revert inRun; induction s as [|c s IH]; intros inRun H; [reflexivity|].
  simpl in H. apply andb_true_iff in H as [Hc Hs]. simpl.
  destruct (isRegexpSpace c); [destruct inRun|]; simpl; auto.
  now rewrite Hc, IH.
Qed.

Lemma trimLeft_ascii (s : string) : isASCII s = true -> isASCII (trimLeft s) = true.
Proof.
  unfold isASCII. induction s as [|c s IH]; intros H; [reflexivity|].
  simpl. destruct (isAsciiSpace c); auto.
  simpl in H. apply andb_true_iff in H as [_ H]. auto.
Qed.

Lemma trimRight_ascii (s : string) : isASCII s = true -> isASCII (trimRight s) = true.
Proof.
  unfold isASCII. induction s as [|c s IH]; intros H; [reflexivity|].
  simpl in H. apply andb_true_iff in H as [Hc Hs]. simpl.
  specialize (IH Hs). destruct (trimRight s).
  - destruct (isAsciiSpace c); simpl; auto. now rewrite Hc.
  - simpl in *. now rewrite Hc, IH.
Qed.

Lemma asciiTrimSpace_ascii (s : string) :
  isASCII s = true -> isASCII (asciiTrimSpace s) = true.
Proof. intros H. now apply trimRight_ascii, trimLeft_ascii. Qed.

(** The closed form of one turn of the loop on the ASCII library. *)
Lemma visit_asciiLib (p : string * string) (s : string) :
  1 <= String.length (fst p) ->
  visit asciiLib p s
  = Done (if Contains (asciiToLower s) (fst p)
          then scanReplace 0 (asciiToLower s) s (asciiToLower (fst p)) (snd p)
          else s).
Proof.
  intros H. unfold visit. cbn [strings_ToLower asciiLib].
  destruct (Contains _ _); [|reflexivity].
  apply replaceCaseInsensitive_aligned; auto; apply mapString_length.
Qed.

Lemma visit_ascii_returns (lib : GoLib) (p : string * string) (s : string) :
  GoLib_ascii lib -> asciiEntry p = true -> isASCII s = true ->
  exists s', visit lib p s = Done s' /\ isASCII s' = true.
Proof.
  intros H Hp Hs. unfold asciiEntry in Hp.
  apply andb_true_iff in Hp as [Hp Hlen]. apply andb_true_iff in Hp as [Hp Hr].
  apply Nat.leb_le in Hlen.
  rewrite visit_ascii, visit_asciiLib by assumption.
  eexists. split; [reflexivity|].
  destruct (Contains _ _); auto. now apply scanReplace_allBytes.
Qed.

Lemma visitAll_ascii_returns (lib : GoLib) (order : PatternMap) :
  GoLib_ascii lib -> forallb asciiEntry order = true ->
  forall s, isASCII s = true ->
  exists s', visitAll lib order s = Done s' /\ isASCII s' = true.
Proof.
  intros H. induction order as [|p order IH]; intros Ho s Hs; simpl.
  - eauto.
  - simpl in Ho. apply andb_true_iff in Ho as [Hp Ho].
    destruct (visit_ascii_returns lib p s H Hp Hs) as (s1 & -> & Hs1).
    simpl. auto.
Qed.

Lemma forallb_Permutation {A : Type} (f : A -> bool) (l l' : list A) :
  Permutation l l' -> forallb f l = forallb f l'.
Proof.
  induction 1; simpl; auto.
  - now rewrite IHPermutation.
  - destruct (f x), (f y); reflexivity.
  - congruence.
Qed.

Lemma allBytes_impl (P Q : ascii -> bool) (s : string) :
  (forall c, P c = true -> Q c = true) ->
  allBytes P s = true -> allBytes Q s = true.
Proof.
  intros HPQ. induction s as [|c s IH]; simpl; auto.
  intros H. apply andb_true_iff in H as [H1 H2].
  now rewrite (HPQ c H1), IH.
Qed.

Lemma validateAs_ascii_returns (lib : GoLib) (it : MapIter) (t : ParamType) (s : string) :
  GoLib_ascii lib -> MapIter_ok it -> isASCII s = true ->
  exists out, validateAs lib t it s = Done out
              /\ isASCII out = true /\ String.length out <= lengthCap t.
Proof.
  intros H Hit Hs. pose proof H as (HN & HL & HT).
  assert (HV : forall table r, forallb asciiEntry table = true ->
            isASCII r = true -> forall n,
            exists out,
              (result <- rangePatterns lib (it table) (strings_ToLower lib r) r ;;
               Done (truncate n result)) = Done out
              /\ isASCII out = true /\ String.length out <= n).
  { intros table r Ht Hr n. rewrite rangePatterns_visitAll.
    destruct (visitAll_ascii_returns lib (it table) H) with (s := r)
      as (r' & -> & Hr'); auto.
    - now rewrite (forallb_Permutation _ _ _ (Hit table)).
    - simpl. eexists. split; [reflexivity|]. split.
      + now apply allBytes_truncate.
      + apply truncate_length. }
  destruct t; cbn [validateAs lengthCap].
  - unfold GenericValidator_Validate. rewrite (HN s Hs).
    rewrite HT by (apply collapseSpaces_ascii; repeat apply ReplaceAll_ascii; auto).
    apply HV; [reflexivity|].
    apply asciiTrimSpace_ascii, collapseSpaces_ascii; repeat apply ReplaceAll_ascii; auto.
  - unfold IDValidator_Validate. eexists. split; [reflexivity|]. split.
    + apply allBytes_truncate. rewrite IDValidator_loop_idClean. simpl.
      eapply allBytes_impl; [|apply idClean_allowed].
      intros c Hc. apply isIDRune_range in Hc. apply Z.ltb_lt. lia.
    + apply truncate_length.
  - unfold NameValidator_Validate. rewrite (HN s Hs).
    rewrite HT by (apply collapseSpaces_ascii; repeat apply ReplaceAll_ascii; auto).
    apply HV; [reflexivity|].
    apply asciiTrimSpace_ascii, collapseSpaces_ascii; repeat apply ReplaceAll_ascii; auto.
  - unfold DescriptionValidator_Validate. rewrite (HN s Hs).
    apply HV; [reflexivity|]. repeat apply ReplaceAll_ascii; auto.
Qed.

(* ------------------------------------------------------------------ *)
(** ** The literal of a string *)

(** For every string, [literal] infers the type, fetches the validator
    registered for that type, validates, and escapes with [quoteString]:
    whatever it returns is a single-quoted literal with a nil error.  With
    the library behaving on ASCII text as documented, it returns on every
    ASCII string and, in whatever order the blocklist map is ranged over,
    the example of the specification holds. *)
Theorem literal_string_pipeline (lib : GoLib) (it : MapIter) :
  GoLib_ascii lib -> MapIter_ok it ->
  (forall t, exists validator,
      GetValidator (globalProcessor lib) t = Some validator
      /\ GetType validator = t /\ Validate validator = validateAs lib t)
  /\ (forall s, literal lib it (VString s)
                = (sanitized <- validateAs lib (InferType s) it s ;;
                   Done (quoteString sanitized, None)))
  /\ (forall s r, literal lib it (VString s) = Done r ->
                  snd r = None /\ singleQuoted (fst r))
  /\ (forall s, isASCII s = true ->
        exists q, literal lib it (VString s) = Done (q, None) /\ singleQuoted q)
  /\ literal lib it (VString "'; DROP TABLE users;--")
     = Done ("'''; drop_table users;__'", None).
Proof.
  intros H Hit. split; [apply GetValidator_matching|].
  assert (E : forall s, literal lib it (VString s)
                = (sanitized <- validateAs lib (InferType s) it s ;;
                   Done (quoteString sanitized, None))).
  { intros s. simpl. now rewrite ProcessString_validateAs. }
  split; [exact E|]. split; [|split].
  - intros s r Hr. rewrite E in Hr. apply bind_Done in Hr as (v & _ & Hr).
    injection Hr as <-. split; [reflexivity|].
    unfold quoteString. eexists. reflexivity.
  - intros s Hs. rewrite E.
    destruct (validateAs_ascii_returns lib it (InferType s) s H Hit Hs)
      as (out & -> & _).
    cbn [bind]. eexists. split; [reflexivity|].
    unfold quoteString. eexists. reflexivity.
  - rewrite E.
    change (InferType "'; DROP TABLE users;--") with ParamTypeGeneric.
    cbn [validateAs]. rewrite GenericValidator_dropTable by assumption.
    reflexivity.
Qed.

Lemma literal_string_pipeline_witness :
  literal asciiLib sourceOrder (VString "'; DROP TABLE users;--")
  = Done ("'''; drop_table users;__'", None).
Proof.
  exact (proj2 (proj2 (proj2 (proj2
    (literal_string_pipeline asciiLib sourceOrder asciiLib_ascii sourceOrder_ok))))).
Defined.

(* ------------------------------------------------------------------ *)
(** ** Length caps *)

Lemma visitAll_nothing_visible (lib : GoLib) (order : PatternMap) (s : string) :
  (forall p, In p order -> Contains (strings_ToLower lib s) (fst p) = false) ->
  visitAll lib order s = Done s.
Proof.
  induction order as [|p order IH]; simpl; intros H; auto.
  unfold visit. rewrite H by now left. simpl.
  apply IH. intros q Hq. apply H. now right.
Qed.

(** C7 (amended).  Whatever a validator returns is within its cap (100 for
    ID, 500 for Name, 2000 for Generic, 10000 for Description), and on
    ASCII input every validator does return.  [sanitizeStringInput] cuts
    its input, not its output, to 65535 bytes: it is the blocklist loop run
    on the cut input, so its output is the cut input itself, of at most
    65535 bytes, when the loop sees no pattern in it. *)
Theorem validator_caps (lib : GoLib) (it : MapIter) (s : string) :
  (forall t out,
      ProcessString (globalProcessor lib) it s t = Done out ->
      String.length out <= lengthCap t)
  /\ (GoLib_ascii lib -> MapIter_ok it -> isASCII s = true ->
      forall t, exists out,
        ProcessString (globalProcessor lib) it s t = Done out
        /\ String.length out <= lengthCap t)
  /\ sanitizeStringInput lib it s
     = visitAll lib (it sanitizeStringInput_dangerousPatterns) (truncate 65535 s)
  /\ ((forall p, In p (it sanitizeStringInput_dangerousPatterns) ->
         Contains (strings_ToLower lib (truncate 65535 s)) (fst p) = false) ->
      sanitizeStringInput lib it s = Done (truncate 65535 s)
      /\ String.length (truncate 65535 s) <= 65535).
Proof.
  assert (E : sanitizeStringInput lib it s
     = visitAll lib (it sanitizeStringInput_dangerousPatterns) (truncate 65535 s)).
  { unfold sanitizeStringInput. apply rangePatterns_visitAll. }
  repeat split.
  - intros t out H. rewrite ProcessString_validateAs in H.
    eapply validateAs_cap; eauto. now destruct t.
  - intros H Hit Hs t. rewrite ProcessString_validateAs.
    destruct (validateAs_ascii_returns lib it t s H Hit Hs) as (out & Ho & _ & Hl).
    eauto.
  - exact E.
  - rewrite E. now apply visitAll_nothing_visible.
  - apply truncate_length.
Qed.

(** C7 as stated fails for [sanitizeStringInput]: an input of 65535 bytes
    is not cut, and replacing its ["/*"] by ["/_*"] makes the output one
    byte longer than 65535. *)
Lemma sanitizeStringInput_exceeds_65535 :
  (String.length ("/*" ++ repeatByte "a" 65533) =? 65535) = true
  /\ longerThan 65535
       (sanitizeStringInput asciiLib sourceOrder ("/*" ++ repeatByte "a" 65533))
     = true.
Proof. split; vm_compute; reflexivity. Qed.

(* ------------------------------------------------------------------ *)
(** ** Occurrences of a pattern in a text *)

Lemma HasPrefix_app (q b : string) : HasPrefix (q ++ b) q = true.
Proof. induction q as [|a q IH]; simpl; auto. now rewrite Ascii.eqb_refl. Qed.

Lemma HasPrefix_split (x q : string) :
  HasPrefix x q = true -> x = q ++ drop (String.length q) x.
Proof.
  revert x; induction q as [|a q IH]; intros x H; [reflexivity|].
  destruct x as [|c x]; [discriminate|]. simpl in H.
  apply andb_true_iff in H as [H1 H2]. apply Ascii.eqb_eq in H1; subst c.
  simpl. f_equal. now apply IH.
Qed.

Lemma HasPrefix_long (X Z q : string) :
  String.length q <= String.length X ->
  HasPrefix (X ++ Z) q = HasPrefix X q.
Proof.
  revert X; induction q as [|a q IH]; intros X H; [reflexivity|].
  destruct X as [|c X]; simpl in *; [lia|].
  rewrite IH by lia. reflexivity.
Qed.

Lemma HasPrefix_short (U Y q : string) :
  HasPrefix (U ++ Y) q = true ->
  HasPrefix q U = true \/ HasPrefix U q = true.
Proof.
  revert q; induction U as [|c U IH]; intros q H; [now left|].
  destruct q as [|a q]; [now right|]. simpl in *.
  apply andb_true_iff in H as [H1 H2]. apply Ascii.eqb_eq in H1; subst c.
  rewrite Ascii.eqb_refl. simpl. now apply IH.
Qed.

Lemma Index_app_Some (X Z q : string) (j : nat) :
  Index X q = Some j -> Index (X ++ Z) q = Some j.
Proof.
  revert j; induction X as [|c X IH]; intros j H.
  - rewrite Index_unfold in H. destruct (HasPrefix "" q) eqn:E; [|discriminate].
    injection H as <-. destruct q; [|discriminate].
    rewrite Index_unfold. reflexivity.
  - rewrite Index_unfold in H. rewrite Index_unfold.
    destruct (HasPrefix (String c X) q) eqn:E.
    + rewrite HasPrefix_long, E; auto. now apply HasPrefix_length.
    + destruct (Index X q) as [k|] eqn:EI; [|discriminate].
      pose proof (Index_bound _ _ _ EI) as HB.
      change (String c X ++ Z) with (String c (X ++ Z)).
      rewrite <- (append_nil_r (String c (X ++ Z))) at 1.
      change (String c (X ++ Z) ++ "") with ((String c X ++ Z) ++ "").
      rewrite append_nil_r.
      rewrite HasPrefix_long, E by (simpl; lia).
      now rewrite (IH k eq_refl).
Qed.

Lemma Contains_app_l (X Z q : string) :
  Contains X q = true -> Contains (X ++ Z) q = true.
Proof.
  unfold Contains. destruct (Index X q) as [j|] eqn:E; [|discriminate].
  now rewrite (Index_app_Some _ Z _ _ E).
Qed.

Lemma Contains_app_r (Z Y q : string) :
  Contains Y q = true -> Contains (Z ++ Y) q = true.
Proof.
  unfold Contains. intros H. induction Z as [|c Z IH]; [exact H|].
  change (String c Z ++ Y) with (String c (Z ++ Y)).
  rewrite Index_unfold. destruct (HasPrefix _ q); [reflexivity|].
  destruct (Index (Z ++ Y) q); [reflexivity|discriminate].
Qed.

Lemma Contains_self (q : string) : Contains q q = true.
Proof.
  unfold Contains. rewrite Index_unfold.
  rewrite <- (append_nil_r q) at 1. now rewrite HasPrefix_app.
Qed.

Lemma Index_Some_split (x q : string) (i : nat) :
  Index x q = Some i ->
  x = take i x ++ q ++ drop (i + String.length q) x.
Proof.
  revert i; induction x as [|c x IH]; intros i H; rewrite Index_unfold in H.
  - destruct (HasPrefix "" q) eqn:E; [|discriminate]. injection H as <-.
    now apply HasPrefix_split in E.
  - destruct (HasPrefix (String c x) q) eqn:E.
    + injection H as <-. now apply HasPrefix_split in E.
    + destruct (Index x q) as [k|]; [|discriminate]. injection H as <-.
      simpl. f_equal. now apply IH.
Qed.

Lemma Contains_split (x q : string) :
  Contains x q = true -> exists a b, x = a ++ q ++ b.
Proof.
  unfold Contains. destruct (Index x q) as [i|] eqn:E; [|discriminate].
  intros _. exists (take i x), (drop (i + String.length q) x).
  now apply Index_Some_split.
Qed.

Lemma Contains_middle (a q b : string) : Contains (a ++ q ++ b) q = true.
Proof. apply Contains_app_r, Contains_app_l, Contains_self. Qed.

(** Occurring is transitive: a pattern inside a pattern inside a text. *)
Lemma Contains_trans (x q' q : string) :
  Contains q' q = true -> Contains x q' = true -> Contains x q = true.
Proof.
  intros H1 H2.
  apply Contains_split in H1 as (c & d & ->).
  apply Contains_split in H2 as (a & b & ->).
  rewrite !append_assoc. rewrite <- (append_assoc a c).
  apply Contains_middle.
Qed.

Lemma Contains_false_app_l (X Z q : string) :
  Contains (X ++ Z) q = false -> Contains X q = false.
Proof.
  intros H. destruct (Contains X q) eqn:E; auto.
  now rewrite (Contains_app_l _ Z _ E) in H.
Qed.

Lemma Contains_false_app_r (Z Y q : string) :
  Contains (Z ++ Y) q = false -> Contains Y q = false.
Proof.
  intros H. destruct (Contains Y q) eqn:E; auto.
  now rewrite (Contains_app_r Z _ _ E) in H.
Qed.

Lemma drop_app_le (o : nat) (U V : string) :
  o <= String.length U -> drop o (U ++ V) = drop o U ++ V.
Proof.
  revert U; induction o as [|o IH]; intros U H; [reflexivity|].
  destruct U as [|c U]; simpl in *; [lia|]. apply IH. lia.
Qed.

Lemma drop_app_length (U V : string) : drop (String.length U) (U ++ V) = V.
Proof. induction U; simpl; auto. Qed.

Lemma drop_all (n : nat) (s : string) :
  String.length s <= n -> drop n s = EmptyString.
Proof.
  revert s; induction n as [|n IH]; intros [|c s]; simpl; intros H; auto; try lia.
  apply IH. lia.
Qed.

Lemma HasPrefix_Contains (W q : string) :
  HasPrefix W q = true -> Contains W q = true.
Proof. intros H. unfold Contains. now rewrite Index_unfold, H. Qed.

Lemma HasPrefix_drop_Contains (o : nat) (W q : string) :
  HasPrefix (drop o W) q = true -> Contains W q = true.
Proof.
  intros H. rewrite <- (take_drop o W).
  now apply Contains_app_r, HasPrefix_Contains.
Qed.

(** An occurrence that starts in [X] and runs beyond it. *)
Lemma HasPrefix_app_inv (X W q : string) :
  HasPrefix (X ++ W) q = true -> String.length X <= String.length q ->
  HasPrefix W (drop (String.length X) q) = true.
Proof.
  revert q; induction X as [|c X IH]; intros q H HL; [exact H|].
  destruct q as [|a q]; simpl in *; [lia|].
  apply andb_true_iff in H as [_ H]. apply IH; auto. lia.
Qed.

(** A text has no occurrence of [q] when none starts at its first [n]
    offsets and none lies beyond them. *)
Lemma Contains_from (n : nat) (q : string) :
  forall W,
    (forall o, o < n -> HasPrefix (drop o W) q = false) ->
    Contains (drop n W) q = false -> Contains W q = false.
Proof.
  induction n as [|n IH]; intros W H HC; [exact HC|].
  destruct W as [|c W]; [exact HC|].
  unfold Contains. rewrite Index_unfold.
  pose proof (H 0 ltac:(lia)) as H0. cbn [drop] in H0. rewrite H0.
  assert (HW : Contains W q = false).
  { apply IH; [|exact HC]. intros o Ho. apply (H (S o)). lia. }
  unfold Contains in HW. destruct (Index W q); [discriminate|reflexivity].
Qed.

(* ------------------------------------------------------------------ *)
(** ** What a replacement can and cannot bring into a lower-case text *)

Lemma commonPrefix_l (p r : string) : HasPrefix p (commonPrefix p r) = true.
Proof.
  revert r; induction p as [|a p IH]; intros [|b r]; simpl; auto.
  destruct (Ascii.eqb a b) eqn:E; simpl; auto.
  now rewrite Ascii.eqb_refl, IH.
Qed.

Lemma commonPrefix_r (p r : string) :
  commonPrefix p r ++ drop (String.length (commonPrefix p r)) r = r.
Proof.
  revert r; induction p as [|a p IH]; intros [|b r]; simpl; auto.
  destruct (Ascii.eqb a b) eqn:E; simpl; auto.
  apply Ascii.eqb_eq in E; subst b. now rewrite IH.
Qed.

Lemma suffixCut_le (p T : string) : suffixCut p T <= String.length T.
Proof.
  induction T as [|c T IH]; simpl; auto.
  destruct (HasSuffix p T); lia.
Qed.

Lemma suffixCut_suffix (p T : string) :
  HasSuffix p (drop (suffixCut p T) T) = true.
Proof.
  induction T as [|c T IH]; simpl.
  - unfold HasSuffix. simpl. rewrite Nat.sub_0_r, drop_all by lia. reflexivity.
  - destruct (HasSuffix p T) eqn:E; simpl; auto.
Qed.

Lemma HasSuffix_split (p B : string) :
  HasSuffix p B = true -> exists pb, p = pb ++ B.
Proof.
  unfold HasSuffix. intros H. apply andb_true_iff in H as [_ H].
  apply String.eqb_eq in H.
  exists (take (String.length p - String.length B) p).
  rewrite <- (take_drop (String.length p - String.length B) p) at 1.
  now rewrite H.
Qed.

(** The three parts of a replacement. *)
Lemma replacement_parts (p r : string) :
  let A := commonPrefix p r in
  let T := drop (String.length A) r in
  let k := suffixCut p T in
  r = A ++ take k T ++ drop k T
  /\ String.length (take k T) = k
  /\ (exists pa, p = A ++ pa)
  /\ (exists pb, p = pb ++ drop k T).
Proof.
  intros A T k. repeat split.
  - rewrite take_drop. symmetry. apply commonPrefix_r.
  - rewrite take_length. pose proof (suffixCut_le p T). fold k in H. lia.
  - exists (drop (String.length A) p). apply HasPrefix_split, commonPrefix_l.
  - apply HasSuffix_split, suffixCut_suffix.
Qed.

Lemma startsNowhere_app (q B Y : string) :
  startsNowhere q B = true ->
  Contains Y q = false -> Contains (B ++ Y) q = false.
Proof.
  intros HB HY. induction B as [|c B IH]; [exact HY|].
  cbn [startsNowhere] in HB. apply andb_true_iff in HB as [HB HB'].
  apply andb_true_iff in HB as [H1 H2].
  apply negb_true_iff in H1, H2.
  unfold Contains in *. change (String c B ++ Y) with (String c (B ++ Y)).
  rewrite Index_unfold.
  destruct (HasPrefix (String c (B ++ Y)) q) eqn:E.
  - apply (HasPrefix_short (String c B) Y q) in E as [E|E]; congruence.
  - specialize (IH HB'). destruct (Index (B ++ Y) q); [discriminate|reflexivity].
Qed.

(** A text [X ++ A ++ M ++ B ++ Y] has no occurrence of [q] when none can
    lie over [M], none lies in [X ++ A] and none lies in [B ++ Y]. *)
Lemma untouched_sound (q A M B Y : string) :
  untouched q (A ++ M ++ B) (String.length A) (String.length A + String.length M)
  = true ->
  Contains (B ++ Y) q = false ->
  forall X,
    Contains (X ++ A) q = false ->
    Contains (X ++ (A ++ M ++ B) ++ Y) q = false.
Proof.
  unfold untouched, compat. intros HU HB.
  apply andb_true_iff in HU as [Hin Hbef]. rewrite forallb_forall in Hin, Hbef.
  set (r := A ++ M ++ B) in *.
  assert (Hr : r ++ Y = A ++ M ++ B ++ Y) by (unfold r; now rewrite !append_assoc).
  assert (Hinside : Contains A q = false -> Contains (r ++ Y) q = false).
  { intros HA. apply (Contains_from (String.length A + String.length M)).
    - intros o Ho. destruct (HasPrefix (drop o (r ++ Y)) q) eqn:E; auto. exfalso.
      assert (Hor : o <= String.length r).
      { unfold r. rewrite !length_append. lia. }
      specialize (Hin o). rewrite in_seq in Hin.
      assert (Hq := Hin ltac:(lia)). apply orb_true_iff in Hq as [Hq|Hq].
      + apply Nat.leb_le in Hq.
        rewrite Hr, drop_app_le, HasPrefix_long in E
          by (try rewrite drop_length; lia).
        apply HasPrefix_drop_Contains in E. congruence.
      + rewrite drop_app_le in E by assumption.
        apply HasPrefix_short in E as [E|E]; rewrite E in Hq;
          [rewrite orb_true_r in Hq|]; discriminate.
    - replace (r ++ Y) with ((A ++ M) ++ B ++ Y)
        by (unfold r; now rewrite !append_assoc).
      rewrite <- length_append, drop_app_length. exact HB. }
  induction X as [|c X IH]; intros HXA; [now apply Hinside|].
  change (String c X ++ r ++ Y) with (String c (X ++ r ++ Y)).
  unfold Contains. rewrite Index_unfold.
  destruct (HasPrefix (String c (X ++ r ++ Y)) q) eqn:E.
  - exfalso.
    destruct (le_lt_dec (String.length q) (String.length (String c X ++ A)))
      as [Hle|Hgt].
    + change (String c (X ++ r ++ Y)) with (String c X ++ r ++ Y) in E.
      rewrite Hr, <- append_assoc, HasPrefix_long in E by assumption.
      apply HasPrefix_Contains in E. congruence.
    + rewrite length_append in Hgt.
      apply (HasPrefix_app_inv (String c X) (r ++ Y) q) in E; [|lia].
      specialize (Hbef (String.length (String c X))). rewrite in_seq in Hbef.
      assert (Hq := Hbef ltac:(simpl in *; lia)). apply orb_true_iff in Hq as [Hq|Hq].
      * apply Nat.leb_le in Hq. lia.
      * apply HasPrefix_short in E as [E|E]; rewrite E in Hq;
          [rewrite orb_true_r in Hq|]; discriminate.
  - assert (HX : Contains (X ++ r ++ Y) q = false).
    { apply IH. apply (Contains_false_app_r (String c EmptyString)). exact HXA. }
    unfold Contains in HX. destruct (Index (X ++ r ++ Y) q); [discriminate|reflexivity].
Qed.

Lemma take_length_le (i : nat) (x : string) :
  i <= String.length x -> String.length (take i x) = i.
Proof. intros H. rewrite take_length. lia. Qed.

(** Replacing [p] by [r] in a lower-case text [x] that follows [carry]
    brings no occurrence of [q] into it. *)
Lemma scanReplace_keeps_absent (q p r : string) :
  keepsAbsent q (p, r) = true ->
  forall n x carry,
    String.length x <= n ->
    Contains (carry ++ x) q = false ->
    Contains (carry ++ scanReplace 0 x x p r) q = false.
Proof.
  unfold keepsAbsent. intros H.
  destruct (replacement_parts p r) as (Hr & HM & [pa Hpa] & [pb Hpb]).
  set (A := commonPrefix p r) in *.
  set (k := suffixCut p (drop (String.length A) r)) in *.
  set (M := take k (drop (String.length A) r)) in *.
  set (B := drop k (drop (String.length A) r)) in *.
  apply andb_true_iff in H as [H HU]. apply andb_true_iff in H as [Hp Hk].
  apply Nat.leb_le in Hp. rewrite <- HM in HU. rewrite Hr in HU.
  induction n as [|n IH]; intros x carry Hn Hx.
  - destruct x; [exact Hx|simpl in Hn; lia].
  - destruct (Index x p) as [i|] eqn:EI.
    + pose proof (Index_bound _ _ _ EI) as HB.
      rewrite (scanReplace_match i) by auto.
      pose proof (Index_Some_split _ _ _ EI) as Hsplit.
      set (x1 := take i x) in *. set (x2 := drop (i + String.length p) x) in *.
      assert (Hlen : String.length x2 <= n).
      { unfold x2. rewrite drop_length. lia. }
      rewrite Hsplit in Hx.
      replace (carry ++ x1 ++ r ++ scanReplace 0 x2 x2 p r)
        with ((carry ++ x1) ++ (A ++ M ++ B) ++ scanReplace 0 x2 x2 p r)
        by (now rewrite <- Hr, !append_assoc).
      apply untouched_sound; auto.
      * apply IH; auto.
        apply (Contains_false_app_r (carry ++ x1 ++ pb)).
        rewrite Hpb in Hx. now rewrite !append_assoc in *.
      * apply (Contains_false_app_l _ (pa ++ x2)).
        rewrite Hpa in Hx. now rewrite !append_assoc in *.
    + now rewrite scanReplace_no_match.
Qed.

(** Replacing [q] by [r] in a lower-case text leaves no occurrence of [q]. *)
Lemma scanReplace_clears (q r : string) :
  clears q r = true ->
  forall n x, String.length x <= n ->
    Contains (scanReplace 0 x x q r) q = false.
Proof.
  unfold clears, keepsAbsent. intros H.
  destruct (replacement_parts q r) as (Hr & HM & [qa Hqa] & _).
  set (A := commonPrefix q r) in *.
  set (k := suffixCut q (drop (String.length A) r)) in *.
  set (M := take k (drop (String.length A) r)) in *.
  set (B := drop k (drop (String.length A) r)) in *.
  apply andb_true_iff in H as [H Hstart]. apply andb_true_iff in H as [H HlenA].
  apply andb_true_iff in H as [H HU]. apply andb_true_iff in H as [Hp Hk].
  apply Nat.leb_le in Hp. apply Nat.ltb_lt in HlenA.
  rewrite <- HM in HU. rewrite Hr in HU.
  induction n as [|n IH]; intros x Hn.
  - destruct x; [|simpl in Hn; lia]. simpl. unfold Contains.
    rewrite Index_unfold. destruct q; [simpl in Hp; lia|reflexivity].
  - destruct (Index x q) as [i|] eqn:EI.
    + pose proof (Index_bound _ _ _ EI) as HB.
      rewrite (scanReplace_match i) by auto.
      pose proof (Index_Some_split _ _ _ EI) as Hsplit.
      set (x1 := take i x) in *. set (x2 := drop (i + String.length q) x) in *.
      assert (Hlen : String.length x2 <= n).
      { unfold x2. rewrite drop_length. lia. }
      specialize (IH x2 Hlen).
      replace (x1 ++ r ++ scanReplace 0 x2 x2 q r)
        with (x1 ++ (A ++ M ++ B) ++ scanReplace 0 x2 x2 q r)
        by (now rewrite <- Hr).
      apply untouched_sound; auto.
      * now apply startsNowhere_app.
      * destruct (Contains (x1 ++ A) q) eqn:EC; auto. exfalso.
        unfold Contains in EC.
        destruct (Index (x1 ++ A) q) as [j|] eqn:EJ; [|discriminate].
        pose proof (Index_bound _ _ _ EJ) as HJ.
        apply (Index_app_Some _ (qa ++ x2)) in EJ.
        rewrite append_assoc, <- (append_assoc A qa x2), <- Hqa, <- Hsplit, EI in EJ.
        injection EJ as <-.
        rewrite length_append in HJ. unfold x1 in HJ.
        rewrite take_length_le in HJ by lia. lia.
    + rewrite scanReplace_no_match; auto.
      unfold Contains. now rewrite EI.
Qed.

(* ------------------------------------------------------------------ *)
(** ** One pass of a blocklist over ASCII text *)

Lemma mapString_scanReplace (f : ascii -> ascii) (s new : string) :
  forall k sLower pat,
    mapString f (scanReplace k sLower s pat new)
    = scanReplace k sLower (mapString f s) pat (mapString f new).
Proof.
  induction s as [|c s IH]; intros k sLower pat; [reflexivity|].
  cbn [scanReplace mapString]. destruct k; auto.
  destruct (HasPrefix sLower pat).
  - now rewrite mapString_app, IH.
  - cbn [mapString]. now rewrite IH.
Qed.

(** The lower-casing of the text after one turn of the loop. *)
Lemma visit_asciiLib_lower (p : string * string) (s : string) :
  lowerEntry p = true ->
  exists s',
    visit asciiLib p s = Done s'
    /\ asciiToLower s'
       = (if Contains (asciiToLower s) (fst p)
          then scanReplace 0 (asciiToLower s) (asciiToLower s) (fst p)
                 (asciiToLower (snd p))
          else asciiToLower s).
Proof.
  unfold lowerEntry, asciiEntry. intros H.
  apply andb_true_iff in H as [H Hl]. apply andb_true_iff in H as [_ Hn].
  apply Nat.leb_le in Hn. apply String.eqb_eq in Hl.
  rewrite visit_asciiLib by assumption. eexists. split; [reflexivity|].
  destruct (Contains _ _); [|reflexivity].
  unfold asciiToLower at 1. rewrite mapString_scanReplace.
  fold (asciiToLower s). fold (asciiToLower (snd p)). now rewrite Hl.
Qed.

Lemma visitAll_ascii (lib : GoLib) (order : PatternMap) :
  GoLib_ascii lib -> forallb asciiEntry order = true ->
  forall s, isASCII s = true ->
    visitAll lib order s = visitAll asciiLib order s.
Proof.
  intros H. induction order as [|p order IH]; intros Ho s Hs; [reflexivity|].
  simpl in Ho. apply andb_true_iff in Ho as [Hp Ho]. cbn [visitAll].
  assert (Hp' := Hp). unfold asciiEntry in Hp'.
  apply andb_true_iff in Hp' as [Hp' _]. apply andb_true_iff in Hp' as [Hp' _].
  rewrite (visit_ascii lib p s H Hs Hp').
  destruct (visit_ascii_returns asciiLib p s asciiLib_ascii Hp Hs) as (s1 & -> & Hs1).
  simpl. auto.
Qed.

(** After the pass, a pattern that some entry clears and no entry brings
    back is absent from the lower-cased text, whatever the order. *)
Lemma visitAll_absent (table : PatternMap) (q rq : string) :
  forallb lowerEntry table = true ->
  clears q (asciiToLower rq) = true ->
  forallb (fun pr => keepsAbsent q (fst pr, asciiToLower (snd pr))) table = true ->
  forall order s out,
    incl order table ->
    visitAll asciiLib order s = Done out ->
    Contains (asciiToLower s) q = false \/ In (q, rq) order ->
    Contains (asciiToLower out) q = false.
Proof.
  intros Ht Hc Hk. rewrite forallb_forall in Ht, Hk.
  induction order as [|p order IH]; intros s out Hin Hrun Hs.
  - simpl in Hrun. injection Hrun as <-. destruct Hs as [Hs|[]]. exact Hs.
  - cbn [visitAll] in Hrun.
    assert (Hp : In p table) by (apply Hin; now left).
    destruct (visit_asciiLib_lower p s (Ht p Hp)) as (s1 & Hv & Hl).
    rewrite Hv in Hrun. simpl in Hrun.
    apply (IH s1 out); auto.
    { intros x Hx. apply Hin. now right. }
    destruct Hs as [Hs|[Hs|Hs]].
    + left. rewrite Hl. destruct (Contains (asciiToLower s) (fst p)); auto.
      apply (scanReplace_keeps_absent q (fst p) (asciiToLower (snd p)) (Hk p Hp)
               (String.length (asciiToLower s)) (asciiToLower s) ""); auto.
    + left. subst p. rewrite Hl. cbn [fst snd].
      destruct (Contains (asciiToLower s) q) eqn:E; auto.
      apply (scanReplace_clears q (asciiToLower rq) Hc
               (String.length (asciiToLower s))); auto.
    + now right.
Qed.

Lemma Contains_truncate (n : nat) (x q : string) :
  Contains (asciiToLower x) q = false ->
  Contains (asciiToLower (truncate n x)) q = false.
Proof.
  unfold truncate. destruct (n <? String.length x); auto.
  intros H. unfold asciiToLower in *. rewrite mapString_take.
  apply (Contains_false_app_l _ (drop n (mapString asciiLower x))).
  now rewrite take_drop.
Qed.

Lemma visitAll_neutralized (table order : PatternMap) (q' s out : string) :
  forallb lowerEntry table = true ->
  neutralizedBy table q' = true ->
  Permutation order table ->
  visitAll asciiLib order s = Done out ->
  Contains (asciiToLower out) q' = false.
Proof.
  intros Ht Hq HP Hrun. unfold neutralizedBy in Hq.
  apply existsb_exists in Hq as ([q rq] & Hentry & Hq). cbn [fst snd] in Hq.
  apply andb_true_iff in Hq as [Hq Hk]. apply andb_true_iff in Hq as [Hsub Hc].
  assert (H : Contains (asciiToLower out) q = false).
  { apply (visitAll_absent table q rq Ht Hc Hk order s out); auto.
    - intros x Hx. eapply Permutation_in; eauto.
    - right. eapply Permutation_in; [apply Permutation_sym|]; eauto. }
  destruct (Contains (asciiToLower out) q') eqn:E; auto.
  now rewrite (Contains_trans _ _ _ Hsub E) in H.
Qed.

(** What the loop of a sanitizer leaves of its blocklist on ASCII text. *)
Lemma rangePatterns_neutralizes (lib : GoLib) (it : MapIter)
  (table : PatternMap) (s : string) :
  GoLib_ascii lib -> MapIter_ok it ->
  forallb lowerEntry table = true -> isASCII s = true ->
  exists out,
    rangePatterns lib (it table) (strings_ToLower lib s) s = Done out
    /\ isASCII out = true
    /\ forall q, neutralizedBy table q = true ->
                 Contains (asciiToLower out) q = false.
Proof.
  intros H Hit Ht Hs. rewrite rangePatterns_visitAll.
  assert (Ha : forallb asciiEntry (it table) = true).
  { rewrite (forallb_Permutation _ _ _ (Hit table)).
    rewrite forallb_forall in *. intros p Hp. apply Ht in Hp.
    unfold lowerEntry in Hp. now apply andb_true_iff in Hp as [Hp _]. }
  destruct (visitAll_ascii_returns lib (it table) H Ha s Hs) as (out & Hout & Hascii).
  exists out. split; [exact Hout|]. split; [exact Hascii|]. intros q Hq.
  rewrite (visitAll_ascii lib (it table) H Ha s Hs) in Hout.
  apply (visitAll_neutralized table (it table) q s out); auto.
Qed.












(* ------------------------------------------------------------------ *)
(** ** replaceCaseInsensitive where lower-casing moves byte offsets *)

(** C9.  The neutralizer finds occurrences in the lower-cased text and
    cuts the original text at the same byte offsets.  With [Ⱥ] (two bytes,
    lower case of three bytes) before the pattern, the segment emitted is
    not the text before the occurrence: ["Ⱥ--a"] becomes ["Ⱥ-__"] where
    replacing the occurrence gives ["Ⱥ__a"], and ["Ⱥ--"] makes the
    final slice panic.  The same happens through [sanitizeStringInput] and
    through [literal]. *)
Theorem replaceCaseInsensitive_offset_drift :
  strings_ToLower aStrokeLib "Ⱥ--a" = "ⱥ--a"
  /\ ReplaceAll "Ⱥ--a" "--" "__" = "Ⱥ__a"
  /\ replaceCaseInsensitive aStrokeLib "Ⱥ--a" "--" "__" = Done "Ⱥ-__"
  /\ sanitizeStringInput aStrokeLib sourceOrder "Ⱥ--a" = Done "Ⱥ-__"
  /\ literal aStrokeLib sourceOrder (VString "Ⱥ--a") = Done ("'Ⱥ-__'", None)
  /\ replaceCaseInsensitive aStrokeLib "Ⱥ--" "--" "__" = Panic
  /\ sanitizeStringInput aStrokeLib sourceOrder "Ⱥ--" = Panic
  /\ literal aStrokeLib sourceOrder (VString "Ⱥ--") = Panic.
Proof. repeat split. Qed.

(** A pass that reaches an entry on which the neutralizer panics, the
    entries before it finding nothing, panics. *)
Lemma visitAll_panics_at (lib : GoLib) (s : string) (p0 : string * string) :
  visit lib p0 s = Panic ->
  forall order,
    In p0 order ->
    (forall p, In p order ->
               p = p0 \/ Contains (strings_ToLower lib s) (fst p) = false) ->
    visitAll lib order s = Panic.
Proof.
  intros Hp0. induction order as [|p order IH]; intros Hin Hall; [contradiction|].
  cbn [visitAll].
  destruct (Hall p (or_introl eq_refl)) as [->|Hc].
  - now rewrite Hp0.
  - assert (Hv : visit lib p s = Done s) by (unfold visit; now rewrite Hc).
    rewrite Hv. cbn [bind]. apply IH.
    + destruct Hin as [->|Hin]; [congruence|exact Hin].
    + intros q Hq. apply Hall. now right.
Qed.

(** The Generic validator on ["Ⱥ--"], in whatever order the map is
    ranged over: no entry but [--] is found in the text, and at [--] the
    final slice of the neutralizer is out of range. *)
Lemma GenericValidator_AStroke_panics (it : MapIter) :
  MapIter_ok it -> GenericValidator_Validate aStrokeLib it "Ⱥ--" = Panic.
Proof.
  intros Hit. unfold GenericValidator_Validate.
  change (norm_NFKC aStrokeLib "Ⱥ--") with "Ⱥ--".
  change (strings_TrimSpace aStrokeLib
            (collapseSpaces false
               (ReplaceAll (ReplaceAll (ReplaceAll "Ⱥ--" (str1 TAB) " ") (str1 LF) " ")
                  (str1 CR) " ")))
    with "Ⱥ--".
  rewrite rangePatterns_visitAll.
  rewrite (visitAll_panics_at aStrokeLib "Ⱥ--" ("--", "__")); [reflexivity|reflexivity| |].
  - eapply Permutation_in; [apply Permutation_sym, Hit|]. simpl. tauto.
  - intros p Hp. apply (Permutation_in _ (Hit _)) in Hp.
    assert (Hall : forallb (fun p => (String.eqb (fst p) "--" && String.eqb (snd p) "__")
                                     || negb (Contains (strings_ToLower aStrokeLib "Ⱥ--")
                                                (fst p)))
                     GenericValidator_dangerousPatterns = true) by reflexivity.
    rewrite forallb_forall in Hall. specialize (Hall p Hp).
    apply orb_true_iff in Hall as [Hall|Hall].
    + apply andb_true_iff in Hall as [H1 H2].
      apply String.eqb_eq in H1, H2. left. destruct p. simpl in *. congruence.
    + right. now apply negb_true_iff.
Qed.

(** C3.  A string for which [literal] yields no literal.  [Ⱥ] (U+023A,
    two bytes) has a lower case of three bytes; ["Ⱥ--"] is inferred as
    Generic text, the Generic validator finds [--] in the lower-cased text
    and cuts the original at the offsets found there, and the final slice
    [s[5:]] of the four-byte string panics: in whatever order the map is
    ranged over, [literal] returns nothing. *)
Theorem literal_string_panics :
  String.length "Ⱥ--" = 4
  /\ strings_ToLower aStrokeLib "Ⱥ--" = "ⱥ--"
  /\ String.length (strings_ToLower aStrokeLib "Ⱥ--") = 5
  /\ InferType "Ⱥ--" = ParamTypeGeneric
  /\ (forall it, MapIter_ok it -> literal aStrokeLib it (VString "Ⱥ--") = Panic).
Proof.
  repeat split. intros it Hit. cbn [literal].
  rewrite ProcessString_validateAs.
  change (InferType "Ⱥ--") with ParamTypeGeneric. cbn [validateAs].
  now rewrite GenericValidator_AStroke_panics.
Qed.

(** C10.  A byte slice and the string of its bytes for which no literal
    comes out, and a pair of calls that return different literals.  On
    the bytes of ["Ⱥ--"] both calls of [literal] panic, in whatever order
    the map is ranged over.  Each call ranges over the blocklist map
    afresh: on ["; update or 1=1"] the call on the byte slice, ranging in
    the order of the map literal, and the call on the string, ranging in
    the reverse order, return different literals. *)
Theorem literal_bytes_string_differ :
  (forall it, MapIter_ok it ->
     literal aStrokeLib it (VBytes "Ⱥ--") = Panic
     /\ literal aStrokeLib it (VString "Ⱥ--") = Panic)
  /\ MapIter_ok sourceOrder /\ MapIter_ok reverseOrder
  /\ literal asciiLib sourceOrder (VBytes "; update or 1=1")
     = Done ("'; update_or 1=1'", None)
  /\ literal asciiLib reverseOrder (VString "; update or 1=1")
     = Done ("'; update_or_1=1'", None).
Proof.
  split; [|split; [apply sourceOrder_ok|split; [|split; reflexivity]]].
  - intros it Hit.
    assert (H : literal aStrokeLib it (VString "Ⱥ--") = Panic).
    { cbn [literal]. rewrite ProcessString_validateAs.
      change (InferType "Ⱥ--") with ParamTypeGeneric. cbn [validateAs].
      now rewrite GenericValidator_AStroke_panics. }
    split; exact H.
  - intros m. apply Permutation_sym, Permutation_rev.
Qed.

(* ------------------------------------------------------------------ *)
(** ** Termination *)

Lemma replaceLoop_terminates (fuel : nat) (s sLower oldLower new : string)
  (lenOld : nat) :
  1 <= lenOld ->
  forall lastEnd acc,
    String.length sLower + 1 - lastEnd < fuel ->
    replaceLoop fuel s sLower oldLower new lenOld lastEnd acc <> Diverge.
Proof.
  intros Hlen. induction fuel as [|fuel IH]; intros lastEnd acc HF; [lia|].
  cbn [replaceLoop].
  destruct (Nat.leb_spec lastEnd (String.length sLower)) as [Hle|Hgt].
  - rewrite sliceFrom_ok by assumption. cbn [bind].
    destruct (Index _ oldLower) as [index|].
    + unfold slice. destruct (_ && _); cbn [bind]; [|discriminate].
      apply IH. lia.
    + unfold sliceFrom, slice. destruct (_ && _); discriminate.
  - rewrite sliceFrom_panics by assumption. discriminate.
Qed.

(** With a non-empty pattern [replaceCaseInsensitive] returns or panics,
    whatever the lower-casing function does: the fuel of the model is
    enough. *)
Lemma replaceCaseInsensitive_terminates (lib : GoLib) (s old new : string) :
  1 <= String.length old ->
  replaceCaseInsensitive lib s old new <> Diverge.
Proof.
  intros H. unfold replaceCaseInsensitive.
  apply replaceLoop_terminates; auto. lia.
Qed.

Lemma rangePatterns_terminates (lib : GoLib) (order : PatternMap) :
  Forall (fun p => 1 <= String.length (fst p)) order ->
  forall lower result, rangePatterns lib order lower result <> Diverge.
Proof.
  induction 1 as [|[pattern replacement] order Hp _ IH]; intros lower result;
    cbn [rangePatterns]; [discriminate|].
  destruct (Contains lower pattern); auto.
  pose proof (replaceCaseInsensitive_terminates lib result pattern replacement Hp).
  destruct (replaceCaseInsensitive lib result pattern replacement);
    cbn [bind]; auto; discriminate.
Qed.

Lemma MapIter_nonempty (it : MapIter) (table : PatternMap) :
  MapIter_ok it ->
  forallb (fun p => 1 <=? String.length (fst p)) table = true ->
  Forall (fun p => 1 <= String.length (fst p)) (it table).
Proof.
  intros Hit H. rewrite forallb_forall in H. apply Forall_forall.
  intros p Hp. apply Nat.leb_le, H. eapply Permutation_in; eauto.
Qed.

Lemma validateAs_terminates (lib : GoLib) (it : MapIter) (t : ParamType) (s : string) :
  MapIter_ok it -> validateAs lib t it s <> Diverge.
Proof.
  intros Hit.
  assert (H : forall table lower r n,
            forallb (fun p => 1 <=? String.length (fst p)) table = true ->
            (result <- rangePatterns lib (it table) lower r ;;
             Done (truncate n result)) <> Diverge).
  { intros table lower r n Ht.
    pose proof (rangePatterns_terminates lib (it table)
                  (MapIter_nonempty it table Hit Ht) lower r).
    destruct (rangePatterns lib (it table) lower r); cbn [bind]; auto; discriminate. }
  destruct t; cbn [validateAs]; try (apply H; reflexivity). discriminate.
Qed.

(** [literal] fails to end exactly on a Valuer whose [Value()] does not
    return or whose results are Valuers without end. *)
Lemma literal_terminates (lib : GoLib) (it : MapIter) (v : Value) :
  MapIter_ok it -> terminated (literal lib it v) = valuerEnds v.
Proof.
  intros Hit. induction v; cbn [literal reflectFloat bind valuerEnds terminated]; auto.
  - rewrite ProcessString_validateAs.
    pose proof (validateAs_terminates lib it (InferType s) s Hit).
    destruct (validateAs lib (InferType s) it s); cbn [bind terminated]; auto;
      contradiction.
  - rewrite ProcessString_validateAs.
    pose proof (validateAs_terminates lib it (InferType b) b Hit).
    destruct (validateAs lib (InferType b) it b); cbn [bind terminated]; auto;
      contradiction.
Qed.

Lemma ExpandLoop_terminates (lib : GoLib) (sched : nat -> MapIter)
  (vars : list Value) (fuel : nat) :
  (forall i v, nth_error vars i = Some v -> literal lib (sched i) v <> Diverge) ->
  forall sql argI buf,
    String.length sql < fuel ->
    ExpandLoop lib fuel sched sql vars argI buf <> Diverge.
Proof.
  intros Hv. induction fuel as [|fuel IH]; intros sql argI buf HF; [lia|].
  cbn [ExpandLoop].
  destruct (IndexByte sql "?") as [pos|] eqn:EI.
  - destruct (IndexByte_Some _ _ EI) as (Hpos & _).
    destruct (List.length vars <=? argI); [discriminate|].
    rewrite sliceTo_ok by lia. cbn [bind].
    destruct (nth_error vars argI) as [v|] eqn:En; [|discriminate].
    pose proof (Hv argI v En).
    destruct (literal lib (sched argI) v) as [[lit [err|]]| |];
      cbn [bind]; auto; try discriminate.
    rewrite sliceFrom_ok by lia. cbn [bind].
    apply IH. rewrite drop_length. lia.
  - destruct (negb _); discriminate.
Qed.

Lemma valuerEnds_no_Diverge (lib : GoLib) (sched : nat -> MapIter)
  (vars : list Value) :
  (forall i, MapIter_ok (sched i)) ->
  forallb valuerEnds vars = true ->
  forall i v, nth_error vars i = Some v -> literal lib (sched i) v <> Diverge.
Proof.
  intros Hs Hv i v Hi Hd. rewrite forallb_forall in Hv.
  pose proof (literal_terminates lib (sched i) v (Hs i)) as H.
  rewrite Hd, (Hv v (nth_error_In _ _ Hi)) in H. discriminate.
Qed.

(* ------------------------------------------------------------------ *)
(** ** The repository's tests, run on the model

    The cases of the test files whose input is ASCII (or that involve no
    library function), with the maps ranged over in source order and in
    reverse order. *)

Example test_QuoteString :
  quoteString "hello world" = "'hello world'"
  /\ quoteString (String.append "hello" (String BACKSLASH "world"))
     = String.append "'hello" (String BACKSLASH (String BACKSLASH "world'"))
  /\ quoteString (String.append "hello" (String DQUOTE "world"))
     = String.append "'hello" (String BACKSLASH (String DQUOTE "world'"))
  /\ quoteString (String.append "hello" (String LF "world"))
     = String.append "'hello" (String BACKSLASH "nworld'")
  /\ quoteString (String.append "hello" (String TAB "world"))
     = String.append "'hello" (String BACKSLASH "tworld'")
  /\ quoteString (String.append "hello" (String CR "world"))
     = String.append "'hello" (String BACKSLASH "rworld'")
  /\ quoteString (String.append "hello" (String NUL "world"))
     = String.append "'hello" (String BACKSLASH "0world'")
  /\ quoteString (String.append "hello" (String CtrlZ "world"))
     = String.append "'hello" (String BACKSLASH "Zworld'").
Proof. repeat split. Qed.

Example test_TypeInferrer :
  InferType "project_123_abc" = ParamTypeID
  /\ InferType "北京朝阳区项目" = ParamTypeName
  /\ InferType "某某小区1期" = ParamTypeName
  /\ InferType (String.append "项目描述" (String LF "第二行内容")) = ParamTypeDescription
  /\ InferType "general text content" = ParamTypeGeneric.
Proof. repeat split. Qed.

Example test_SanitizeStringInput :
  forall it, In it [sourceOrder; reverseOrder] ->
  sanitizeStringInput asciiLib it "hello world" = Done "hello world"
  /\ sanitizeStringInput asciiLib it "'; UNION SELECT * FROM users--"
     = Done "'; union_select * FROM users__"
  /\ sanitizeStringInput asciiLib it "test' UNION ALL SELECT password FROM admin"
     = Done "test' union_all_select password FROM admin"
  /\ sanitizeStringInput asciiLib it "admin' OR 1=1--" = Done "admin'_or_1=1__"
  /\ sanitizeStringInput asciiLib it "'; DROP TABLE users;--"
     = Done "';_drop_table users;__"
  /\ sanitizeStringInput asciiLib it "'; DELETE FROM users;--"
     = Done "';_delete_from users;__"
  /\ sanitizeStringInput asciiLib it "test/*comment*/" = Done "test/_*comment*_/"
  /\ sanitizeStringInput asciiLib it "test--comment" = Done "test__comment"
  /\ sanitizeStringInput asciiLib it "'; exec xp_cmdshell('dir');--"
     = Done "'; exec xp_cmd_shell('dir');__"
  /\ sanitizeStringInput asciiLib it "'; UnIoN sElEcT * FROM users--"
     = Done "'; union_select * FROM users__".
Proof. intros it [<-|[<-|[]]]; repeat split. Qed.

Example test_ParamValidators :
  forall it, In it [sourceOrder; reverseOrder] ->
  IDValidator_Validate asciiLib it "project_123_abc" = Done "project_123_abc"
  /\ IDValidator_Validate asciiLib it "project@123#abc" = Done "project_123_abc"
  /\ GenericValidator_Validate asciiLib it "test' OR 1=1--" = Done "test'_or_1=1__"
  /\ ProcessString (globalProcessor asciiLib) it "project@123" ParamTypeID
     = Done "project_123"
  /\ ProcessString (globalProcessor asciiLib) it "test' OR 1=1" ParamTypeGeneric
     = Done "test'_or_1=1".
Proof. intros it [<-|[<-|[]]]; repeat split. Qed.

Example test_Literal :
  forall it, In it [sourceOrder; reverseOrder] ->
  literal asciiLib it VNil = Done ("NULL", None)
  /\ literal asciiLib it (VBool true) = Done ("true", None)
  /\ literal asciiLib it (VBool false) = Done ("false", None)
  /\ literal asciiLib it (VInt 123) = Done ("123", None)
  /\ literal asciiLib it (VString "hello") = Done ("'hello'", None)
  /\ literal asciiLib it (VString "project_123_abc") = Done ("'project_123_abc'", None)
  /\ literal asciiLib it (VString "'; DROP TABLE users;--")
     = Done ("'''; drop_table users;__'", None)
  /\ literal asciiLib it (VBytes "hello") = Done ("'hello'", None)
  /\ literal asciiLib it (VBytes "'; UNION SELECT * FROM users--")
     = Done ("'''; union_select * FROM users__'", None).
Proof. intros it [<-|[<-|[]]]; repeat split. Qed.

Example test_Expand :
  forall it, In it [sourceOrder; reverseOrder] ->
  Expand asciiLib (fun _ => it) "SELECT * FROM users WHERE id = ?" [VInt 123]
  = Done ("SELECT * FROM users WHERE id = 123", None)
  /\ Expand asciiLib (fun _ => it) "SELECT * FROM users WHERE id = ? AND name = ?"
       [VInt 123; VString "john"]
     = Done ("SELECT * FROM users WHERE id = 123 AND name = 'john'", None)
  /\ Expand asciiLib (fun _ => it) "SELECT * FROM users WHERE name = ?"
       [VString "'; DROP TABLE users;--"]
     = Done ("SELECT * FROM users WHERE name = '''; drop_table users;__'", None)
  /\ Expand asciiLib (fun _ => it) "SELECT * FROM users WHERE id = ?"
       [VInt 123; VString "extra"]
     = Done (EmptyString, Some errMoreValues)
  /\ Expand asciiLib (fun _ => it) "SELECT * FROM users WHERE id = ? AND name = ?"
       [VInt 123]
     = Done (EmptyString, Some errMorePlaceholders)
  /\ Expand asciiLib (fun _ => it) "INSERT INTO table (col1, col2) VALUES (?, ?)"
       [VNil; VString "value"]
     = Done ("INSERT INTO table (col1, col2) VALUES (NULL, 'value')", None)
  /\ Expand asciiLib (fun _ => it)
       "SELECT * FROM logs WHERE created_at > ? AND status = ?"
       [VString "2023-01-01 00:00:00"; VString "active"]
     = Done ("SELECT * FROM logs WHERE created_at > '2023-01-01 00:00:00' AND status = 'active'",
             None).
Proof. intros it [<-|[<-|[]]]; repeat split. Qed.

(* ------------------------------------------------------------------ *)
(** ** Further properties *)

(** X2.  The output of a validator can depend on the order in which Go
    ranges over the blocklist map: on ["; update or 1=1"] the Generic
    validator returns ["; update_or 1=1"] in the order of the map literal
    and ["; update_or_1=1"] in the reverse order. *)
Theorem GenericValidator_order_dependent :
  MapIter_ok sourceOrder /\ MapIter_ok reverseOrder
  /\ GenericValidator_Validate asciiLib sourceOrder "; update or 1=1"
     = Done "; update_or 1=1"
  /\ GenericValidator_Validate asciiLib reverseOrder "; update or 1=1"
     = Done "; update_or_1=1".
Proof.
  split; [apply sourceOrder_ok|]. split; [|split; reflexivity].
  intros m. apply Permutation_sym, Permutation_rev.
Qed.

(** [literal] on values that are not text: nil is [NULL], a boolean
    is [true] or [false], an integer its decimal text; a value of a type
    without encoding gives an empty text and the error naming the type; a
    [driver.Valuer] is encoded as the value it resolves to, and its error
    is returned unchanged. *)
Theorem literal_scalars (lib : GoLib) (it : MapIter) :
  literal lib it VNil = Done ("NULL", None)
  /\ literal lib it (VBool true) = Done ("true", None)
  /\ literal lib it (VBool false) = Done ("false", None)
  /\ literal lib it (VInt 123) = Done ("123", None)
  /\ literal lib it (VInt (-45)) = Done ("-45", None)
  /\ literal lib it (VInt 0) = Done ("0", None)
  /\ (forall typeName,
        literal lib it (VOther typeName)
        = Done (EmptyString, Some (errorString ("unsupported type " ++ typeName))))
  /\ (forall typeName dv,
        literal lib it (VValuerOk typeName dv) = literal lib it dv)
  /\ (forall typeName err,
        literal lib it (VValuerErr typeName err) = Done (EmptyString, Some err)).
Proof. repeat split. Qed.

(** X4.  [Expand] returns or panics when the calls of [Value()] end.  Its
    own loop and the loop of [replaceCaseInsensitive] on the non-empty
    patterns of the blocklists end, whatever the library functions return;
    [literal] ends exactly when every call of [Value()] it makes returns or
    panics; and a Valuer that is reached and whose [Value()] does not
    return, or returns Valuers without end, keeps [Expand] from
    returning. *)
Theorem Expand_terminates (lib : GoLib) (sched : nat -> MapIter)
  (sql : string) (vars : list Value) :
  (forall i, MapIter_ok (sched i)) ->
  (forallb valuerEnds vars = true ->
   terminated (Expand lib sched sql vars) = true)
  /\ (forall i v, terminated (literal lib (sched i) v) = valuerEnds v)
  /\ (forall v, valuerEnds v = false ->
        terminated (Expand lib sched "?" [v]) = false).
Proof.
  intros Hs. split; [|split].
  - intros Hv.
    pose proof (ExpandLoop_terminates lib sched vars (String.length sql + 1)
                  (valuerEnds_no_Diverge lib sched vars Hs Hv)
                  sql 0 EmptyString ltac:(lia)) as H.
    unfold Expand. destruct (ExpandLoop _ _ _ _ _ _ _); auto; contradiction.
  - intros i v. apply literal_terminates, Hs.
  - intros v Hv.
    pose proof (literal_terminates lib (sched 0) v (Hs 0)) as H. rewrite Hv in H.
    unfold Expand. cbn. destruct (literal lib (sched 0) v); [discriminate H| discriminate H|reflexivity].
Qed.

Lemma Expand_terminates_witness :
  terminated (Expand aStrokeLib (fun _ => sourceOrder)
                "SELECT ?, ?"
                [VString "Ⱥ--"; VValuerOk "T" (VValuerPanic "U")]) = true.
Proof.
  exact (proj1 (Expand_terminates aStrokeLib (fun _ => sourceOrder)
                  "SELECT ?, ?" [VString "Ⱥ--"; VValuerOk "T" (VValuerPanic "U")]
                  (fun _ => sourceOrder_ok)) eq_refl).
Defined.

(** The other blocklists.  On ASCII input, in whatever order the maps are
    ranged over, the lower-casing of what the Generic validator and
    [sanitizeStringInput] return contains no pattern of their blocklists,
    and the lower-casing of what the Description validator returns contains
    no pattern of its blocklist other than [--]: its replacement [_-]
    followed by a hyphen shows the pattern again. *)
Theorem blocklists_single_pass (lib : GoLib) (it : MapIter) (s : string) :
  GoLib_ascii lib -> MapIter_ok it -> isASCII s = true ->
  (exists out,
      GenericValidator_Validate lib it s = Done out
      /\ forall q r, In (q, r) GenericValidator_dangerousPatterns ->
           Contains (strings_ToLower lib out) q = false)
  /\ (exists out,
        sanitizeStringInput lib it s = Done out
        /\ forall q r, In (q, r) sanitizeStringInput_dangerousPatterns ->
             Contains (strings_ToLower lib out) q = false)
  /\ (exists out,
        DescriptionValidator_Validate lib it s = Done out
        /\ forall q r, In (q, r) DescriptionValidator_dangerousPatterns ->
             q <> "--" ->
             Contains (strings_ToLower lib out) q = false)
  /\ DescriptionValidator_Validate asciiLib sourceOrder "a---b" = Done "a_--b"
  /\ DescriptionValidator_Validate asciiLib reverseOrder "a---b" = Done "a_--b".
Proof.
  intros H Hit Hs. pose proof H as (HN & HL & HT).
  repeat split; try reflexivity.
  - unfold GenericValidator_Validate. rewrite (HN s Hs).
    rewrite HT by (apply collapseSpaces_ascii; repeat apply ReplaceAll_ascii; auto).
    fold (normalizeSpaces s).
    destruct (rangePatterns_neutralizes lib it GenericValidator_dangerousPatterns
                (normalizeSpaces s) H Hit eq_refl) as (out & -> & Hascii & Hout).
    { apply asciiTrimSpace_ascii, collapseSpaces_ascii;
        repeat apply ReplaceAll_ascii; auto. }
    simpl. eexists. split; [reflexivity|]. intros q r Hq.
    rewrite HL by now apply allBytes_truncate.
    apply Contains_truncate, Hout.
    assert (Hall : forallb (fun p => neutralizedBy GenericValidator_dangerousPatterns (fst p))
                     GenericValidator_dangerousPatterns = true)
      by (vm_compute; reflexivity).
    rewrite forallb_forall in Hall. exact (Hall (q, r) Hq).
  - unfold sanitizeStringInput.
    destruct (rangePatterns_neutralizes lib it sanitizeStringInput_dangerousPatterns
                (truncate 65535 s) H Hit eq_refl) as (out & -> & Hascii & Hout).
    { now apply allBytes_truncate. }
    eexists. split; [reflexivity|]. intros q r Hq.
    rewrite HL by assumption. apply Hout.
    assert (Hall : forallb (fun p => neutralizedBy sanitizeStringInput_dangerousPatterns (fst p))
                     sanitizeStringInput_dangerousPatterns = true)
      by (vm_compute; reflexivity).
    rewrite forallb_forall in Hall. exact (Hall (q, r) Hq).
  - unfold DescriptionValidator_Validate. rewrite (HN s Hs).
    destruct (rangePatterns_neutralizes lib it DescriptionValidator_dangerousPatterns
                (ReplaceAll (ReplaceAll s (String CR (str1 LF)) (str1 LF))
                   (str1 CR) (str1 LF)) H Hit eq_refl)
      as (out & -> & Hascii & Hout).
    { repeat apply ReplaceAll_ascii; auto. }
    simpl. eexists. split; [reflexivity|]. intros q r Hq Hne.
    rewrite HL by now apply allBytes_truncate.
    apply Contains_truncate, Hout.
    assert (Hall : forallb (fun p => String.eqb (fst p) "--"
                                     || neutralizedBy DescriptionValidator_dangerousPatterns (fst p))
                     DescriptionValidator_dangerousPatterns = true)
      by (vm_compute; reflexivity).
    rewrite forallb_forall in Hall. specialize (Hall (q, r) Hq). cbn [fst] in Hall.
    apply orb_true_iff in Hall as [Hall|Hall]; [|exact Hall].
    apply String.eqb_eq in Hall. contradiction.
Qed.

Lemma blocklists_single_pass_witness :
  exists out,
    GenericValidator_Validate asciiLib sourceOrder "1; DROP TABLE users -- x" = Done out
    /\ forall q r, In (q, r) GenericValidator_dangerousPatterns ->
         Contains (strings_ToLower asciiLib out) q = false.
Proof.
  exact (proj1 (blocklists_single_pass asciiLib sourceOrder
                  "1; DROP TABLE users -- x" asciiLib_ascii sourceOrder_ok eq_refl)).
Defined.

(* ------------------------------------------------------------------ *)
(** ** The escaper, read back *)

Lemma readBody_escapeAll (s rest : string) :
  HasPrefix rest (str1 SQUOTE) = false ->
  readBody (escapeAll s ++ String SQUOTE rest) = Some (s, rest).
Proof.
  intros Hrest. induction s as [|c s IH].
  - cbn [escapeAll append].
    destruct rest as [|d rest]; [reflexivity|].
    change (readBody (String SQUOTE (String d rest)))
      with (if Ascii.eqb d SQUOTE then consResult SQUOTE (readBody rest)
            else Some (EmptyString, String d rest)).
    destruct (Ascii.eqb_spec d SQUOTE) as [->|_]; [discriminate Hrest|reflexivity].
  - cbn [escapeAll].
    destruct c as [[] [] [] [] [] [] [] []];
      cbn [escapeByte]; cbn; rewrite IH; reflexivity.
Qed.

Lemma escapeByte_length (c : ascii) :
  1 <= String.length (escapeByte c) <= 2.
Proof. destruct c as [[] [] [] [] [] [] [] []]; cbn; lia. Qed.

Lemma escapeAll_length (s : string) :
  String.length s <= String.length (escapeAll s) <= 2 * String.length s.
Proof.
  induction s as [|c s IH]; cbn [escapeAll String.length]; [lia|].
  rewrite length_append. pose proof (escapeByte_length c). lia.
Qed.

Lemma escapeAll_no_control (s : string) :
  allBytes (fun c => negb (isControlByte c)) (escapeAll s) = true.
Proof.
  induction s as [|c s IH]; [reflexivity|].
  cbn [escapeAll]. rewrite allBytes_app, IH, andb_true_r.
  destruct c as [[] [] [] [] [] [] [] []]; reflexivity.
Qed.

Lemma quoteString_escapeAll (s : string) :
  quoteString s = String SQUOTE (escapeAll s ++ str1 SQUOTE).
Proof.
  unfold quoteString. rewrite !ReplaceAll_byte.
  fold (escapeInOrder s). now rewrite escapeInOrder_all.
Qed.

(** X6.  [quoteString] loses nothing and writes no raw control byte:
    two texts with the same literal are the same text; the literal is at
    least two bytes and at most twice-plus-two bytes longer than the text;
    and it holds no line feed, carriage return, tab, NUL or 0x1A byte. *)
Theorem quoteString_injective :
  (forall s1 s2, quoteString s1 = quoteString s2 -> s1 = s2)
  /\ (forall s, String.length s + 2 <= String.length (quoteString s)
                <= 2 * String.length s + 2)
  /\ (forall s, allBytes (fun c => negb (isControlByte c)) (quoteString s) = true).
Proof.
  split; [|split].
  - intros s1 s2 H. rewrite !quoteString_escapeAll in H.
    injection H as H.
    pose proof (readBody_escapeAll s1 EmptyString eq_refl) as H1.
    pose proof (readBody_escapeAll s2 EmptyString eq_refl) as H2.
    unfold str1 in H. rewrite H in H1. congruence.
  - intros s. rewrite quoteString_escapeAll. cbn [String.length].
    rewrite length_append. cbn [String.length str1].
    pose proof (escapeAll_length s). lia.
  - intros s. rewrite quoteString_escapeAll. cbn [allBytes].
    rewrite allBytes_app, escapeAll_no_control. reflexivity.
Qed.

(** X7.  A literal written by [quoteString] and followed by any text
    that does not begin with a quote is read back, with backslash escapes
    and doubled quotes, as the text it was made from; the reading stops at
    the closing quote the function wrote. *)
Theorem quoteString_read_back (s rest : string) :
  HasPrefix rest (str1 SQUOTE) = false ->
  readLiteral (quoteString s ++ rest) = Some (s, rest).
Proof.
  intros H. rewrite quoteString_escapeAll.
  cbn [append readLiteral]. rewrite Ascii.eqb_refl.
  rewrite append_assoc. cbn [str1 append]. now apply readBody_escapeAll.
Qed.

Lemma quoteString_read_back_witness :
  readLiteral (quoteString "it's" ++ " AND x = 1") = Some ("it's", " AND x = 1").
Proof. exact (quoteString_read_back "it's" " AND x = 1" eq_refl). Defined.

(* ------------------------------------------------------------------ *)
(** ** The registry of validators *)

Lemma ParamType_eqb_eq (a b : ParamType) : ParamType_eqb a b = true <-> a = b.
Proof. destruct a, b; simpl; split; intros H; congruence. Qed.

Lemma ParamType_eqb_refl (a : ParamType) : ParamType_eqb a a = true.
Proof. now destruct a. Qed.

Lemma ParamType_eqb_neq (a b : ParamType) : a <> b -> ParamType_eqb a b = false.
Proof. destruct a, b; simpl; intros H; congruence. Qed.

(** X8.  The registry is a map keyed by the type each validator reports:
    a validator is found under its type right after it is registered,
    registering leaves the other types alone, a second registration for
    the same type replaces the first, a type without validator is served by
    the Generic validator, and when that one is missing too the call of
    [ProcessString] panics (a method call on a nil interface). *)
Theorem registry_laws (tap : TypeAwareProcessor) (v : ParamValidator) :
  GetValidator (RegisterValidator tap v) (GetType v) = Some v
  /\ (forall t, t <> GetType v ->
        validators (RegisterValidator tap v) t = validators tap t)
  /\ (forall w t, GetType w = GetType v ->
        validators (RegisterValidator (RegisterValidator tap v) w) t
        = validators (RegisterValidator tap w) t)
  /\ (forall t, validators tap t = None ->
        GetValidator tap t = validators tap ParamTypeGeneric)
  /\ (forall t it s, validators tap t = None ->
        validators tap ParamTypeGeneric = None ->
        ProcessString tap it s t = Panic)
  /\ (forall t w it s, validators tap t = Some w ->
        ProcessString tap it s t = Validate w it s).
Proof.
  repeat split.
  - unfold GetValidator, RegisterValidator. cbn [validators].
    now rewrite ParamType_eqb_refl.
  - intros t Ht. cbn. now rewrite ParamType_eqb_neq.
  - intros w t Hw. cbn. rewrite Hw.
    destruct (ParamType_eqb t (GetType v)); reflexivity.
  - intros t Ht. unfold GetValidator. now rewrite Ht.
  - intros t it s Ht Hg. unfold ProcessString, GetValidator. now rewrite Ht, Hg.
  - intros t w it s Ht. unfold ProcessString, GetValidator. now rewrite Ht.
Qed.

(* ------------------------------------------------------------------ *)
(** ** More on Expand *)

Section ExpandMore.

Variable lib : GoLib.
Variable sched : nat -> MapIter.

Lemma literal_error_no_text (it : MapIter) (v : Value) (txt : string) (e : error) :
  literal lib it v = Done (txt, Some e) -> txt = EmptyString.
Proof.
  induction v; cbn [literal reflectFloat bind]; intros H;
    try discriminate; auto; try congruence.
  - apply bind_Done in H as (x & _ & H). discriminate.
  - apply bind_Done in H as (x & _ & H). discriminate.
Qed.

Lemma ExpandLoop_error_no_text (fuel : nat) :
  forall sql vars argI buf txt e,
    ExpandLoop lib fuel sched sql vars argI buf = Done (txt, Some e) ->
    txt = EmptyString.
Proof.
  induction fuel as [|fuel IH]; intros sql vars argI buf txt e H; [discriminate|].
  cbn [ExpandLoop] in H.
  destruct (IndexByte sql "?") as [pos|].
  - destruct (List.length vars <=? argI); [congruence|].
    apply bind_Done in H as (head & _ & H).
    destruct (nth_error vars argI) as [v|]; [|discriminate].
    apply bind_Done in H as ([lit [err|]] & _ & H); [congruence|].
    apply bind_Done in H as (sql' & _ & H). eauto.
  - destruct (negb _); congruence.
Qed.

(** What a successful run of the loop has done. *)
Lemma ExpandLoop_success (fuel : nat) :
  forall sql buf pre vs txt,
    ExpandLoop lib fuel sched sql (pre ++ vs) (List.length pre) buf
    = Done (txt, None) ->
    placeholders sql = List.length vs
    /\ exists lits, encodes lib sched (List.length pre) vs lits
                    /\ txt = buf ++ fill sql lits.
Proof.
  induction fuel as [|fuel IH]; intros sql buf pre vs txt H; [discriminate|].
  cbn [ExpandLoop] in H.
  destruct (IndexByte sql "?") as [pos|] eqn:EI.
  - destruct (IndexByte_Some _ _ EI) as (Hpos & Hcount & Hfill).
    destruct (List.length (pre ++ vs) <=? List.length pre) eqn:EL; [discriminate|].
    rewrite sliceTo_ok in H by lia. cbn [bind] in H.
    destruct vs as [|v vs].
    { rewrite app_nil_r, Nat.leb_refl in EL. discriminate. }
    rewrite nth_error_middle in H.
    apply bind_Done in H as ([lit [err|]] & Hlit & H); [discriminate|].
    rewrite sliceFrom_ok in H by lia. cbn [bind] in H.
    replace (pre ++ v :: vs)%list with ((pre ++ [v]) ++ vs)%list in H
      by (now rewrite <- app_assoc).
    replace (S (List.length pre)) with (List.length (pre ++ [v])%list) in H
      by (rewrite length_app; simpl; lia).
    apply IH in H as (HC & lits & HE & ->).
    split; [simpl; lia|].
    exists (lit :: lits). split.
    + split; [exact Hlit|].
      rewrite length_app in HE. simpl in HE.
      now replace (List.length pre + 1) with (S (List.length pre)) in HE by lia.
    + now rewrite Hfill, !append_assoc.
  - destruct (IndexByte_None _ _ EI []) as [Hcount Hfill].
    simpl in Hcount.
    destruct (Nat.eqb_spec (List.length pre) (List.length (pre ++ vs))) as [E|E];
      [|discriminate].
    simpl in H. injection H as <-.
    rewrite length_app in E. destruct vs; [|simpl in E; lia].
    split; [exact Hcount|]. exists []. split; [exact I|].
    now rewrite (proj2 (IndexByte_None _ _ EI []) eq_refl).
Qed.

(** The loop up to the first value that [literal] does not encode. *)
Lemma ExpandLoop_first_failure (fuel : nat) :
  forall sql buf done pre v post lits,
    List.length pre < placeholders sql ->
    encodes lib sched (List.length done) pre lits ->
    String.length sql < fuel ->
    (forall txt e,
        literal lib (sched (List.length done + List.length pre)) v
        = Done (txt, Some e) ->
        ExpandLoop lib fuel sched sql (done ++ pre ++ v :: post) (List.length done) buf
        = Done (EmptyString, Some e))
    /\ (literal lib (sched (List.length done + List.length pre)) v = Panic ->
        ExpandLoop lib fuel sched sql (done ++ pre ++ v :: post) (List.length done) buf
        = Panic).
Proof.
  induction fuel as [|fuel IH]; intros sql buf done pre v post lits HC HE HF; [lia|].
  cbn [ExpandLoop].
  destruct (IndexByte sql "?") as [pos|] eqn:EI.
  - destruct (IndexByte_Some _ _ EI) as (Hpos & Hcount & _).
    rewrite !length_app. cbn [List.length].
    destruct (Nat.leb_spec (List.length done + (List.length pre + S (List.length post)))
                (List.length done)); [lia|].
    rewrite sliceTo_ok by lia. cbn [bind].
    destruct pre as [|p pre].
    + cbn [app List.length]. rewrite nth_error_middle, Nat.add_0_r.
      split; [intros txt e ->|intros ->]; reflexivity.
    + destruct lits as [|lit lits]; [contradiction|]. destruct HE as [Hlit HE].
      cbn [app]. rewrite nth_error_middle, Hlit. cbn [bind].
      rewrite sliceFrom_ok by lia. cbn [bind].
      replace (done ++ p :: pre ++ v :: post)%list
        with ((done ++ [p]) ++ pre ++ v :: post)%list
        by (now rewrite <- app_assoc).
      replace (S (List.length done)) with (List.length (done ++ [p])%list)
        by (rewrite length_app; simpl; lia).
      replace (List.length done + List.length (p :: pre))
        with (List.length (done ++ [p])%list + List.length pre)
        by (rewrite length_app; simpl; lia).
      apply (IH _ _ _ _ _ _ lits).
      * simpl in HC. lia.
      * rewrite length_app. simpl.
        now replace (List.length done + 1) with (S (List.length done)) by lia.
      * rewrite drop_length. lia.
  - destruct (IndexByte_None _ _ EI []) as [Hcount _]. simpl in Hcount. lia.
Qed.

Lemma ExpandLoop_no_panic (vars : list Value) (fuel : nat) :
  (forall i v, nth_error vars i = Some v -> literal lib (sched i) v <> Panic) ->
  forall sql argI buf,
    ExpandLoop lib fuel sched sql vars argI buf <> Panic.
Proof.
  intros Hv. induction fuel as [|fuel IH]; intros sql argI buf; [discriminate|].
  cbn [ExpandLoop].
  destruct (IndexByte sql "?") as [pos|] eqn:EI.
  - destruct (IndexByte_Some _ _ EI) as (Hpos & _).
    destruct (Nat.leb_spec (List.length vars) argI); [discriminate|].
    rewrite sliceTo_ok by lia. cbn [bind].
    destruct (nth_error vars argI) as [v|] eqn:En.
    + pose proof (Hv argI v En) as Hl.
      destruct (literal lib (sched argI) v) as [[lit [err|]]| |];
        cbn [bind]; try discriminate; try contradiction.
      rewrite sliceFrom_ok by lia. cbn [bind]. apply IH.
    + apply nth_error_None in En. lia.
  - destruct (negb _); discriminate.
Qed.

End ExpandMore.

Lemma placeholders_app (a b : string) :
  placeholders (a ++ b) = placeholders a + placeholders b.
Proof.
  induction a as [|c a IH]; simpl; auto.
  destruct (Ascii.eqb c "?"); simpl; lia.
Qed.

Lemma fill_app (a b : string) :
  forall la lb, placeholders a = List.length la ->
    fill (a ++ b) (la ++ lb) = fill a la ++ fill b lb.
Proof.
  induction a as [|c a IH]; intros la lb H; simpl in *.
  - destruct la; [reflexivity|discriminate].
  - destruct (Ascii.eqb c "?").
    + destruct la as [|l la]; [discriminate|]. simpl in *.
      rewrite IH by lia. now rewrite append_assoc.
    + simpl. now rewrite IH.
Qed.

Lemma encodes_length (lib : GoLib) (sched : nat -> MapIter) (vs : list Value) :
  forall i lits, encodes lib sched i vs lits -> List.length lits = List.length vs.
Proof.
  induction vs as [|v vs IH]; intros i [|l lits] H; simpl in *; try contradiction; auto.
  destruct H as [_ H]. f_equal. eauto.
Qed.

Lemma encodes_app (lib : GoLib) (sched : nat -> MapIter) (vs1 vs2 : list Value) :
  forall i l1 l2,
    encodes lib sched i vs1 l1 ->
    encodes lib sched (i + List.length vs1) vs2 l2 ->
    encodes lib sched i (vs1 ++ vs2) (l1 ++ l2).
Proof.
  induction vs1 as [|v vs1 IH]; intros i [|l l1] l2 H1 H2; simpl in *;
    try contradiction.
  - now rewrite Nat.add_0_r in H2.
  - destruct H1 as [Hl H1]. split; [exact Hl|].
    apply IH; auto. now replace (S i + List.length vs1) with (i + S (List.length vs1)) by lia.
Qed.

Lemma encodes_join_l (lib : GoLib) (sched1 sched2 : nat -> MapIter) (k : nat)
  (vs : list Value) :
  forall i lits,
    i + List.length vs <= k ->
    encodes lib sched1 i vs lits ->
    encodes lib (joinSched k sched1 sched2) i vs lits.
Proof.
  induction vs as [|v vs IH]; intros i [|l lits] Hk H; simpl in *; auto.
  destruct H as [Hl H]. split.
  - unfold joinSched. destruct (Nat.ltb_spec i k); [exact Hl|lia].
  - apply IH; auto. lia.
Qed.

Lemma encodes_join_r (lib : GoLib) (sched1 sched2 : nat -> MapIter) (k : nat)
  (vs : list Value) :
  forall i lits,
    encodes lib sched2 i vs lits ->
    encodes lib (joinSched k sched1 sched2) (k + i) vs lits.
Proof.
  induction vs as [|v vs IH]; intros i [|l lits] H; simpl in *; auto.
  destruct H as [Hl H]. split.
  - unfold joinSched. destruct (Nat.ltb_spec (k + i) k); [lia|].
    now replace (k + i - k) with i by lia.
  - replace (S (k + i)) with (k + S i) by lia. auto.
Qed.

(** X9.  [Expand] succeeds exactly when the template has as many
    placeholders as there are values and [literal] encodes every value
    without error; its text is then the template with the placeholders
    filled from left to right. *)
Theorem Expand_success_iff (lib : GoLib) (sched : nat -> MapIter)
  (sql : string) (vars : list Value) (txt : string) :
  Expand lib sched sql vars = Done (txt, None)
  <-> placeholders sql = List.length vars
      /\ exists lits, encodes lib sched 0 vars lits /\ txt = fill sql lits.
Proof.
  unfold Expand. split.
  - intros H.
    apply (ExpandLoop_success lib sched _ sql EmptyString [] vars txt) in H.
    exact H.
  - intros (HC & lits & HE & ->).
    apply (ExpandLoop_fill lib sched _ sql EmptyString [] vars lits); auto. lia.
Qed.

(** X10.  An error never comes with a text: whenever [literal] or
    [Expand] returns a non-nil error, the string returned with it is
    empty, whatever part of the template was already expanded. *)
Theorem Expand_error_no_text (lib : GoLib) (sched : nat -> MapIter) :
  (forall it v txt e, literal lib it v = Done (txt, Some e) -> txt = EmptyString)
  /\ (forall sql vars txt e,
        Expand lib sched sql vars = Done (txt, Some e) -> txt = EmptyString).
Proof.
  split.
  - intros it v txt e. apply literal_error_no_text.
  - intros sql vars txt e. apply ExpandLoop_error_no_text.
Qed.

(** X11.  Values are encoded from left to right and the first one that
    [literal] does not encode decides: when the values before it are
    encoded and a placeholder is left for it, [Expand] returns its error
    (and panics if [literal] panics on it), whatever follows it in the list
    and however many placeholders the template has. *)
Theorem Expand_first_failure (lib : GoLib) (sched : nat -> MapIter)
  (sql : string) (pre : list Value) (v : Value) (post : list Value)
  (lits : list string) :
  List.length pre < placeholders sql ->
  encodes lib sched 0 pre lits ->
  (forall txt e,
      literal lib (sched (List.length pre)) v = Done (txt, Some e) ->
      Expand lib sched sql (pre ++ v :: post) = Done (EmptyString, Some e))
  /\ (literal lib (sched (List.length pre)) v = Panic ->
      Expand lib sched sql (pre ++ v :: post) = Panic).
Proof.
  intros HC HE. unfold Expand.
  apply (ExpandLoop_first_failure lib sched _ sql EmptyString [] pre v post lits);
    auto. lia.
Qed.

Lemma Expand_first_failure_witness :
  Expand asciiLib (fun _ => sourceOrder) "INSERT INTO t VALUES (?, ?, ?)"
    [VInt 1; VOther "chan int"; VOther "func()"]
  = Done (EmptyString, Some (errUnsupported "chan int")).
Proof.
  exact (proj1 (Expand_first_failure asciiLib (fun _ => sourceOrder)
                  "INSERT INTO t VALUES (?, ?, ?)" [VInt 1] (VOther "chan int")
                  [VOther "func()"] ["1"] ltac:(simpl; lia) (conj eq_refl I))
           EmptyString (errUnsupported "chan int") eq_refl).
Defined.

(** X12.  Expansion goes with concatenation, the map orders included:
    when a template expands with its values, its calls of [literal]
    ranging over the maps in the orders [sched1], and a second template
    expands with its own values in the orders [sched2], then the
    concatenated template expands, with the two lists of values one after
    the other, to the concatenation of the two texts when its calls use
    the orders of the first run followed by those of the second. *)
Theorem Expand_app (lib : GoLib) (sched1 sched2 : nat -> MapIter)
  (sql1 sql2 : string) (vars1 vars2 : list Value) (t1 t2 : string) :
  Expand lib sched1 sql1 vars1 = Done (t1, None) ->
  Expand lib sched2 sql2 vars2 = Done (t2, None) ->
  Expand lib (joinSched (List.length vars1) sched1 sched2)
    (sql1 ++ sql2) (vars1 ++ vars2)
  = Done (t1 ++ t2, None).
Proof.
  intros H1 H2.
  apply (ExpandLoop_success lib sched1 _ sql1 EmptyString [] vars1 t1) in H1
    as (HC1 & l1 & HE1 & ->).
  apply (ExpandLoop_success lib sched2 _ sql2 EmptyString [] vars2 t2) in H2
    as (HC2 & l2 & HE2 & ->).
  cbn [append].
  rewrite <- fill_app by (rewrite (encodes_length _ _ _ _ _ HE1); exact HC1).
  unfold Expand.
  apply (ExpandLoop_fill lib _ _ _ EmptyString [] (vars1 ++ vars2) (l1 ++ l2)).
  - rewrite placeholders_app, length_app. lia.
  - cbn [List.length] in *. apply encodes_app.
    + apply encodes_join_l; auto.
    + apply (encodes_join_r lib sched1 sched2 (List.length vars1)) in HE2.
      now rewrite Nat.add_0_r in HE2.
  - lia.
Qed.

Lemma Expand_app_witness :
  Expand asciiLib (joinSched 1 (fun _ => sourceOrder) (fun _ => reverseOrder))
    ("a ? " ++ "b ?") ([VInt 1] ++ [VString "; update or 1=1"])
  = Done ("a 1 " ++ "b '; update_or_1=1'", None).
Proof.
  exact (Expand_app asciiLib (fun _ => sourceOrder) (fun _ => reverseOrder)
           "a ? " "b ?" [VInt 1] [VString "; update or 1=1"]
           "a 1 " "b '; update_or_1=1'" eq_refl eq_refl).
Defined.

(* ------------------------------------------------------------------ *)
(** ** The type inferrer, on bytes *)

Lemma byte_range (c : ascii) : (0 <= byte c < 256)%Z.
Proof.
  unfold byte. pose proof (N_ascii_bounded c). lia.
Qed.

Lemma chr_byte (c : ascii) : chr (byte c) = c.
Proof.
  unfold chr, byte. rewrite N2Z.id. apply ascii_N_embedding.
Qed.

Lemma lor_big (a b : Z) : (128 <= a)%Z -> (0 <= b)%Z -> (128 <= Z.lor a b)%Z.
Proof.
  intros Ha Hb.
  assert (H0 : (0 <= Z.lor a b)%Z) by (apply Z.lor_nonneg; lia).
  assert (HL : (7 <= Z.log2 (Z.lor a b))%Z).
  { rewrite Z.log2_lor by lia.
    assert (7 <= Z.log2 a)%Z by (apply (Z.log2_le_pow2 a 7); lia). lia. }
  assert (Hpos : (0 < Z.lor a b)%Z).
  { destruct (Z.eq_dec (Z.lor a b) 0) as [E|E]; [|lia].
    rewrite E in HL. simpl in HL. lia. }
  apply (Z.log2_le_pow2 _ 7) in HL; auto.
Qed.

Lemma lor_big_r (a b : Z) : (0 <= a)%Z -> (128 <= b)%Z -> (128 <= Z.lor a b)%Z.
Proof. intros. rewrite Z.lor_comm. now apply lor_big. Qed.

Lemma low6_nonneg (c : ascii) : (0 <= low6 c)%Z.
Proof. unfold low6. apply Z.land_nonneg. right. lia. Qed.

Lemma low6_mod (c : ascii) : low6 c = (byte c mod 64)%Z.
Proof. unfold low6. change 63%Z with (Z.ones 6). now rewrite Z.land_ones by lia. Qed.

Lemma not_ID_big (r : rune) : (128 <= r)%Z -> isIDRune r = false.
Proof.
  intros H. destruct (isIDRune r) eqn:E; auto.
  apply isIDRune_range in E. lia.
Qed.

Lemma not_CJK_small (r : rune) : (r < 128)%Z -> isCJKRune r = false.
Proof.
  intros H. unfold isCJKRune, inRange.
  repeat (match goal with |- context [(?a <=? ?b)%Z] =>
            destruct (Z.leb_spec a b) end); simpl; auto; lia.
Qed.

(** The first rune of a text that begins with a byte of 128 or more is
    128 or more. *)
Lemma runes_high (c0 : ascii) (s1 : string) :
  (128 <= byte c0)%Z ->
  exists r rest, runes (String c0 s1) = r :: rest /\ (128 <= r)%Z.
Proof.
  intros H. cbn [runes].
  destruct (Z.ltb_spec (byte c0) 128); [lia|].
  unfold RuneError.
  assert (HE : forall l, exists r rest, (65533 :: l)%Z = r :: rest /\ (128 <= r)%Z).
  { intros l. exists 65533%Z, l. split; auto. lia. }
  destruct (inRange 194 223 (byte c0)) eqn:E2.
  { destruct s1 as [|c1 s2]; [apply HE|].
    destruct (isCont c1); [|apply HE].
    eexists _, _. split; [reflexivity|].
    apply lor_big; [|apply low6_nonneg].
    unfold inRange in E2. apply andb_true_iff in E2 as [A B].
    apply Z.leb_le in A, B.
    change 31%Z with (Z.ones 5). rewrite Z.land_ones, Z.shiftl_mul_pow2 by lia.
    change (2 ^ 5)%Z with 32%Z. change (2 ^ 6)%Z with 64%Z.
    Z.div_mod_to_equations. lia. }
  destruct (inRange 224 239 (byte c0)) eqn:E3.
  { destruct s1 as [|c1 [|c2 s3]]; try apply HE.
    destruct (inRange _ _ (byte c1) && isCont c2) eqn:EC; [|apply HE].
    eexists _, _. split; [reflexivity|].
    apply andb_true_iff in EC as [EC _].
    unfold inRange in E3, EC. apply andb_true_iff in E3 as [A B].
    apply andb_true_iff in EC as [C D].
    apply Z.leb_le in A, B, C, D.
    pose proof (byte_range c1). pose proof (low6_nonneg c1). pose proof (low6_nonneg c2).
    destruct (Z.eq_dec (byte c0) 224) as [E0|E0].
    - apply lor_big_r.
      + apply Z.shiftl_nonneg, Z.land_nonneg. right. lia.
      + apply lor_big; [|lia].
        rewrite low6_mod, Z.shiftl_mul_pow2 by lia. change (2 ^ 6)%Z with 64%Z.
        unfold secondLo, secondHi in C, D. rewrite E0 in C, D. simpl in C, D.
        Z.div_mod_to_equations. lia.
    - apply lor_big.
      + change 15%Z with (Z.ones 4). rewrite Z.land_ones, Z.shiftl_mul_pow2 by lia.
        change (2 ^ 4)%Z with 16%Z. change (2 ^ 12)%Z with 4096%Z.
        Z.div_mod_to_equations. lia.
      + apply Z.lor_nonneg. split; [apply Z.shiftl_nonneg|]; lia. }
  destruct (inRange 240 244 (byte c0)) eqn:E4; [|apply HE].
  destruct s1 as [|c1 [|c2 [|c3 s4]]]; try apply HE.
  destruct (inRange _ _ (byte c1) && isCont c2 && isCont c3) eqn:EC; [|apply HE].
  eexists _, _. split; [reflexivity|].
  apply andb_true_iff in EC as [EC _]. apply andb_true_iff in EC as [EC _].
  unfold inRange in E4, EC. apply andb_true_iff in E4 as [A B].
  apply andb_true_iff in EC as [C D].
  apply Z.leb_le in A, B, C, D.
  pose proof (byte_range c1). pose proof (low6_nonneg c1).
  pose proof (low6_nonneg c2). pose proof (low6_nonneg c3).
  assert (Hin : (0 <= Z.lor (Z.shiftl (low6 c2) 6) (low6 c3))%Z).
  { apply Z.lor_nonneg. split; [apply Z.shiftl_nonneg|]; lia. }
  destruct (Z.eq_dec (byte c0) 240) as [E0|E0].
  - apply lor_big_r.
    + apply Z.shiftl_nonneg, Z.land_nonneg. right. lia.
    + apply lor_big; [|lia].
      rewrite low6_mod, Z.shiftl_mul_pow2 by lia. change (2 ^ 12)%Z with 4096%Z.
      unfold secondLo, secondHi in C, D. rewrite E0 in C, D. simpl in C, D.
      Z.div_mod_to_equations. lia.
  - apply lor_big.
    + change 7%Z with (Z.ones 3). rewrite Z.land_ones, Z.shiftl_mul_pow2 by lia.
      change (2 ^ 3)%Z with 8%Z. change (2 ^ 18)%Z with 262144%Z.
      Z.div_mod_to_equations. lia.
    + apply Z.lor_nonneg. split; [apply Z.shiftl_nonneg|]; lia.
Qed.

Lemma runes_ID (s : string) : forallb isIDRune (runes s) = allBytes isIDByte s.
Proof.
  induction s as [|c s IH]; [reflexivity|].
  destruct (Z.ltb_spec (byte c) 128) as [Hlt|Hge].
  - cbn [runes]. destruct (Z.ltb_spec (byte c) 128); [|lia].
    cbn [forallb allBytes]. now rewrite IH.
  - destruct (runes_high c s Hge) as (r & rest & -> & Hr).
    cbn [forallb allBytes]. unfold isIDByte.
    now rewrite (not_ID_big r Hr), (not_ID_big (byte c) Hge).
Qed.

Lemma runes_ascii_not_CJK (s : string) :
  isASCII s = true -> existsb isCJKRune (runes s) = false.
Proof.
  induction s as [|c s IH]; [reflexivity|].
  unfold isASCII. cbn [allBytes]. intros H. apply andb_true_iff in H as [Hc Hs].
  unfold isASCIIByte in Hc. cbn [runes]. rewrite Hc.
  cbn [existsb]. apply Z.ltb_lt in Hc. rewrite (not_CJK_small _ Hc). now apply IH.
Qed.

Lemma Contains_allBytes (P : ascii -> bool) (s p : string) :
  Contains s p = true -> allBytes P s = true -> allBytes P p = true.
Proof.
  intros H Hs. apply Contains_split in H as (a & b & ->).
  rewrite !allBytes_app in Hs.
  apply andb_true_iff in Hs as [_ Hs]. now apply andb_true_iff in Hs as [Hs _].
Qed.

Lemma namePatterns_not_in_ascii (s : string) :
  isASCII s = true -> existsb (Contains s) namePatterns = false.
Proof.
  intros Hs. apply not_true_is_false. intros H.
  apply existsb_exists in H as (p & Hp & Hc).
  apply (Contains_allBytes isASCIIByte s p Hc) in Hs.
  unfold namePatterns in Hp.
  repeat (destruct Hp as [<-|Hp]; [discriminate Hs|]). destruct Hp.
Qed.

Lemma InferType_unfold (s : string) :
  InferType s =
  if String.length s =? 0 then ParamTypeGeneric
  else if (String.length s <=? 100) && allBytes isIDByte s then ParamTypeID
  else if (500 <? String.length s) || Contains s (str1 LF) || Contains s (str1 CR)
  then ParamTypeDescription
  else if existsb isCJKRune (runes s) || existsb (Contains s) namePatterns
  then ParamTypeName else ParamTypeGeneric.
Proof.
  unfold InferType.
  rewrite InferType_isID_forallb, InferType_hasChinese_existsb, runes_ID.
  destruct (_ =? 0); [reflexivity|].
  destruct (_ && _); [reflexivity|].
  destruct (_ || _ || _); [reflexivity|].
  destruct (existsb isCJKRune _); cbn [negb orb]; [reflexivity|].
  now rewrite InferType_hasNamePattern_existsb.
Qed.

Lemma Contains_byte_not_ID (s : string) (c : ascii) :
  isIDByte c = false -> Contains s (str1 c) = true -> allBytes isIDByte s = false.
Proof.
  intros Hc H. apply not_true_is_false. intros Hs.
  apply (Contains_allBytes isIDByte s (str1 c) H) in Hs.
  simpl in Hs. rewrite Hc in Hs. discriminate.
Qed.

(** X14.  [InferType] read on bytes.  A text is an ID exactly when it
    has between 1 and 100 bytes, all of them in [A-Za-z0-9_-] (a rune
    decoded from several bytes, or from an invalid byte, is never in that
    set); a text of more than 500 bytes, or with a line feed or a carriage
    return, is a Description; and an ASCII text is never a Name. *)
Theorem InferType_by_bytes :
  (forall s, InferType s = ParamTypeID
             <-> 1 <= String.length s <= 100 /\ allBytes isIDByte s = true)
  /\ (forall s, 500 < String.length s \/ Contains s (str1 LF) = true
                \/ Contains s (str1 CR) = true ->
                InferType s = ParamTypeDescription)
  /\ (forall s, isASCII s = true -> InferType s <> ParamTypeName).
Proof.
  split; [|split].
  - intros s. rewrite InferType_unfold.
    destruct (Nat.eqb_spec (String.length s) 0) as [E|E].
    { split; [discriminate|]. lia. }
    destruct (Nat.leb_spec (String.length s) 100) as [L|L];
      destruct (allBytes isIDByte s) eqn:EA; cbn [andb].
    + split; auto. intros _. split; [lia|reflexivity].
    + split; [|intros [_ ?]; discriminate].
      destruct (_ || _ || _); [discriminate|]. destruct (_ || _); discriminate.
    + split; [|lia].
      destruct (_ || _ || _); [discriminate|]. destruct (_ || _); discriminate.
    + split; [|lia].
      destruct (_ || _ || _); [discriminate|]. destruct (_ || _); discriminate.
  - intros s H. rewrite InferType_unfold.
    assert (HID : (String.length s <=? 100) && allBytes isIDByte s = false).
    { destruct H as [H|[H|H]].
      - destruct (Nat.leb_spec (String.length s) 100); [lia|reflexivity].
      - rewrite (Contains_byte_not_ID s LF eq_refl H). apply andb_false_r.
      - rewrite (Contains_byte_not_ID s CR eq_refl H). apply andb_false_r. }
    assert (HN : (String.length s =? 0) = false).
    { apply Nat.eqb_neq. intros E. destruct s; [|discriminate].
      destruct H as [H|[H|H]]; [simpl in H; lia|discriminate|discriminate]. }
    rewrite HN, HID.
    destruct H as [H|[H|H]].
    + apply Nat.ltb_lt in H. now rewrite H.
    + rewrite H. now rewrite orb_true_r.
    + rewrite H. now rewrite orb_true_r.
  - intros s Hs. rewrite InferType_unfold.
    rewrite (runes_ascii_not_CJK s Hs), (namePatterns_not_in_ascii s Hs).
    cbn [orb].
    destruct (_ =? 0); [discriminate|].
    destruct (_ && _); [discriminate|].
    destruct (_ || _ || _); discriminate.
Qed.

(* ------------------------------------------------------------------ *)
(** ** Identifiers *)

Lemma isIDByte_ascii (c : ascii) : isIDByte c = true -> isASCIIByte c = true.
Proof.
  unfold isIDByte, isASCIIByte. intros H. apply isIDRune_range in H.
  apply Z.ltb_lt. lia.
Qed.

Lemma idClean_ID (s : string) :
  allBytes isIDByte s = true -> idClean (runes s) = s.
Proof.
  induction s as [|c s IH]; [reflexivity|].
  cbn [allBytes]. intros H. apply andb_true_iff in H as [Hc Hs].
  pose proof (isIDByte_ascii c Hc) as Ha. unfold isASCIIByte in Ha.
  cbn [runes]. rewrite Ha. cbn [idClean]. unfold idCleanRune.
  unfold isIDByte in Hc. rewrite Hc, chr_byte, IH by assumption. reflexivity.
Qed.

Lemma idClean_length (rs : list rune) :
  String.length (idClean rs) = List.length rs.
Proof.
  induction rs as [|r rs IH]; [reflexivity|].
  cbn [idClean]. rewrite length_append, IH.
  unfold idCleanRune. destruct (isIDRune r); reflexivity.
Qed.

Lemma truncate_short (n : nat) (s : string) :
  String.length s <= n -> truncate n s = s.
Proof.
  intros H. unfold truncate. destruct (Nat.ltb_spec n (String.length s)); [lia|reflexivity].
Qed.

Lemma truncate_length_min (n : nat) (s : string) :
  String.length (truncate n s) = Nat.min n (String.length s).
Proof.
  unfold truncate. destruct (Nat.ltb_spec n (String.length s)).
  - rewrite take_length. reflexivity.
  - lia.
Qed.

Lemma IDValidator_fixpoint (lib : GoLib) (it : MapIter) (x : string) :
  (forall s, isASCII s = true -> norm_NFKC lib s = s) ->
  allBytes isIDByte x = true -> String.length x <= 100 ->
  IDValidator_Validate lib it x = Done x.
Proof.
  intros HN Hx HL. unfold IDValidator_Validate.
  rewrite HN by (eapply allBytes_impl; [apply isIDByte_ascii|exact Hx]).
  rewrite IDValidator_loop_idClean. cbn [append].
  now rewrite idClean_ID, truncate_short.
Qed.

(** X15.  With a normalisation that leaves ASCII text unchanged, the ID
    validator gives one byte for every rune of the normalised input, up to
    100; validating its output again changes nothing; a non-empty output
    is itself inferred as an ID; and a text of at most 100 bytes of
    [A-Za-z0-9_-] is returned as it is. *)
Theorem IDValidator_idempotent (lib : GoLib) (it : MapIter) (s : string) :
  (forall s', isASCII s' = true -> norm_NFKC lib s' = s') ->
  exists out,
    IDValidator_Validate lib it s = Done out
    /\ String.length out = Nat.min 100 (List.length (runes (norm_NFKC lib s)))
    /\ (forall it', IDValidator_Validate lib it' out = Done out)
    /\ (out <> EmptyString -> InferType out = ParamTypeID)
    /\ (allBytes isIDByte s = true -> String.length s <= 100 -> out = s).
Proof.
  intros HN. unfold IDValidator_Validate at 1.
  rewrite IDValidator_loop_idClean. cbn [append].
  set (out := truncate 100 (idClean (runes (norm_NFKC lib s)))).
  assert (Hout : allBytes isIDByte out = true)
    by apply allBytes_truncate, idClean_allowed.
  assert (Hlen : String.length out <= 100) by apply truncate_length.
  exists out. split; [reflexivity|]. split; [|split; [|split]].
  - unfold out. now rewrite truncate_length_min, idClean_length.
  - intros it'. now apply IDValidator_fixpoint.
  - intros Hne. rewrite InferType_unfold.
    destruct (Nat.eqb_spec (String.length out) 0) as [E|E].
    { destruct out; [contradiction|discriminate]. }
    rewrite Hout. destruct (Nat.leb_spec (String.length out) 100); [reflexivity|lia].
  - intros Hs HL. unfold out.
    rewrite HN by (eapply allBytes_impl; [apply isIDByte_ascii|exact Hs]).
    now rewrite idClean_ID, truncate_short.
Qed.

Lemma IDValidator_idempotent_witness :
  exists out,
    IDValidator_Validate asciiLib sourceOrder "user@example.com" = Done out
    /\ String.length out
       = Nat.min 100 (List.length (runes (norm_NFKC asciiLib "user@example.com")))
    /\ (forall it', IDValidator_Validate asciiLib it' out = Done out)
    /\ (out <> EmptyString -> InferType out = ParamTypeID)
    /\ (allBytes isIDByte "user@example.com" = true ->
        String.length "user@example.com" <= 100 -> out = "user@example.com").
Proof.
  exact (IDValidator_idempotent asciiLib sourceOrder "user@example.com"
           (fun s' _ => eq_refl)).
Defined.

Lemma escapeByte_ID (c : ascii) : isIDByte c = true -> escapeByte c = str1 c.
Proof.
  destruct c as [[] [] [] [] [] [] [] []]; intros H;
    first [reflexivity | discriminate H].
Qed.

Lemma escapeAll_ID (s : string) : allBytes isIDByte s = true -> escapeAll s = s.
Proof.
  induction s as [|c s IH]; [reflexivity|].
  cbn [allBytes]. intros H. apply andb_true_iff in H as [Hc Hs].
  cbn [escapeAll]. now rewrite escapeByte_ID, IH.
Qed.

(** X16.  A string inferred as an ID is written between quotes as it
    is: neither the validator nor the escaper changes a byte of it. *)
Theorem literal_ID_verbatim (lib : GoLib) (it : MapIter) (s : string) :
  (forall s', isASCII s' = true -> norm_NFKC lib s' = s') ->
  InferType s = ParamTypeID ->
  literal lib it (VString s) = Done (str1 SQUOTE ++ s ++ str1 SQUOTE, None).
Proof.
  intros HN HT. cbn [literal]. rewrite ProcessString_validateAs, HT.
  cbn [validateAs].
  rewrite InferType_unfold in HT.
  destruct (String.length s =? 0); [discriminate|].
  destruct (Nat.leb_spec (String.length s) 100) as [L|L];
    destruct (allBytes isIDByte s) eqn:EA; cbn [andb] in HT;
    try (destruct (_ || _ || _); [discriminate|]; destruct (_ || _); discriminate).
  rewrite IDValidator_fixpoint by assumption. cbn [bind].
  rewrite quoteString_escapeAll, escapeAll_ID by assumption. reflexivity.
Qed.

Lemma literal_ID_verbatim_witness :
  literal asciiLib sourceOrder (VString "order_2024-001")
  = Done (str1 SQUOTE ++ "order_2024-001" ++ str1 SQUOTE, None).
Proof.
  exact (literal_ID_verbatim asciiLib sourceOrder "order_2024-001"
           (fun s' _ => eq_refl) eq_refl).
Defined.

(* ------------------------------------------------------------------ *)
(** ** Edges of replaceCaseInsensitive *)

(** With an empty pattern every turn of the loop finds an occurrence at
    [lastEnd] and leaves [lastEnd] where it is. *)
Lemma replaceLoop_empty_pattern (fuel : nat) (s sLower new : string) :
  forall lastEnd acc,
    lastEnd <= String.length sLower -> lastEnd <= String.length s ->
    replaceLoop fuel s sLower EmptyString new 0 lastEnd acc = Diverge.
Proof.
  induction fuel as [|fuel IH]; intros lastEnd acc H1 H2; [reflexivity|].
  cbn [replaceLoop]. rewrite sliceFrom_ok by assumption. cbn [bind].
  rewrite Index_unfold. cbn [HasPrefix].
  rewrite !Nat.add_0_r, slice_ok by lia. cbn [bind].
  now apply IH.
Qed.

Lemma replaceLoop_no_occurrence (fuel : nat) (s sLower oldLower new : string)
  (lenOld : nat) :
  Index sLower oldLower = None ->
  replaceLoop (S fuel) s sLower oldLower new lenOld 0 EmptyString = Done s.
Proof.
  intros H. cbn [replaceLoop]. rewrite sliceFrom_ok by lia. cbn [bind drop].
  rewrite H. rewrite sliceFrom_ok by lia. reflexivity.
Qed.

(** The loop does not panic when the lower-cased text is not longer than
    the text and the pattern keeps its length. *)
Lemma replaceLoop_no_panic (fuel : nat) (s sLower oldLower new : string) :
  String.length sLower <= String.length s ->
  forall lastEnd acc,
    lastEnd <= String.length sLower ->
    replaceLoop fuel s sLower oldLower new (String.length oldLower) lastEnd acc
    <> Panic.
Proof.
  intros HL. induction fuel as [|fuel IH]; intros lastEnd acc HE; [discriminate|].
  cbn [replaceLoop]. rewrite sliceFrom_ok by assumption. cbn [bind].
  destruct (Index (drop lastEnd sLower) oldLower) as [index|] eqn:EI.
  - pose proof (Index_bound _ _ _ EI) as HB. rewrite drop_length in HB.
    rewrite slice_ok by lia. cbn [bind]. apply IH. lia.
  - rewrite sliceFrom_ok by lia. discriminate.
Qed.

(** X17.  Two edges of [replaceCaseInsensitive].  With an empty pattern
    the loop finds an occurrence at the same offset for ever: no amount of
    fuel lets it return.  With a pattern that does not occur in the
    lower-cased text, the text is returned as it is. *)
Theorem replaceCaseInsensitive_edges (lib : GoLib) (s new : string) :
  (strings_ToLower lib EmptyString = EmptyString ->
   (forall fuel,
       replaceLoop fuel s (strings_ToLower lib s) EmptyString new 0 0 EmptyString
       = Diverge)
   /\ replaceCaseInsensitive lib s EmptyString new = Diverge)
  /\ (forall old,
        Contains (strings_ToLower lib s) (strings_ToLower lib old) = false ->
        replaceCaseInsensitive lib s old new = Done s).
Proof.
  split.
  - intros HE. split.
    + intros fuel. apply replaceLoop_empty_pattern; lia.
    + unfold replaceCaseInsensitive. rewrite HE.
      apply replaceLoop_empty_pattern; simpl; lia.
  - intros old H. unfold replaceCaseInsensitive, Contains in *.
    destruct (Index _ _) eqn:E; [discriminate|].
    rewrite Nat.add_comm. now apply replaceLoop_no_occurrence.
Qed.

(** X18.  [replaceCaseInsensitive] returns, without panic, whenever
    lower-casing does not make the text longer and keeps the length of the
    non-empty pattern: the offsets found in the lower-cased text are then
    offsets of the text. *)
Theorem replaceCaseInsensitive_no_panic (lib : GoLib) (s old new : string) :
  String.length (strings_ToLower lib s) <= String.length s ->
  String.length (strings_ToLower lib old) = String.length old ->
  1 <= String.length old ->
  exists out, replaceCaseInsensitive lib s old new = Done out.
Proof.
  intros HS HO HP.
  pose proof (replaceCaseInsensitive_terminates lib s old new HP) as HD.
  unfold replaceCaseInsensitive in *. rewrite <- HO in *.
  pose proof (replaceLoop_no_panic (String.length (strings_ToLower lib s) + 2) s
                (strings_ToLower lib s) (strings_ToLower lib old) new HS
                0 EmptyString ltac:(lia)) as HP'.
  destruct (replaceLoop _ _ _ _ _ _ _ _); [eauto|contradiction|contradiction].
Qed.

Lemma replaceCaseInsensitive_no_panic_witness :
  exists out, replaceCaseInsensitive aStrokeLib "a--b -- c" "--" "__" = Done out.
Proof.
  exact (replaceCaseInsensitive_no_panic aStrokeLib "a--b -- c" "--" "__"
           (le_n 9) eq_refl (le_S 1 1 (le_n 1))).
Defined.

(* ------------------------------------------------------------------ *)
(** ** What literal and Expand return *)

Lemma literal_ascii_returns (lib : GoLib) (it : MapIter) (v : Value) :
  GoLib_ascii lib -> MapIter_ok it ->
  asciiValue v = true -> valuerReturns v = true ->
  exists r, literal lib it v = Done r.
Proof.
  intros H Hit.
  induction v; cbn [asciiValue valuerReturns literal reflectFloat bind];
    intros Hv Hr; eauto; try discriminate.
  - rewrite ProcessString_validateAs.
    destruct (validateAs_ascii_returns lib it (InferType s) s H Hit Hv) as (out & -> & _).
    cbn [bind]. eauto.
  - rewrite ProcessString_validateAs.
    destruct (validateAs_ascii_returns lib it (InferType b) b H Hit Hv) as (out & -> & _).
    cbn [bind]. eauto.
Qed.

Lemma Expand_returns_if (lib : GoLib) (sched : nat -> MapIter)
  (sql : string) (vars : list Value) :
  (forall i v, nth_error vars i = Some v ->
               exists r, literal lib (sched i) v = Done r) ->
  exists r, Expand lib sched sql vars = Done r.
Proof.
  intros Hv. unfold Expand.
  assert (HD : ExpandLoop lib (String.length sql + 1) sched sql vars 0 EmptyString
               <> Diverge).
  { apply ExpandLoop_terminates; [|lia].
    intros i v Hi. destruct (Hv i v Hi) as (r & ->). discriminate. }
  assert (HP : ExpandLoop lib (String.length sql + 1) sched sql vars 0 EmptyString
               <> Panic).
  { apply ExpandLoop_no_panic. intros i v Hi. destruct (Hv i v Hi) as (r & ->).
    discriminate. }
  destruct (ExpandLoop _ _ _ _ _ _ _); [eauto|contradiction|contradiction].
Qed.

(** X13.  The steps of [Expand] itself neither panic nor hang: [Expand]
    returns whenever [literal] returns on each value.  With a library that
    behaves as documented on ASCII text it does so on every list of values
    whose strings and byte slices are ASCII and whose Valuers return, a
    value or an error, when [Value()] is called.  A Valuer that is reached
    and whose [Value()] panics makes [Expand] panic. *)
Theorem Expand_returns (lib : GoLib) (sched : nat -> MapIter)
  (sql : string) (vars : list Value) :
  ((forall i v, nth_error vars i = Some v ->
                exists r, literal lib (sched i) v = Done r) ->
   exists r, Expand lib sched sql vars = Done r)
  /\ (GoLib_ascii lib -> (forall i, MapIter_ok (sched i)) ->
      forallb asciiValue vars = true ->
      forallb valuerReturns vars = true ->
      exists r, Expand lib sched sql vars = Done r)
  /\ (forall typeName, Expand lib sched "?" [VValuerPanic typeName] = Panic).
Proof.
  split; [|split].
  - apply Expand_returns_if.
  - intros H Hs Hv Hr. apply Expand_returns_if.
    intros i v Hi. rewrite forallb_forall in Hv, Hr.
    apply nth_error_In in Hi.
    apply (literal_ascii_returns lib (sched i) v H (Hs i)); auto.
  - reflexivity.
Qed.

Lemma Expand_returns_witness :
  exists r,
    Expand asciiLib (fun _ => sourceOrder) "UPDATE t SET a = ?, b = ? WHERE c = ?"
      [VString "x' OR 1=1 --"; VValuerOk "sql.NullString" (VString "y"); VOther "T"]
    = Done r.
Proof.
  exact (proj1 (proj2 (Expand_returns asciiLib (fun _ => sourceOrder)
                  "UPDATE t SET a = ?, b = ? WHERE c = ?"
                  [VString "x' OR 1=1 --"; VValuerOk "sql.NullString" (VString "y");
                   VOther "T"]))
           asciiLib_ascii (fun _ => sourceOrder_ok) eq_refl eq_refl).
Defined.

(** X19.  The literal of a string is short and carries no raw control
    byte: whatever [literal] returns for a string comes with a nil error,
    is at most twice the cap of the validator used plus two bytes long (so
    at most 20002 bytes, for any input), and holds no line feed, carriage
    return, tab, NUL or 0x1A byte. *)
Theorem literal_text_bounded (lib : GoLib) (it : MapIter) (s txt : string)
  (e : option error) :
  literal lib it (VString s) = Done (txt, e) ->
  e = None
  /\ String.length txt <= 2 * lengthCap (InferType s) + 2
  /\ String.length txt <= 20002
  /\ allBytes (fun c => negb (isControlByte c)) txt = true.
Proof.
  cbn [literal]. rewrite ProcessString_validateAs. intros H.
  apply bind_Done in H as (out & Hout & H). injection H as <- <-.
  pose proof (validateAs_cap lib it (InferType s) s out _ eq_refl Hout) as Hcap.
  fold (lengthCap (InferType s)) in Hcap.
  rewrite quoteString_escapeAll.
  pose proof (escapeAll_length out) as HL.
  split; [reflexivity|].
  assert (HT : String.length (String SQUOTE (escapeAll out ++ str1 SQUOTE))
               <= 2 * lengthCap (InferType s) + 2).
  { cbn [String.length]. rewrite length_append. cbn [String.length str1]. lia. }
  split; [exact HT|]. split.
  { eapply Nat.le_trans; [exact HT|].
    destruct (InferType s); apply Nat.leb_le; vm_compute; reflexivity. }
  cbn [allBytes]. rewrite allBytes_app, escapeAll_no_control. reflexivity.
Qed.

Lemma literal_text_bounded_witness :
  @None error = None
  /\ String.length (String.append "'line1" (String BACKSLASH "nline2'"))
     <= 2 * lengthCap (InferType (String.append "line1" (String LF "line2"))) + 2
  /\ String.length (String.append "'line1" (String BACKSLASH "nline2'")) <= 20002
  /\ allBytes (fun c => negb (isControlByte c))
       (String.append "'line1" (String BACKSLASH "nline2'")) = true.
Proof.
  exact (literal_text_bounded asciiLib sourceOrder
           (String.append "line1" (String LF "line2"))
           (String.append "'line1" (String BACKSLASH "nline2'")) None eq_refl).
Defined.

Lemma string_of_uint_digits (d : Decimal.uint) :
  allBytes isDigitByte (NilEmpty.string_of_uint d) = true.
Proof. induction d; simpl; auto. Qed.

Lemma string_of_uint_nonempty (d : Decimal.uint) :
  d <> Decimal.Nil -> 1 <= String.length (NilEmpty.string_of_uint d).
Proof. destruct d; simpl; intros H; try lia. contradiction. Qed.

(** X3.  The literal of an integer is its decimal notation: a minus
    sign for a negative number, then at least one digit and nothing but
    digits; read back as a decimal number it gives the integer. *)
Theorem literal_int_decimal (lib : GoLib) (it : MapIter) (n : Z) :
  exists digits,
    literal lib it (VInt n)
    = Done ((if (n <? 0)%Z then "-" else "") ++ digits, None)
    /\ 1 <= String.length digits
    /\ allBytes isDigitByte digits = true
    /\ option_map Z.of_int
         (NilZero.int_of_string ((if (n <? 0)%Z then "-" else "") ++ digits))
       = Some n.
Proof.
  assert (HR : option_map Z.of_int (NilZero.int_of_string (Sprintf_d n)) = Some n).
  { unfold Sprintf_d. rewrite NilZero.isi.
    - simpl. now rewrite DecimalZ.of_to.
    - destruct n; simpl; try discriminate.
      intros E. injection E as E. now apply Unsigned.to_uint_nonnil in E.
    - destruct n; simpl; try discriminate.
      intros E. injection E as E. now apply Unsigned.to_uint_nonnil in E. }
  cbn [literal]. destruct n as [|p|p].
  - exists "0". repeat split; auto.
  - exists (NilEmpty.string_of_uint (Pos.to_uint p)).
    assert (E : Sprintf_d (Z.pos p) = NilEmpty.string_of_uint (Pos.to_uint p)).
    { unfold Sprintf_d. simpl. pose proof (Unsigned.to_uint_nonnil p).
      destruct (Pos.to_uint p); try reflexivity. contradiction. }
    rewrite E in *. cbn [Z.ltb Z.compare append].
    repeat split; auto using string_of_uint_digits.
    apply string_of_uint_nonempty, Unsigned.to_uint_nonnil.
  - exists (NilEmpty.string_of_uint (Pos.to_uint p)).
    assert (E : Sprintf_d (Z.neg p)
                = String "-" (NilEmpty.string_of_uint (Pos.to_uint p))).
    { unfold Sprintf_d. simpl. pose proof (Unsigned.to_uint_nonnil p).
      destruct (Pos.to_uint p); try reflexivity. contradiction. }
    rewrite E in *. cbn [Z.ltb Z.compare append].
    repeat split; auto using string_of_uint_digits.
    apply string_of_uint_nonempty, Unsigned.to_uint_nonnil.
Qed.

(* ------------------------------------------------------------------ *)
(** ** Whitespace, clean text and validating twice *)

Lemma Contains_two_spaces (c : ascii) (x : string) :
  Contains (String c x) "  "
  = (Ascii.eqb " " c && HasPrefix x " ") || Contains x "  ".
Proof.
  unfold Contains. rewrite Index_unfold.
  change (HasPrefix (String c x) "  ") with (Ascii.eqb " " c && HasPrefix x " ").
  destruct (Ascii.eqb " " c && HasPrefix x " "); [reflexivity|].
  cbn [orb]. destruct (Index x "  "); reflexivity.
Qed.

Lemma regexpSpace_not_kept (c : ascii) :
  isRegexpSpace c = false -> Ascii.eqb " " c = false.
Proof.
  intros H. destruct (Ascii.eqb_spec " "%char c) as [<-|]; [discriminate H|reflexivity].
Qed.

Lemma collapseSpaces_two_spaces (z : string) :
  forall b, Contains (collapseSpaces b z) "  " = false
            /\ (b = true -> HasPrefix (collapseSpaces b z) " " = false).
Proof.
  induction z as [|c z IH]; intros b; [split; reflexivity|].
  cbn [collapseSpaces]. destruct (isRegexpSpace c) eqn:E.
  - destruct (IH true) as [H1 H2]. destruct b.
    + auto.
    + split; [|discriminate]. rewrite Contains_two_spaces, H1, H2; auto.
  - destruct (IH false) as [H1 _].
    rewrite Contains_two_spaces, H1, (regexpSpace_not_kept c E). split; auto.
    intros _. cbn [HasPrefix]. now rewrite (regexpSpace_not_kept c E).
Qed.

Lemma collapseSpaces_kept (z : string) :
  forall b, allBytes keptByte (collapseSpaces b z) = true.
Proof.
  induction z as [|c z IH]; intros b; [reflexivity|].
  cbn [collapseSpaces]. destruct (isRegexpSpace c) eqn:E.
  - destruct b; cbn [allBytes]; auto. now rewrite IH.
  - cbn [allBytes]. unfold keptByte at 1. rewrite E. cbn. apply IH.
Qed.

Lemma trimLeft_suffix (x : string) : exists a, x = a ++ trimLeft x.
Proof.
  induction x as [|c x [a IH]]; [now exists EmptyString|].
  cbn [trimLeft]. destruct (isAsciiSpace c).
  - exists (String c a). simpl. now f_equal.
  - now exists EmptyString.
Qed.

Lemma trimRight_prefix (x : string) : exists b, x = trimRight x ++ b.
Proof.
  induction x as [|c x [b IH]]; [now exists EmptyString|].
  cbn [trimRight]. destruct (trimRight x) as [|d t] eqn:E.
  - destruct (isAsciiSpace c).
    + now exists (String c x).
    + exists x. reflexivity.
  - exists b. simpl. f_equal. exact IH.
Qed.

Lemma startsClean_trimLeft (x : string) : startsClean (trimLeft x) = true.
Proof.
  induction x as [|c x IH]; [reflexivity|].
  cbn [trimLeft]. destruct (isAsciiSpace c) eqn:E; auto.
  simpl. now rewrite E.
Qed.

Lemma startsClean_trimRight (x : string) :
  startsClean x = true -> startsClean (trimRight x) = true.
Proof.
  destruct x as [|c x]; [reflexivity|]. cbn [startsClean trimRight]. intros H.
  destruct (trimRight x).
  - apply negb_true_iff in H. rewrite H. simpl. now rewrite H.
  - exact H.
Qed.

Lemma endsClean_trimRight (x : string) : endsClean (trimRight x) = true.
Proof.
  induction x as [|c x IH]; [reflexivity|].
  cbn [trimRight]. destruct (trimRight x) as [|d t] eqn:E.
  - destruct (isAsciiSpace c) eqn:Ec; [reflexivity|]. simpl. now rewrite Ec.
  - exact IH.
Qed.

Lemma trimLeft_clean (x : string) : startsClean x = true -> trimLeft x = x.
Proof.
  destruct x as [|c x]; [reflexivity|]. simpl. intros H.
  apply negb_true_iff in H. now rewrite H.
Qed.

Lemma trimRight_clean (x : string) : endsClean x = true -> trimRight x = x.
Proof.
  induction x as [|c x IH]; [reflexivity|].
  intros H. cbn [trimRight]. destruct x as [|d x].
  - simpl in *. apply negb_true_iff in H. now rewrite H.
  - rewrite IH by exact H. reflexivity.
Qed.

Lemma spaceNormal_parts (x : string) :
  spaceNormal x = true
  <-> allBytes keptByte x = true /\ Contains x "  " = false
      /\ startsClean x = true /\ endsClean x = true.
Proof.
  unfold spaceNormal. rewrite !andb_true_iff, negb_true_iff. tauto.
Qed.

(** What the whitespace policy returns is in normal form. *)
Lemma normalizeSpaces_normal (s : string) : spaceNormal (normalizeSpaces s) = true.
Proof.
  unfold normalizeSpaces.
  set (y := collapseSpaces false _).
  pose proof (collapseSpaces_kept _ false : allBytes keptByte y = true) as Hk.
  pose proof (proj1 (collapseSpaces_two_spaces _ false) : Contains y "  " = false) as Hc.
  unfold asciiTrimSpace.
  destruct (trimLeft_suffix y) as [a Ha].
  destruct (trimRight_prefix (trimLeft y)) as [b Hb].
  apply spaceNormal_parts. repeat split.
  - rewrite Ha, Hb, !allBytes_app in Hk.
    apply andb_true_iff in Hk as [_ Hk]. now apply andb_true_iff in Hk as [Hk _].
  - rewrite Ha in Hc. apply Contains_false_app_r in Hc.
    rewrite Hb in Hc. now apply Contains_false_app_l in Hc.
  - apply startsClean_trimRight, startsClean_trimLeft.
  - apply endsClean_trimRight.
Qed.

Lemma substByte_absent (a : ascii) (new x : string) :
  allBytes (fun c => negb (Ascii.eqb c a)) x = true -> substByte a new x = x.
Proof.
  induction x as [|c x IH]; [reflexivity|].
  cbn [allBytes substByte]. intros H. apply andb_true_iff in H as [Hc Hx].
  apply negb_true_iff in Hc. rewrite Hc, IH by assumption. reflexivity.
Qed.

Lemma keptByte_not (a : ascii) (x : string) :
  keptByte a = false ->
  allBytes keptByte x = true -> allBytes (fun c => negb (Ascii.eqb c a)) x = true.
Proof.
  intros Ha. apply allBytes_impl. intros c Hc.
  destruct (Ascii.eqb_spec c a) as [->|]; [congruence|reflexivity].
Qed.

Lemma collapseSpaces_normal (x : string) :
  allBytes keptByte x = true -> Contains x "  " = false ->
  collapseSpaces false x = x
  /\ (HasPrefix x " " = false -> collapseSpaces true x = x).
Proof.
  induction x as [|c x IH]; [split; reflexivity|].
  cbn [allBytes]. intros Hk Hc. apply andb_true_iff in Hk as [Hkc Hk].
  rewrite Contains_two_spaces in Hc. apply orb_false_iff in Hc as [Hc1 Hc2].
  destruct (IH Hk Hc2) as [IH1 IH2].
  cbn [collapseSpaces]. destruct (isRegexpSpace c) eqn:E.
  - unfold keptByte in Hkc. rewrite E in Hkc. cbn in Hkc.
    apply Ascii.eqb_eq in Hkc. subst c.
    rewrite Ascii.eqb_refl in Hc1. cbn [andb] in Hc1.
    split.
    + now rewrite IH2.
    + cbn [HasPrefix]. rewrite Ascii.eqb_refl. discriminate.
  - rewrite IH1. split; reflexivity.
Qed.

(** A text in normal form is a fixed point of the whitespace policy. *)
Lemma normalizeSpaces_fixpoint (x : string) :
  spaceNormal x = true -> normalizeSpaces x = x.
Proof.
  intros H. apply spaceNormal_parts in H as (Hk & Hc & Hs & He).
  unfold normalizeSpaces. rewrite !ReplaceAll_byte.
  rewrite (substByte_absent TAB) by (now apply keptByte_not).
  rewrite (substByte_absent LF) by (now apply keptByte_not).
  rewrite (substByte_absent CR) by (now apply keptByte_not).
  rewrite (proj1 (collapseSpaces_normal x Hk Hc)).
  unfold asciiTrimSpace. now rewrite trimLeft_clean, trimRight_clean.
Qed.

Lemma asciiLower_space (c : ascii) :
  Ascii.eqb " " (asciiLower c) = Ascii.eqb " " c.
Proof. destruct c as [[] [] [] [] [] [] [] []]; reflexivity. Qed.

Lemma HasPrefix_lower_space (x : string) :
  HasPrefix (asciiToLower x) " " = HasPrefix x " ".
Proof.
  destruct x as [|c x]; [reflexivity|].
  change (HasPrefix (asciiToLower (String c x)) " ")
    with (Ascii.eqb " " (asciiLower c) && true).
  now rewrite asciiLower_space.
Qed.

Lemma Contains_lower_two_spaces (x : string) :
  Contains (asciiToLower x) "  " = Contains x "  ".
Proof.
  induction x as [|c x IH]; [reflexivity|].
  change (asciiToLower (String c x)) with (String (asciiLower c) (asciiToLower x)).
  now rewrite !Contains_two_spaces, asciiLower_space, HasPrefix_lower_space, IH.
Qed.

Lemma startsClean_app (r y : string) :
  1 <= String.length r -> startsClean (r ++ y) = startsClean r.
Proof. destruct r; simpl; [lia|reflexivity]. Qed.

Lemma scanReplace_startsClean (sLower s pat r : string) :
  startsClean s = true -> startsClean r = true -> 1 <= String.length r ->
  startsClean (scanReplace 0 sLower s pat r) = true.
Proof.
  intros Hs Hr Hl. destruct s as [|c s]; [reflexivity|].
  cbn [scanReplace]. destruct (HasPrefix sLower pat).
  - now rewrite startsClean_app.
  - exact Hs.
Qed.

Lemma endsClean_app (a b : string) :
  endsClean b = true -> 1 <= String.length b -> endsClean (a ++ b) = true.
Proof.
  intros Hb Hl. induction a as [|c a IH]; [exact Hb|].
  cbn [append endsClean]. destruct (a ++ b) eqn:E; [|exact IH].
  destruct a, b; simpl in *; try discriminate; lia.
Qed.

Lemma endsClean_tail (c : ascii) (x : string) :
  endsClean (String c x) = true -> endsClean x = true.
Proof. destruct x; auto. Qed.

Lemma endsClean_drop (k : nat) :
  forall x, endsClean x = true -> endsClean (drop k x) = true.
Proof.
  induction k as [|k IH]; intros x H; [exact H|].
  destruct x as [|c x]; [reflexivity|].
  cbn [drop]. apply IH. now apply endsClean_tail in H.
Qed.

Lemma scanReplace_endsClean (pat r : string) :
  1 <= String.length pat -> endsClean r = true -> 1 <= String.length r ->
  forall n sLower s,
    String.length s <= n -> String.length sLower = String.length s ->
    endsClean s = true ->
    endsClean (scanReplace 0 sLower s pat r) = true.
Proof.
  intros Hp Hr Hl. induction n as [|n IH]; intros sLower s Hn HL Hs.
  - destruct s; [reflexivity|simpl in Hn; lia].
  - destruct (Index sLower pat) as [i|] eqn:EI.
    + pose proof (Index_bound _ _ _ EI) as HB.
      rewrite (scanReplace_match i) by auto.
      set (rest := scanReplace 0 _ _ pat r).
      assert (Hrest : endsClean rest = true).
      { apply IH.
        - rewrite drop_length. lia.
        - now rewrite !drop_length, HL.
        - now apply endsClean_drop. }
      apply endsClean_app; [|rewrite length_append; lia].
      destruct (String.length rest) eqn:E.
      * destruct rest; [|discriminate]. now rewrite append_nil_r.
      * apply endsClean_app; [exact Hrest|lia].
    + now rewrite scanReplace_no_match.
Qed.

Lemma visit_spaceNormal (p : string * string) (s : string) :
  lowerEntry p = true -> spaceSafe p = true -> spaceNormal s = true ->
  exists s', visit asciiLib p s = Done s' /\ spaceNormal s' = true.
Proof.
  intros Hp Hsafe Hs.
  destruct (visit_asciiLib_lower p s Hp) as (s' & Hv & Hl).
  exists s'. split; [exact Hv|].
  assert (Hp' := Hp). unfold lowerEntry, asciiEntry in Hp'.
  apply andb_true_iff in Hp' as [Hp' Hlow]. apply andb_true_iff in Hp' as [_ Hn].
  apply Nat.leb_le in Hn. apply String.eqb_eq in Hlow.
  rewrite visit_asciiLib in Hv by assumption. injection Hv as Hv.
  unfold spaceSafe in Hsafe.
  apply andb_true_iff in Hsafe as [Hsafe Hkeep].
  apply andb_true_iff in Hsafe as [Hsafe Hre].
  apply andb_true_iff in Hsafe as [Hsafe Hrs].
  apply andb_true_iff in Hsafe as [Hrk Hrl]. apply Nat.leb_le in Hrl.
  apply spaceNormal_parts in Hs as (Hk & Hc & Hst & He).
  apply spaceNormal_parts.
  destruct (Contains (asciiToLower s) (fst p)) eqn:EC;
    [|subst s'; repeat split; assumption].
  rewrite Hlow in Hv. repeat split.
  - subst s'. now apply scanReplace_allBytes.
  - rewrite <- Contains_lower_two_spaces, Hl.
    apply (scanReplace_keeps_absent "  " (fst p) (asciiToLower (snd p)) Hkeep
             (String.length (asciiToLower s)) (asciiToLower s) EmptyString); auto.
    cbn [append]. now rewrite Contains_lower_two_spaces.
  - subst s'. now apply scanReplace_startsClean.
  - subst s'.
    apply (scanReplace_endsClean (fst p) (snd p) Hn Hre Hrl (String.length s));
      auto. apply mapString_length.
Qed.

Lemma visitAll_spaceNormal (order : PatternMap) :
  forallb lowerEntry order = true -> forallb spaceSafe order = true ->
  forall s, spaceNormal s = true ->
  exists s', visitAll asciiLib order s = Done s' /\ spaceNormal s' = true.
Proof.
  induction order as [|p order IH]; intros Hl Hsafe s Hs; [simpl; eauto|].
  simpl in Hl, Hsafe.
  apply andb_true_iff in Hl as [Hlp Hl]. apply andb_true_iff in Hsafe as [Hsp Hsafe].
  destruct (visit_spaceNormal p s Hlp Hsp Hs) as (s1 & Hv & Hs1).
  cbn [visitAll]. rewrite Hv. cbn [bind]. now apply IH.
Qed.

Lemma truncate_lt (n : nat) (x : string) :
  String.length (truncate n x) < n -> truncate n x = x.
Proof.
  unfold truncate. destruct (Nat.ltb_spec n (String.length x)); auto.
  rewrite take_length. lia.
Qed.

Lemma startsClean_take (n : nat) (x : string) :
  startsClean x = true -> startsClean (take n x) = true.
Proof. destruct n, x; auto. Qed.

Lemma spaceNormal_truncate (n : nat) (x : string) :
  spaceNormal x = true ->
  allBytes keptByte (truncate n x) = true
  /\ Contains (truncate n x) "  " = false
  /\ startsClean (truncate n x) = true.
Proof.
  intros H. apply spaceNormal_parts in H as (Hk & Hc & Hs & _).
  repeat split.
  - now apply allBytes_truncate.
  - unfold truncate. destruct (n <? String.length x); auto.
    apply (Contains_false_app_l _ (drop n x)). now rewrite take_drop.
  - unfold truncate. destruct (n <? String.length x); auto using startsClean_take.
Qed.

(** The loop of a sanitizer on ASCII text in normal form: what it returns
    is ASCII, in normal form, and shows no neutralized pattern. *)
Lemma rangePatterns_normal (lib : GoLib) (it : MapIter) (table : PatternMap)
  (x : string) :
  GoLib_ascii lib -> MapIter_ok it ->
  forallb lowerEntry table = true -> forallb spaceSafe table = true ->
  isASCII x = true -> spaceNormal x = true ->
  exists res,
    rangePatterns lib (it table) (strings_ToLower lib x) x = Done res
    /\ isASCII res = true /\ spaceNormal res = true
    /\ forall q, neutralizedBy table q = true ->
                 Contains (asciiToLower res) q = false.
Proof.
  intros H Hit Ht Hsafe Hx Hn.
  destruct (rangePatterns_neutralizes lib it table x H Hit Ht Hx)
    as (res & Hres & Hascii & Hq).
  exists res. split; [exact Hres|]. split; [exact Hascii|]. split; [|exact Hq].
  rewrite rangePatterns_visitAll in Hres.
  assert (Hl : forallb lowerEntry (it table) = true)
    by (now rewrite (forallb_Permutation _ _ _ (Hit table))).
  assert (Hs : forallb spaceSafe (it table) = true)
    by (now rewrite (forallb_Permutation _ _ _ (Hit table))).
  assert (Ha : forallb asciiEntry (it table) = true).
  { rewrite forallb_forall in *. intros p Hp. apply Hl in Hp.
    unfold lowerEntry in Hp. now apply andb_true_iff in Hp as [Hp _]. }
  rewrite (visitAll_ascii lib (it table) H Ha x Hx) in Hres.
  destruct (visitAll_spaceNormal (it table) Hl Hs x Hn) as (s' & Hs' & Hn').
  congruence.
Qed.

(** A text that shows no pattern passes the loop unchanged. *)
Lemma rangePatterns_stable (lib : GoLib) (it : MapIter) (table : PatternMap)
  (x : string) :
  GoLib_ascii lib -> MapIter_ok it -> isASCII x = true ->
  (forall p, In p table -> Contains (asciiToLower x) (fst p) = false) ->
  rangePatterns lib (it table) (strings_ToLower lib x) x = Done x.
Proof.
  intros (_ & HL & _) Hit Hx Hq. rewrite rangePatterns_visitAll.
  apply visitAll_nothing_visible. intros p Hp. rewrite (HL x Hx).
  apply Hq. eapply Permutation_in; eauto.
Qed.

Lemma normalizeSpaces_ascii (s : string) :
  isASCII s = true -> isASCII (normalizeSpaces s) = true.
Proof.
  intros H. unfold normalizeSpaces.
  apply asciiTrimSpace_ascii, collapseSpaces_ascii; repeat apply ReplaceAll_ascii; auto.
Qed.

Lemma GenericValidator_on_ascii (lib : GoLib) (it : MapIter) (s : string) :
  GoLib_ascii lib -> isASCII s = true ->
  GenericValidator_Validate lib it s
  = (result <- rangePatterns lib (it GenericValidator_dangerousPatterns)
                 (strings_ToLower lib (normalizeSpaces s)) (normalizeSpaces s) ;;
     Done (truncate 2000 result)).
Proof.
  intros (HN & HL & HT) Hs. unfold GenericValidator_Validate, normalizeSpaces.
  rewrite (HN s Hs).
  now rewrite HT by (apply collapseSpaces_ascii; repeat apply ReplaceAll_ascii; auto).
Qed.

Lemma NameValidator_on_ascii (lib : GoLib) (it : MapIter) (s : string) :
  GoLib_ascii lib -> isASCII s = true ->
  NameValidator_Validate lib it s
  = (result <- rangePatterns lib (it NameValidator_dangerousPatterns)
                 (strings_ToLower lib (normalizeSpaces s)) (normalizeSpaces s) ;;
     Done (truncate 500 result)).
Proof.
  intros (HN & HL & HT) Hs. unfold NameValidator_Validate, normalizeSpaces.
  rewrite (HN s Hs).
  now rewrite HT by (apply collapseSpaces_ascii; repeat apply ReplaceAll_ascii; auto).
Qed.

(** X20.  Whitespace in what the Generic and Name validators return on
    ASCII input, in whatever order the map is ranged over: no tab, line
    feed, form feed or carriage return, no two spaces in a row, no
    whitespace at the start; and, unless the cap cut the text, none at the
    end, so that the whitespace steps of the validator leave the output as
    it is. *)
Theorem validators_space_normal (lib : GoLib) (it : MapIter) (s : string) :
  GoLib_ascii lib -> MapIter_ok it -> isASCII s = true ->
  forall t, t = ParamTypeGeneric \/ t = ParamTypeName ->
  exists out,
    validateAs lib t it s = Done out
    /\ allBytes keptByte out = true
    /\ Contains out "  " = false
    /\ startsClean out = true
    /\ (String.length out < lengthCap t ->
        endsClean out = true /\ normalizeSpaces out = out).
Proof.
  intros H Hit Hs t Ht.
  assert (HG : forall table n,
            forallb lowerEntry table = true -> forallb spaceSafe table = true ->
            exists out,
              (result <- rangePatterns lib (it table)
                           (strings_ToLower lib (normalizeSpaces s))
                           (normalizeSpaces s) ;;
               Done (truncate n result)) = Done out
              /\ allBytes keptByte out = true
              /\ Contains out "  " = false
              /\ startsClean out = true
              /\ (String.length out < n ->
                  endsClean out = true /\ normalizeSpaces out = out)).
  { intros table n Hl Hsafe.
    destruct (rangePatterns_normal lib it table (normalizeSpaces s) H Hit Hl Hsafe
                (normalizeSpaces_ascii s Hs) (normalizeSpaces_normal s))
      as (res & -> & _ & Hn & _).
    cbn [bind]. eexists. split; [reflexivity|].
    destruct (spaceNormal_truncate n res Hn) as (H1 & H2 & H3).
    repeat split; auto.
    - apply truncate_lt in H0. rewrite H0.
      now apply spaceNormal_parts in Hn as (_ & _ & _ & Hn).
    - apply truncate_lt in H0. rewrite H0. now apply normalizeSpaces_fixpoint. }
  destruct Ht as [->| ->]; cbn [validateAs lengthCap].
  - rewrite GenericValidator_on_ascii by assumption. now apply HG.
  - rewrite NameValidator_on_ascii by assumption. now apply HG.
Qed.

Lemma validators_space_normal_witness :
  exists out,
    validateAs asciiLib ParamTypeGeneric sourceOrder "  a   b  ; DROP TABLE  t  "
    = Done out
    /\ allBytes keptByte out = true
    /\ Contains out "  " = false
    /\ startsClean out = true
    /\ (String.length out < lengthCap ParamTypeGeneric ->
        endsClean out = true /\ normalizeSpaces out = out).
Proof.
  exact (validators_space_normal asciiLib sourceOrder
           "  a   b  ; DROP TABLE  t  " asciiLib_ascii sourceOrder_ok eq_refl
           ParamTypeGeneric (or_introl eq_refl)).
Defined.

(** X21.  Validating twice.  On ASCII input the Generic validator and
    [sanitizeStringInput] are idempotent as long as the cap is not
    reached: what they return is returned unchanged when passed again, in
    whatever orders the two passes range over the map.  The Name and
    Description validators are not: [a#b] becomes [a_#b], then [a__#b];
    [a---b] becomes [a_--b], then [a__-b]. *)
Theorem sanitizers_idempotent (lib : GoLib) (it it' : MapIter) (s : string) :
  GoLib_ascii lib -> MapIter_ok it -> MapIter_ok it' -> isASCII s = true ->
  (forall out, GenericValidator_Validate lib it s = Done out ->
               String.length out < 2000 ->
               GenericValidator_Validate lib it' out = Done out)
  /\ (forall out, sanitizeStringInput lib it s = Done out ->
                  String.length out <= 65535 ->
                  sanitizeStringInput lib it' out = Done out)
  /\ (NameValidator_Validate asciiLib sourceOrder "a#b" = Done "a_#b"
      /\ NameValidator_Validate asciiLib sourceOrder "a_#b" = Done "a__#b")
  /\ (DescriptionValidator_Validate asciiLib sourceOrder "a---b" = Done "a_--b"
      /\ DescriptionValidator_Validate asciiLib sourceOrder "a_--b" = Done "a__-b").
Proof.
  intros H Hit Hit' Hs. split; [|split; [|split; split; reflexivity]].
  - intros out Hout Hlen.
    rewrite GenericValidator_on_ascii in Hout by assumption.
    destruct (rangePatterns_normal lib it GenericValidator_dangerousPatterns
                (normalizeSpaces s) H Hit eq_refl eq_refl
                (normalizeSpaces_ascii s Hs) (normalizeSpaces_normal s))
      as (res & Hres & Hascii & Hn & Hq).
    rewrite Hres in Hout. cbn [bind] in Hout. injection Hout as <-.
    pose proof (truncate_lt _ _ Hlen) as Htr. rewrite Htr in *.
    rewrite GenericValidator_on_ascii by assumption.
    rewrite (normalizeSpaces_fixpoint res Hn).
    rewrite rangePatterns_stable; auto.
    + cbn [bind]. now rewrite truncate_short by (apply Nat.lt_le_incl; exact Hlen).
    + intros p Hp. apply Hq.
      assert (Hall : forallb (fun p => neutralizedBy GenericValidator_dangerousPatterns (fst p))
                       GenericValidator_dangerousPatterns = true)
        by (vm_compute; reflexivity).
      rewrite forallb_forall in Hall. now apply Hall.
  - intros out Hout Hlen. unfold sanitizeStringInput in Hout.
    destruct (rangePatterns_neutralizes lib it sanitizeStringInput_dangerousPatterns
                (truncate 65535 s) H Hit eq_refl) as (res & Hres & Hascii & Hq).
    { now apply allBytes_truncate. }
    rewrite Hres in Hout. injection Hout as <-.
    unfold sanitizeStringInput. rewrite truncate_short by assumption.
    apply rangePatterns_stable; auto.
    intros p Hp. apply Hq.
    assert (Hall : forallb (fun p => neutralizedBy sanitizeStringInput_dangerousPatterns (fst p))
                     sanitizeStringInput_dangerousPatterns = true)
      by (vm_compute; reflexivity).
    rewrite forallb_forall in Hall. now apply Hall.
Qed.

Lemma sanitizers_idempotent_witness :
  GenericValidator_Validate asciiLib reverseOrder "x'_or_1=1 __ ; drop_table t"
  = Done "x'_or_1=1 __ ; drop_table t".
Proof.
  exact (proj1 (sanitizers_idempotent asciiLib sourceOrder reverseOrder
                  "x' OR 1=1 -- ; DROP TABLE t" asciiLib_ascii sourceOrder_ok
                  (fun m => Permutation_sym (Permutation_rev m)) eq_refl)
           "x'_or_1=1 __ ; drop_table t" eq_refl
           (proj1 (Nat.ltb_lt (String.length "x'_or_1=1 __ ; drop_table t") 2000)
              eq_refl)).
Defined.

Lemma visitAll_allBytes (P : ascii -> bool) (order : PatternMap) :
  forallb (fun p => (1 <=? String.length (fst p)) && allBytes P (snd p)) order = true ->
  forall s out,
    allBytes P s = true -> visitAll asciiLib order s = Done out ->
    allBytes P out = true.
Proof.
  induction order as [|p order IH]; intros Ho s out Hs Hrun.
  - simpl in Hrun. now injection Hrun as <-.
  - cbn [forallb] in Ho. apply andb_true_iff in Ho as [Hp Ho].
    apply andb_true_iff in Hp as [Hn Hp]. apply Nat.leb_le in Hn.
    cbn [visitAll] in Hrun. rewrite visit_asciiLib in Hrun by assumption.
    cbn [bind] in Hrun. apply (IH Ho _ out) in Hrun; auto.
    destruct (Contains _ _); auto. now apply scanReplace_allBytes.
Qed.

Lemma substByte_removes (a : ascii) (new x : string) :
  allBytes (fun c => negb (Ascii.eqb c a)) new = true ->
  allBytes (fun c => negb (Ascii.eqb c a)) (substByte a new x) = true.
Proof.
  intros Hn. induction x as [|c x IH]; [reflexivity|].
  cbn [substByte]. rewrite allBytes_app, IH, andb_true_r.
  destruct (Ascii.eqb c a) eqn:E; [exact Hn|].
  simpl. now rewrite E.
Qed.

Lemma Contains_cons_false (c : ascii) (x q : string) :
  Contains (String c x) q = false ->
  HasPrefix (String c x) q = false /\ Contains x q = false.
Proof.
  unfold Contains. rewrite Index_unfold.
  destruct (HasPrefix (String c x) q); [discriminate|].
  destruct (Index x q); [discriminate|]. auto.
Qed.

Lemma ReplaceAll_absent (s old new : string) :
  Contains s old = false -> ReplaceAll s old new = s.
Proof.
  unfold ReplaceAll. induction s as [|c s IH]; [reflexivity|].
  intros H. apply Contains_cons_false in H as [H1 H2].
  cbn [replaceAllFrom]. rewrite H1. now rewrite IH.
Qed.

Lemma DescriptionValidator_on_ascii (lib : GoLib) (it : MapIter) (s : string) :
  GoLib_ascii lib -> isASCII s = true ->
  DescriptionValidator_Validate lib it s
  = (result <- rangePatterns lib (it DescriptionValidator_dangerousPatterns)
                 (strings_ToLower lib (DescriptionValidator_lineEnds s))
                 (DescriptionValidator_lineEnds s) ;;
     Done (truncate 10000 result)).
Proof.
  intros (HN & _) Hs. unfold DescriptionValidator_Validate, DescriptionValidator_lineEnds.
  now rewrite (HN s Hs).
Qed.

Lemma lineEnds_ascii (s : string) :
  isASCII s = true -> isASCII (DescriptionValidator_lineEnds s) = true.
Proof. intros H. unfold DescriptionValidator_lineEnds. repeat apply ReplaceAll_ascii; auto. Qed.

Lemma lineEnds_notCR (s : string) :
  allBytes notCR (DescriptionValidator_lineEnds s) = true.
Proof.
  unfold DescriptionValidator_lineEnds. rewrite (ReplaceAll_byte _ CR).
  now apply substByte_removes.
Qed.

Lemma lineEnds_fixpoint (s : string) :
  allBytes notCR s = true -> DescriptionValidator_lineEnds s = s.
Proof.
  intros H. unfold DescriptionValidator_lineEnds.
  rewrite (ReplaceAll_absent s).
  - rewrite ReplaceAll_byte. now apply substByte_absent.
  - apply not_true_is_false. intros Hc.
    apply (Contains_allBytes notCR s _ Hc) in H. discriminate H.
Qed.

(** X23.  Line ends in what the Description validator returns on ASCII
    input: CRLF and lone CR were turned into LF and no replacement brings
    a carriage return back, so the output holds none. *)
Theorem DescriptionValidator_line_ends (lib : GoLib) (it : MapIter) (s : string) :
  GoLib_ascii lib -> MapIter_ok it -> isASCII s = true ->
  exists out,
    DescriptionValidator_Validate lib it s = Done out
    /\ allBytes notCR out = true.
Proof.
  intros H Hit Hs.
  rewrite DescriptionValidator_on_ascii, rangePatterns_visitAll by assumption.
  assert (Ha : forallb asciiEntry (it DescriptionValidator_dangerousPatterns) = true)
    by (now rewrite (forallb_Permutation _ _ _ (Hit _))).
  destruct (visitAll_ascii_returns lib _ H Ha _ (lineEnds_ascii s Hs)) as (res & Hres & _).
  rewrite Hres. cbn [bind]. eexists. split; [reflexivity|].
  apply allBytes_truncate.
  rewrite (visitAll_ascii lib _ H Ha _ (lineEnds_ascii s Hs)) in Hres.
  apply (visitAll_allBytes notCR (it DescriptionValidator_dangerousPatterns))
    with (s := DescriptionValidator_lineEnds s) (out := res);
    auto using lineEnds_notCR.
  now rewrite (forallb_Permutation _ _ _ (Hit _)).
Qed.

(** X22.  Clean text passes unchanged.  An ASCII text within the cap
    whose lower-casing shows no pattern of the blocklist is returned as it
    is by the Generic and the Name validator when its whitespace is in
    normal form, and by the Description validator when it holds no
    carriage return. *)
Theorem validators_keep_clean_text (lib : GoLib) (it : MapIter) (s : string) :
  GoLib_ascii lib -> MapIter_ok it -> isASCII s = true ->
  (spaceNormal s = true -> String.length s <= 2000 ->
   (forall p, In p GenericValidator_dangerousPatterns ->
              Contains (asciiToLower s) (fst p) = false) ->
   GenericValidator_Validate lib it s = Done s)
  /\ (spaceNormal s = true -> String.length s <= 500 ->
      (forall p, In p NameValidator_dangerousPatterns ->
                 Contains (asciiToLower s) (fst p) = false) ->
      NameValidator_Validate lib it s = Done s)
  /\ (allBytes notCR s = true -> String.length s <= 10000 ->
      (forall p, In p DescriptionValidator_dangerousPatterns ->
                 Contains (asciiToLower s) (fst p) = false) ->
      DescriptionValidator_Validate lib it s = Done s).
Proof.
  intros H Hit Hs. split; [|split].
  - intros Hn Hl Hq. rewrite GenericValidator_on_ascii by assumption.
    rewrite (normalizeSpaces_fixpoint s Hn), rangePatterns_stable by assumption.
    cbn [bind]. now rewrite truncate_short.
  - intros Hn Hl Hq. rewrite NameValidator_on_ascii by assumption.
    rewrite (normalizeSpaces_fixpoint s Hn), rangePatterns_stable by assumption.
    cbn [bind]. now rewrite truncate_short.
  - intros Hn Hl Hq. rewrite DescriptionValidator_on_ascii by assumption.
    rewrite (lineEnds_fixpoint s Hn), rangePatterns_stable by assumption.
    cbn [bind]. now rewrite truncate_short.
Qed.

Lemma validators_keep_clean_text_witness :
  GenericValidator_Validate asciiLib sourceOrder "O'Brien & Sons, 12 Main St."
  = Done "O'Brien & Sons, 12 Main St.".
Proof.
  refine (proj1 (validators_keep_clean_text asciiLib sourceOrder
                   "O'Brien & Sons, 12 Main St." asciiLib_ascii sourceOrder_ok eq_refl)
            eq_refl
            (proj1 (Nat.leb_le (String.length "O'Brien & Sons, 12 Main St.") 2000)
               eq_refl) _).
  intros p Hp.
  assert (Hall : forallb (fun p => negb (Contains (asciiToLower "O'Brien & Sons, 12 Main St.")
                                           (fst p)))
                   GenericValidator_dangerousPatterns = true) by reflexivity.
  rewrite forallb_forall in Hall. apply negb_true_iff, Hall, Hp.
Defined.


Lemma DescriptionValidator_line_ends_witness :
  exists out,
    DescriptionValidator_Validate asciiLib sourceOrder
      (String.append "a" (String CR (String LF (String.append "b" (String CR "c")))))
    = Done out
    /\ allBytes notCR out = true.
Proof.
  exact (DescriptionValidator_line_ends asciiLib sourceOrder
           (String.append "a" (String CR (String LF (String.append "b" (String CR "c")))))
           asciiLib_ascii sourceOrder_ok eq_refl).
Defined.

(* ------------------------------------------------------------------ *)
(** ** The neutralizer and ReplaceAll; ordinary text *)

Lemma scanReplace_self (s pat new : string) :
  forall k, scanReplace k s s pat new = replaceAllFrom k s pat new.
Proof.
  induction s as [|c s IH]; intros k; [reflexivity|].
  cbn [scanReplace replaceAllFrom drop]. destruct k as [|k]; [|apply IH].
  destruct (HasPrefix (String c s) pat); now rewrite IH.
Qed.

(** X26.  On ASCII text [replaceCaseInsensitive] is [strings.ReplaceAll]
    up to case: the lower-casing of its result is what [ReplaceAll] gives
    on the lower-cased text with the lower-cased pattern and replacement,
    and on a text that is already lower case the two functions agree. *)
Theorem replaceCaseInsensitive_ReplaceAll (lib : GoLib) (s old new : string) :
  GoLib_ascii lib -> isASCII s = true -> isASCII old = true ->
  1 <= String.length old ->
  exists out,
    replaceCaseInsensitive lib s old new = Done out
    /\ asciiToLower out
       = ReplaceAll (asciiToLower s) (asciiToLower old) (asciiToLower new)
    /\ (asciiToLower s = s -> out = ReplaceAll s (asciiToLower old) new).
Proof.
  intros (_ & HL & _) Hs Ho Hn.
  assert (E1 : String.length (strings_ToLower lib s) = String.length s)
    by (rewrite HL by assumption; apply mapString_length).
  assert (E2 : String.length (strings_ToLower lib old) = String.length old)
    by (rewrite HL by assumption; apply mapString_length).
  rewrite replaceCaseInsensitive_aligned by assumption.
  rewrite !HL by assumption.
  eexists. split; [reflexivity|]. split.
  - unfold asciiToLower at 1. rewrite mapString_scanReplace.
    apply scanReplace_self.
  - intros E. rewrite E. apply scanReplace_self.
Qed.

Lemma replaceCaseInsensitive_ReplaceAll_witness :
  exists out,
    replaceCaseInsensitive asciiLib "a UNION SELECT b" "union select" "union_select"
    = Done out
    /\ asciiToLower out
       = ReplaceAll (asciiToLower "a UNION SELECT b") (asciiToLower "union select")
           (asciiToLower "union_select")
    /\ (asciiToLower "a UNION SELECT b" = "a UNION SELECT b" ->
        out = ReplaceAll "a UNION SELECT b" (asciiToLower "union select") "union_select").
Proof.
  exact (replaceCaseInsensitive_ReplaceAll asciiLib "a UNION SELECT b"
           "union select" "union_select" asciiLib_ascii eq_refl eq_refl
           (Nat.lt_0_succ 11)).
Defined.

Lemma spaceNormal_one_line (s : string) :
  spaceNormal s = true ->
  Contains s (str1 LF) = false /\ Contains s (str1 CR) = false.
Proof.
  intros H. apply spaceNormal_parts in H as (Hk & _).
  split; apply not_true_is_false; intros Hc;
    apply (Contains_allBytes keptByte s _ Hc) in Hk; discriminate Hk.
Qed.

(** X24.  Ordinary text is only quoted: for an ASCII string of at most
    500 bytes, with its whitespace in normal form and no pattern of the
    Generic blocklist in its lower-casing, [literal] returns
    [quoteString] of the string itself, whichever validator the inferred
    type selects. *)
Theorem literal_clean_text (lib : GoLib) (it : MapIter) (s : string) :
  GoLib_ascii lib -> MapIter_ok it -> isASCII s = true ->
  spaceNormal s = true -> String.length s <= 500 ->
  (forall p, In p GenericValidator_dangerousPatterns ->
             Contains (asciiToLower s) (fst p) = false) ->
  literal lib it (VString s) = Done (quoteString s, None).
Proof.
  intros H Hit Hs Hn Hl Hq. pose proof H as (HN & _).
  destruct (spaceNormal_one_line s Hn) as [HLF HCR].
  cbn [literal]. rewrite ProcessString_validateAs, InferType_unfold.
  rewrite (runes_ascii_not_CJK s Hs), (namePatterns_not_in_ascii s Hs), HLF, HCR.
  destruct (Nat.ltb_spec 500 (String.length s)) as [G|_]; [lia|].
  cbn [orb].
  assert (HG : validateAs lib ParamTypeGeneric it s = Done s).
  { cbn [validateAs]. rewrite GenericValidator_on_ascii by assumption.
    rewrite (normalizeSpaces_fixpoint s Hn), rangePatterns_stable by assumption.
    cbn [bind]. rewrite truncate_short; auto.
    eapply Nat.le_trans; [exact Hl|]. apply Nat.leb_le. vm_compute. reflexivity. }
  destruct (String.length s =? 0); [now rewrite HG|].
  destruct ((String.length s <=? 100) && allBytes isIDByte s) eqn:E.
  - apply andb_true_iff in E as [E1 E2]. apply Nat.leb_le in E1.
    cbn [validateAs]. rewrite IDValidator_fixpoint; auto.
  - now rewrite HG.
Qed.

Lemma literal_clean_text_witness :
  literal asciiLib sourceOrder (VString "O'Brien & Sons, 12 Main St.")
  = Done (quoteString "O'Brien & Sons, 12 Main St.", None).
Proof.
  refine (literal_clean_text asciiLib sourceOrder "O'Brien & Sons, 12 Main St."
            asciiLib_ascii sourceOrder_ok eq_refl eq_refl
            (proj1 (Nat.leb_le (String.length "O'Brien & Sons, 12 Main St.") 500)
               eq_refl) _).
  intros p Hp.
  assert (Hall : forallb (fun p => negb (Contains (asciiToLower "O'Brien & Sons, 12 Main St.")
                                           (fst p)))
                   GenericValidator_dangerousPatterns = true) by reflexivity.
  rewrite forallb_forall in Hall. apply negb_true_iff, Hall, Hp.
Defined.

(* ------------------------------------------------------------------ *)
(** ** Case *)

Lemma asciiLower_cases (c : ascii) :
  Ascii.eqb (asciiLower c) c || (isLetter c && isLetter (asciiLower c)) = true.
Proof. destruct c as [[] [] [] [] [] [] [] []]; reflexivity. Qed.

Lemma eqb_asciiLower (a c : ascii) :
  isLetter a = false -> Ascii.eqb a (asciiLower c) = Ascii.eqb a c.
Proof.
  intros Ha. pose proof (asciiLower_cases c) as H.
  apply orb_true_iff in H as [H|H].
  - apply Ascii.eqb_eq in H. now rewrite H.
  - apply andb_true_iff in H as [H1 H2].
    destruct (Ascii.eqb_spec a (asciiLower c)) as [->|_]; [congruence|].
    destruct (Ascii.eqb_spec a c) as [->|_]; [congruence|reflexivity].
Qed.

Lemma HasPrefix_lower (old : string) :
  allBytes (fun a => negb (isLetter a)) old = true ->
  forall s, HasPrefix (asciiToLower s) old = HasPrefix s old.
Proof.
  induction old as [|a old IH]; intros Ho s; [reflexivity|].
  cbn [allBytes] in Ho. apply andb_true_iff in Ho as [Ha Ho].
  apply negb_true_iff in Ha.
  destruct s as [|c s]; [reflexivity|].
  change (asciiToLower (String c s)) with (String (asciiLower c) (asciiToLower s)).
  cbn [HasPrefix]. now rewrite eqb_asciiLower, IH.
Qed.

Lemma replaceAllFrom_lower (old new : string) :
  allBytes (fun a => negb (isLetter a)) old = true ->
  forall s k,
    replaceAllFrom k (asciiToLower s) old (asciiToLower new)
    = asciiToLower (replaceAllFrom k s old new).
Proof.
  intros Ho. induction s as [|c s IH]; intros k; [reflexivity|].
  change (asciiToLower (String c s)) with (String (asciiLower c) (asciiToLower s)).
  cbn [replaceAllFrom]. destruct k as [|k]; [|apply IH].
  change (String (asciiLower c) (asciiToLower s)) with (asciiToLower (String c s)).
  rewrite (HasPrefix_lower old Ho).
  destruct (HasPrefix (String c s) old).
  - rewrite IH. unfold asciiToLower. now rewrite mapString_app.
  - change (asciiToLower (String c (replaceAllFrom 0 s old new)))
      with (String (asciiLower c) (asciiToLower (replaceAllFrom 0 s old new))).
    now rewrite IH.
Qed.

Lemma ReplaceAll_lower (s old new : string) :
  allBytes (fun a => negb (isLetter a)) old = true -> asciiToLower new = new ->
  ReplaceAll (asciiToLower s) old new = asciiToLower (ReplaceAll s old new).
Proof.
  intros Ho Hn. unfold ReplaceAll. rewrite <- Hn at 1. now apply replaceAllFrom_lower.
Qed.

Lemma isRegexpSpace_lower (c : ascii) :
  isRegexpSpace (asciiLower c) = isRegexpSpace c.
Proof. destruct c as [[] [] [] [] [] [] [] []]; reflexivity. Qed.

Lemma isAsciiSpace_lower (c : ascii) : isAsciiSpace (asciiLower c) = isAsciiSpace c.
Proof. destruct c as [[] [] [] [] [] [] [] []]; reflexivity. Qed.

Lemma collapseSpaces_lower (s : string) :
  forall b, collapseSpaces b (asciiToLower s) = asciiToLower (collapseSpaces b s).
Proof.
  induction s as [|c s IH]; intros b; [reflexivity|].
  change (asciiToLower (String c s)) with (String (asciiLower c) (asciiToLower s)).
  cbn [collapseSpaces]. rewrite isRegexpSpace_lower.
  destruct (isRegexpSpace c); [destruct b|]; rewrite IH; reflexivity.
Qed.

Lemma trimLeft_lower (s : string) :
  trimLeft (asciiToLower s) = asciiToLower (trimLeft s).
Proof.
  induction s as [|c s IH]; [reflexivity|].
  change (asciiToLower (String c s)) with (String (asciiLower c) (asciiToLower s)).
  cbn [trimLeft]. rewrite isAsciiSpace_lower.
  destruct (isAsciiSpace c); [exact IH|reflexivity].
Qed.

Lemma trimRight_lower (s : string) :
  trimRight (asciiToLower s) = asciiToLower (trimRight s).
Proof.
  induction s as [|c s IH]; [reflexivity|].
  change (asciiToLower (String c s)) with (String (asciiLower c) (asciiToLower s)).
  cbn [trimRight]. rewrite IH, isAsciiSpace_lower.
  destruct (trimRight s); [destruct (isAsciiSpace c)|]; reflexivity.
Qed.

Lemma normalizeSpaces_lower (s : string) :
  normalizeSpaces (asciiToLower s) = asciiToLower (normalizeSpaces s).
Proof.
  unfold normalizeSpaces, asciiTrimSpace.
  rewrite !ReplaceAll_lower by reflexivity.
  now rewrite collapseSpaces_lower, trimLeft_lower, trimRight_lower.
Qed.

Lemma lineEnds_lower (s : string) :
  DescriptionValidator_lineEnds (asciiToLower s)
  = asciiToLower (DescriptionValidator_lineEnds s).
Proof.
  unfold DescriptionValidator_lineEnds. now rewrite !ReplaceAll_lower by reflexivity.
Qed.

Lemma truncate_lower (n : nat) (s : string) :
  truncate n (asciiToLower s) = asciiToLower (truncate n s).
Proof.
  unfold truncate, asciiToLower. rewrite mapString_length.
  destruct (n <? String.length s); [now rewrite mapString_take|reflexivity].
Qed.

Lemma asciiToLower_idem (s : string) : asciiToLower (asciiToLower s) = asciiToLower s.
Proof.
  induction s as [|c s IH]; [reflexivity|].
  change (asciiToLower (String c s)) with (String (asciiLower c) (asciiToLower s)).
  change (asciiToLower (String (asciiLower c) (asciiToLower s)))
    with (String (asciiLower (asciiLower c)) (asciiToLower (asciiToLower s))).
  rewrite IH. f_equal.
  destruct c as [[] [] [] [] [] [] [] []]; reflexivity.
Qed.

(** The lower-casing of what the loop returns depends on the lower-casing
    of the text alone. *)
Lemma visitAll_lower_determined (order : PatternMap) :
  forallb lowerEntry order = true ->
  forall s1 s2, asciiToLower s1 = asciiToLower s2 ->
  exists o1 o2,
    visitAll asciiLib order s1 = Done o1 /\ visitAll asciiLib order s2 = Done o2
    /\ asciiToLower o1 = asciiToLower o2.
Proof.
  induction order as [|p order IH]; intros Ho s1 s2 E.
  - exists s1, s2. auto.
  - cbn [forallb] in Ho. apply andb_true_iff in Ho as [Hp Ho].
    destruct (visit_asciiLib_lower p s1 Hp) as (t1 & Hv1 & Hl1).
    destruct (visit_asciiLib_lower p s2 Hp) as (t2 & Hv2 & Hl2).
    cbn [visitAll]. rewrite Hv1, Hv2. cbn [bind].
    apply IH; auto. rewrite Hl1, Hl2, E. reflexivity.
Qed.

Lemma rangePatterns_lower_determined (lib : GoLib) (it : MapIter)
  (table : PatternMap) (x1 x2 : string) :
  GoLib_ascii lib -> MapIter_ok it -> forallb lowerEntry table = true ->
  isASCII x1 = true -> isASCII x2 = true ->
  asciiToLower x1 = asciiToLower x2 ->
  exists o1 o2,
    rangePatterns lib (it table) (strings_ToLower lib x1) x1 = Done o1
    /\ rangePatterns lib (it table) (strings_ToLower lib x2) x2 = Done o2
    /\ asciiToLower o1 = asciiToLower o2.
Proof.
  intros H Hit Ht H1 H2 E. rewrite !rangePatterns_visitAll.
  assert (Hl : forallb lowerEntry (it table) = true)
    by (now rewrite (forallb_Permutation _ _ _ (Hit table))).
  assert (Ha : forallb asciiEntry (it table) = true).
  { rewrite forallb_forall in *. intros p Hp. apply Hl in Hp.
    unfold lowerEntry in Hp. now apply andb_true_iff in Hp as [Hp _]. }
  rewrite !(visitAll_ascii lib (it table) H Ha) by assumption.
  now apply visitAll_lower_determined.
Qed.

(** X25.  Detection does not depend on case, the order of the map being
    the same.  Two ASCII inputs that differ only in the case of their
    letters are turned, by each validator with a blocklist and by
    [sanitizeStringInput], in two calls that range over the blocklist map
    in the same order, into outputs that differ only in the case of their
    letters.  Two calls that range in different orders can return outputs
    that differ in more than case: ["; update or 1=1"] gives
    ["; update_or 1=1"] in the order of the map literal and
    ["; UPDATE OR 1=1"] gives ["; UPDATE_or_1=1"] in the reverse order. *)
Theorem sanitizers_case_insensitive (lib : GoLib) (it : MapIter) (s1 s2 : string) :
  GoLib_ascii lib -> MapIter_ok it ->
  isASCII s1 = true -> isASCII s2 = true ->
  asciiToLower s1 = asciiToLower s2 ->
  (forall t, t <> ParamTypeID ->
     exists o1 o2,
       validateAs lib t it s1 = Done o1 /\ validateAs lib t it s2 = Done o2
       /\ asciiToLower o1 = asciiToLower o2)
  /\ (exists o1 o2,
        sanitizeStringInput lib it s1 = Done o1
        /\ sanitizeStringInput lib it s2 = Done o2
        /\ asciiToLower o1 = asciiToLower o2)
  /\ (GenericValidator_Validate asciiLib sourceOrder "; update or 1=1"
      = Done "; update_or 1=1"
      /\ GenericValidator_Validate asciiLib reverseOrder "; UPDATE OR 1=1"
         = Done "; UPDATE_or_1=1").
Proof.
  intros H Hit H1 H2 E.
  assert (HV : forall table x1 x2 n,
            forallb lowerEntry table = true ->
            isASCII x1 = true -> isASCII x2 = true ->
            asciiToLower x1 = asciiToLower x2 ->
            exists o1 o2,
              (result <- rangePatterns lib (it table) (strings_ToLower lib x1) x1 ;;
               Done (truncate n result)) = Done o1
              /\ (result <- rangePatterns lib (it table) (strings_ToLower lib x2) x2 ;;
                  Done (truncate n result)) = Done o2
              /\ asciiToLower o1 = asciiToLower o2).
  { intros table x1 x2 n Ht Hx1 Hx2 Ex.
    destruct (rangePatterns_lower_determined lib it table x1 x2 H Hit Ht Hx1 Hx2 Ex)
      as (r1 & r2 & -> & -> & Er).
    cbn [bind]. eexists _, _. split; [reflexivity|]. split; [reflexivity|].
    now rewrite <- !truncate_lower, Er. }
  split; [|split; [|split; reflexivity]].
  - intros t Ht. destruct t; [| contradiction | |]; cbn [validateAs].
    + rewrite !GenericValidator_on_ascii by assumption.
      apply HV; auto using normalizeSpaces_ascii.
      now rewrite <- !normalizeSpaces_lower, E.
    + rewrite !NameValidator_on_ascii by assumption.
      apply HV; auto using normalizeSpaces_ascii.
      now rewrite <- !normalizeSpaces_lower, E.
    + rewrite !DescriptionValidator_on_ascii by assumption.
      apply HV; auto using lineEnds_ascii.
      now rewrite <- !lineEnds_lower, E.
  - unfold sanitizeStringInput.
    apply rangePatterns_lower_determined; auto; try (now apply allBytes_truncate).
    now rewrite <- !truncate_lower, E.
Qed.

Lemma sanitizers_case_insensitive_witness :
  exists o1 o2,
    sanitizeStringInput asciiLib sourceOrder "x' Union Select 1 --" = Done o1
    /\ sanitizeStringInput asciiLib sourceOrder "X' UNION SELECT 1 --" = Done o2
    /\ asciiToLower o1 = asciiToLower o2.
Proof.
  exact (proj1 (proj2 (sanitizers_case_insensitive asciiLib sourceOrder
                  "x' Union Select 1 --" "X' UNION SELECT 1 --"
                  asciiLib_ascii sourceOrder_ok eq_refl eq_refl eq_refl))).
Defined.

(* ------------------------------------------------------------------ *)
(** ** Text with ideographs *)

Lemma plain_ascii (s : string) : isASCII s = true -> plain s = true.
Proof.
  induction s as [|c s IH]; [reflexivity|].
  unfold isASCII. cbn [allBytes plain]. intros H.
  apply andb_true_iff in H as [Hc Hs]. rewrite Hc. now apply IH.
Qed.

Lemma GoLib_plain_ascii (lib : GoLib) : GoLib_plain lib -> GoLib_ascii lib.
Proof.
  intros (HN & HL & HT). repeat split; intros s Hs;
    [apply HN|apply HL|apply HT]; now apply plain_ascii.
Qed.

Lemma asciiLib_plain : GoLib_plain asciiLib.
Proof. repeat split. Qed.

Lemma isCJK3_high (c0 c1 c2 : ascii) :
  isCJK3 c0 c1 c2 = true ->
  isASCIIByte c0 = false /\ isASCIIByte c1 = false /\ isASCIIByte c2 = false.
Proof.
  unfold isCJK3, isCont, inRange, isASCIIByte. intros H.
  apply andb_true_iff in H as [H _]. apply andb_true_iff in H as [H H2].
  apply andb_true_iff in H as [H0 H1].
  apply andb_true_iff in H0 as [H0 _]. apply andb_true_iff in H1 as [H1 _].
  apply andb_true_iff in H2 as [H2 _].
  apply Z.leb_le in H0, H1, H2.
  repeat split; apply Z.ltb_ge; lia.
Qed.

(** Induction along the characters of a plain text. *)
Lemma plain_ind (P : string -> Prop) :
  P EmptyString ->
  (forall c s, isASCIIByte c = true -> plain s = true -> P s -> P (String c s)) ->
  (forall c0 c1 c2 s, isCJK3 c0 c1 c2 = true -> plain s = true -> P s ->
                      P (String c0 (String c1 (String c2 s)))) ->
  forall s, plain s = true -> P s.
Proof.
  intros H0 H1 H3 s.
  assert (H : forall n s, String.length s <= n -> plain s = true -> P s).
  { clear s. induction n as [|n IH]; intros s Hn Hs.
    - destruct s; [exact H0|simpl in Hn; lia].
    - destruct s as [|c0 s1]; [exact H0|].
      cbn [plain] in Hs. destruct (isASCIIByte c0) eqn:E.
      + apply H1; auto. apply IH; auto. simpl in Hn. lia.
      + destruct s1 as [|c1 [|c2 s3]]; try discriminate.
        apply andb_true_iff in Hs as [Hc Hs].
        apply H3; auto. apply IH; auto. simpl in Hn. lia. }
  apply (H (String.length s)). lia.
Qed.

Lemma plain_cons_ascii (c : ascii) (s : string) :
  isASCIIByte c = true -> plain (String c s) = plain s.
Proof. intros H. cbn [plain]. now rewrite H. Qed.

Lemma plain_cons_cjk (c0 c1 c2 : ascii) (s : string) :
  isCJK3 c0 c1 c2 = true ->
  plain (String c0 (String c1 (String c2 s))) = plain s.
Proof.
  intros H. destruct (isCJK3_high _ _ _ H) as (E0 & _).
  cbn [plain]. now rewrite E0, H.
Qed.

Lemma plain_app (a b : string) :
  plain a = true -> plain b = true -> plain (a ++ b) = true.
Proof.
  intros Ha Hb. revert a Ha. apply plain_ind.
  - exact Hb.
  - intros c s Hc _ IH. cbn [append]. now rewrite plain_cons_ascii.
  - intros c0 c1 c2 s Hc _ IH. cbn [append]. now rewrite plain_cons_cjk.
Qed.

(** A plain text can be cut in front of any of its ASCII bytes. *)
Lemma plain_split (s : string) :
  plain s = true ->
  forall a c b, s = a ++ String c b -> isASCIIByte c = true ->
                plain a = true /\ plain (String c b) = true.
Proof.
  revert s. apply (plain_ind (fun s => forall a c b, s = a ++ String c b ->
                     isASCIIByte c = true ->
                     plain a = true /\ plain (String c b) = true)).
  - intros a c b H. destruct a; discriminate.
  - intros x s Hx Hs IH a c b E Hc.
    destruct a as [|y a]; cbn [append] in E.
    + injection E as <- <-. split; [reflexivity|]. now rewrite plain_cons_ascii.
    + injection E as <- E. destruct (IH a c b E Hc) as [H1 H2].
      split; [|exact H2]. now rewrite plain_cons_ascii.
  - intros c0 c1 c2 s H3 Hs IH a c b E Hc.
    destruct (isCJK3_high _ _ _ H3) as (E0 & E1 & E2).
    destruct a as [|y0 a]; cbn [append] in E.
    { injection E as <- _. congruence. }
    injection E as <- E.
    destruct a as [|y1 a]; cbn [append] in E.
    { injection E as <- _. congruence. }
    injection E as <- E.
    destruct a as [|y2 a]; cbn [append] in E.
    { injection E as <- _. congruence. }
    injection E as <- E.
    destruct (IH a c b E Hc) as [H1 H2].
    split; [|exact H2]. now rewrite plain_cons_cjk.
Qed.

Lemma plain_after_ascii (a b : string) :
  isASCII a = true -> plain (a ++ b) = true -> plain b = true.
Proof.
  induction a as [|c a IH]; [auto|].
  unfold isASCII. cbn [allBytes append]. intros H Hp.
  apply andb_true_iff in H as [Hc Ha]. rewrite plain_cons_ascii in Hp by assumption.
  now apply IH.
Qed.

(** A plain text cut around a non-empty ASCII part. *)
Lemma plain_around (a m b : string) :
  isASCII m = true -> 1 <= String.length m ->
  plain (a ++ m ++ b) = true -> plain a = true /\ plain b = true.
Proof.
  intros Hm Hl Hp. destruct m as [|c m]; [simpl in Hl; lia|].
  unfold isASCII in Hm. cbn [allBytes] in Hm. apply andb_true_iff in Hm as [Hc Hm].
  cbn [append] in Hp.
  destruct (plain_split _ Hp a c (m ++ b) eq_refl Hc) as [Ha Hb].
  split; [exact Ha|].
  rewrite plain_cons_ascii in Hb by assumption.
  now apply (plain_after_ascii m b).
Qed.

Lemma high_not_regexpSpace (c : ascii) :
  isASCIIByte c = false -> isRegexpSpace c = false.
Proof. destruct c as [[] [] [] [] [] [] [] []]; intros H; first [reflexivity|discriminate H]. Qed.

Lemma high_not_asciiSpace (c : ascii) :
  isASCIIByte c = false -> isAsciiSpace c = false.
Proof. destruct c as [[] [] [] [] [] [] [] []]; intros H; first [reflexivity|discriminate H]. Qed.

Lemma isASCIIByte_lower (c : ascii) : isASCIIByte (asciiLower c) = isASCIIByte c.
Proof. destruct c as [[] [] [] [] [] [] [] []]; reflexivity. Qed.

Lemma high_neq_ascii (c a : ascii) :
  isASCIIByte c = false -> isASCIIByte a = true -> Ascii.eqb c a = false.
Proof.
  intros Hc Ha. destruct (Ascii.eqb_spec c a) as [->|]; [congruence|reflexivity].
Qed.

Lemma substByte_plain (a : ascii) (new : string) :
  isASCIIByte a = true -> plain new = true ->
  forall s, plain s = true -> plain (substByte a new s) = true.
Proof.
  intros Ha Hn. apply plain_ind; [reflexivity| |].
  - intros c s Hc _ IH. cbn [substByte]. apply plain_app; [|exact IH].
    destruct (Ascii.eqb c a); [exact Hn|]. cbn [str1 plain]. now rewrite Hc.
  - intros c0 c1 c2 s H3 _ IH. destruct (isCJK3_high _ _ _ H3) as (E0 & E1 & E2).
    cbn [substByte].
    rewrite !high_neq_ascii by assumption. cbn [str1 append].
    now rewrite plain_cons_cjk.
Qed.

Lemma collapseSpaces_plain (s : string) :
  plain s = true -> forall b, plain (collapseSpaces b s) = true.
Proof.
  revert s. apply (plain_ind (fun s => forall b, plain (collapseSpaces b s) = true));
    [reflexivity| |].
  - intros c s Hc _ IH b. cbn [collapseSpaces].
    destruct (isRegexpSpace c); [destruct b|]; auto.
    + cbn [plain]. change (isASCIIByte " ") with true. cbn iota. auto.
    + now rewrite plain_cons_ascii.
  - intros c0 c1 c2 s H3 _ IH b. destruct (isCJK3_high _ _ _ H3) as (E0 & E1 & E2).
    cbn [collapseSpaces]. rewrite !high_not_regexpSpace by assumption.
    now rewrite plain_cons_cjk.
Qed.

Lemma trimLeft_plain (s : string) : plain s = true -> plain (trimLeft s) = true.
Proof.
  revert s. apply plain_ind; [reflexivity| |].
  - intros c s Hc Hs IH. cbn [trimLeft]. destruct (isAsciiSpace c); auto.
    now rewrite plain_cons_ascii.
  - intros c0 c1 c2 s H3 Hs IH. destruct (isCJK3_high _ _ _ H3) as (E0 & _).
    cbn [trimLeft]. rewrite high_not_asciiSpace by assumption.
    now rewrite plain_cons_cjk.
Qed.

Lemma trimRight_cons (c : ascii) (s : string) :
  isAsciiSpace c = false -> trimRight (String c s) = String c (trimRight s).
Proof. intros H. cbn [trimRight]. destruct (trimRight s); now rewrite ?H. Qed.

Lemma trimRight_plain (s : string) : plain s = true -> plain (trimRight s) = true.
Proof.
  revert s. apply plain_ind; [reflexivity| |].
  - intros c s Hc Hs IH. cbn [trimRight]. destruct (trimRight s) eqn:E.
    + destruct (isAsciiSpace c); [reflexivity|]. cbn [str1 plain]. now rewrite Hc.
    + now rewrite plain_cons_ascii.
  - intros c0 c1 c2 s H3 Hs IH. destruct (isCJK3_high _ _ _ H3) as (E0 & E1 & E2).
    rewrite !trimRight_cons by (now apply high_not_asciiSpace).
    now rewrite plain_cons_cjk.
Qed.

Lemma mapString_drop (f : ascii -> ascii) (n : nat) (s : string) :
  mapString f (drop n s) = drop n (mapString f s).
Proof. revert s; induction n; intros [|c s]; simpl; auto. Qed.

Lemma HasPrefix_map_ascii (f : ascii -> ascii) (pat : string) :
  (forall c, isASCIIByte (f c) = isASCIIByte c) ->
  isASCII pat = true ->
  forall x, HasPrefix (mapString f x) pat = true ->
            isASCII (take (String.length pat) x) = true.
Proof.
  intros Hf. unfold isASCII. induction pat as [|a pat IH]; intros Hp x H; [reflexivity|].
  cbn [allBytes] in Hp. apply andb_true_iff in Hp as [Ha Hp].
  destruct x as [|c x]; [discriminate|].
  cbn [mapString HasPrefix] in H. apply andb_true_iff in H as [H1 H2].
  apply Ascii.eqb_eq in H1. subst a.
  cbn [String.length take allBytes]. rewrite <- Hf, Ha. cbn [andb]. now apply IH.
Qed.

Lemma Index_Some_HasPrefix (x q : string) (i : nat) :
  Index x q = Some i -> HasPrefix (drop i x) q = true.
Proof.
  revert i; induction x as [|c x IH]; intros i H; rewrite Index_unfold in H.
  - destruct (HasPrefix "" q) eqn:E; [|discriminate]. now injection H as <-.
  - destruct (HasPrefix (String c x) q) eqn:E.
    + now injection H as <-.
    + destruct (Index x q) as [k|]; [|discriminate]. injection H as <-.
      cbn [drop]. now apply IH.
Qed.

(** Replacing ASCII occurrences by plain text keeps a text plain. *)
Lemma scanReplace_plain (f : ascii -> ascii) (pat r : string) :
  (forall c, isASCIIByte (f c) = isASCIIByte c) ->
  isASCII pat = true -> 1 <= String.length pat -> plain r = true ->
  forall n s, String.length s <= n -> plain s = true ->
    plain (scanReplace 0 (mapString f s) s pat r) = true.
Proof.
  intros Hf Hp Hl Hr. induction n as [|n IH]; intros s Hn Hs.
  - destruct s; [reflexivity|simpl in Hn; lia].
  - destruct (Index (mapString f s) pat) as [i|] eqn:EI.
    + pose proof (Index_bound _ _ _ EI) as HB. rewrite mapString_length in HB.
      rewrite (scanReplace_match i) by (auto using mapString_length).
      apply Index_Some_HasPrefix in EI. rewrite <- mapString_drop in EI.
      apply (HasPrefix_map_ascii f pat Hf Hp) in EI.
      assert (E : s = take i s ++ take (String.length pat) (drop i s)
                      ++ drop (i + String.length pat) s).
      { rewrite <- drop_drop, !take_drop. reflexivity. }
      rewrite E in Hs. apply plain_around in Hs as [HA HB']; auto.
      * apply plain_app; [exact HA|]. apply plain_app; [exact Hr|].
        rewrite <- mapString_drop. apply IH; auto. rewrite drop_length. lia.
      * rewrite take_length, drop_length. lia.
    + rewrite scanReplace_no_match; auto using mapString_length.
Qed.

Lemma mapString_id (s : string) : mapString (fun c => c) s = s.
Proof. induction s; simpl; congruence. Qed.

Lemma ReplaceAll_plain (s old new : string) :
  isASCII old = true -> 1 <= String.length old -> plain new = true ->
  plain s = true -> plain (ReplaceAll s old new) = true.
Proof.
  intros Ho Hl Hn Hs. unfold ReplaceAll. rewrite <- scanReplace_self.
  rewrite <- (mapString_id s) at 1.
  apply (scanReplace_plain (fun c => c) old new) with (n := String.length s); auto.
Qed.

Lemma normalizeSpaces_plain (s : string) :
  plain s = true ->
  plain (collapseSpaces false
           (ReplaceAll (ReplaceAll (ReplaceAll s (str1 TAB) " ") (str1 LF) " ")
              (str1 CR) " ")) = true
  /\ plain (normalizeSpaces s) = true.
Proof.
  intros Hs.
  assert (H : plain (collapseSpaces false
           (ReplaceAll (ReplaceAll (ReplaceAll s (str1 TAB) " ") (str1 LF) " ")
              (str1 CR) " ")) = true).
  { apply collapseSpaces_plain. repeat apply ReplaceAll_plain; auto. }
  split; [exact H|].
  unfold normalizeSpaces, asciiTrimSpace. now apply trimRight_plain, trimLeft_plain.
Qed.

Lemma lineEnds_plain (s : string) :
  plain s = true -> plain (DescriptionValidator_lineEnds s) = true.
Proof.
  intros Hs. unfold DescriptionValidator_lineEnds.
  repeat apply ReplaceAll_plain; try reflexivity; try exact Hs;
    cbn [str1 String.length]; lia.
Qed.

Lemma isASCII_lower (s : string) : isASCII (asciiToLower s) = isASCII s.
Proof.
  unfold isASCII. induction s as [|c s IH]; [reflexivity|].
  change (asciiToLower (String c s)) with (String (asciiLower c) (asciiToLower s)).
  cbn [allBytes]. now rewrite isASCIIByte_lower, IH.
Qed.

Lemma visit_plain (lib : GoLib) (p : string * string) (s : string) :
  GoLib_plain lib -> plain s = true -> isASCII (fst p) = true ->
  visit lib p s = visit asciiLib p s.
Proof.
  intros (_ & HL & _) Hs Hp.
  unfold visit, replaceCaseInsensitive. cbn [strings_ToLower asciiLib].
  now rewrite (HL s Hs), (HL (fst p) (plain_ascii _ Hp)).
Qed.

Lemma visit_asciiLib_plain (p : string * string) (s : string) :
  asciiEntry p = true -> plain s = true ->
  exists s', visit asciiLib p s = Done s' /\ plain s' = true.
Proof.
  intros Hp Hs. unfold asciiEntry in Hp.
  apply andb_true_iff in Hp as [Hp Hlen]. apply andb_true_iff in Hp as [Hp Hr].
  apply Nat.leb_le in Hlen.
  rewrite visit_asciiLib by assumption. eexists. split; [reflexivity|].
  destruct (Contains _ _); [|exact Hs].
  apply (scanReplace_plain asciiLower) with (n := String.length s);
    auto using isASCIIByte_lower, plain_ascii.
  - now rewrite isASCII_lower.
  - unfold asciiToLower. now rewrite mapString_length.
Qed.

Lemma visitAll_plain (lib : GoLib) (order : PatternMap) :
  GoLib_plain lib -> forallb asciiEntry order = true ->
  forall s, plain s = true ->
    visitAll lib order s = visitAll asciiLib order s
    /\ exists out, visitAll asciiLib order s = Done out /\ plain out = true.
Proof.
  intros H. induction order as [|p order IH]; intros Ho s Hs.
  - split; [reflexivity|]. exists s. auto.
  - cbn [forallb] in Ho. apply andb_true_iff in Ho as [Hp Ho].
    assert (Hp' := Hp). unfold asciiEntry in Hp'.
    apply andb_true_iff in Hp' as [Hp' _]. apply andb_true_iff in Hp' as [Hp' _].
    cbn [visitAll]. rewrite (visit_plain lib p s H Hs Hp').
    destruct (visit_asciiLib_plain p s Hp Hs) as (s1 & -> & Hs1).
    cbn [bind]. now apply IH.
Qed.

(** The loop of a sanitizer on plain text. *)
Lemma rangePatterns_plain (lib : GoLib) (it : MapIter) (table : PatternMap)
  (s : string) :
  GoLib_plain lib -> MapIter_ok it ->
  forallb lowerEntry table = true -> plain s = true ->
  exists out,
    rangePatterns lib (it table) (strings_ToLower lib s) s = Done out
    /\ plain out = true
    /\ forall q, neutralizedBy table q = true ->
                 Contains (asciiToLower out) q = false.
Proof.
  intros H Hit Ht Hs. rewrite rangePatterns_visitAll.
  assert (Ha : forallb asciiEntry (it table) = true).
  { rewrite (forallb_Permutation _ _ _ (Hit table)).
    rewrite forallb_forall in *. intros p Hp. apply Ht in Hp.
    unfold lowerEntry in Hp. now apply andb_true_iff in Hp as [Hp _]. }
  destruct (visitAll_plain lib (it table) H Ha s Hs) as (E & out & Hout & Hp).
  rewrite E. exists out. split; [exact Hout|]. split; [exact Hp|]. intros q Hq.
  apply (visitAll_neutralized table (it table) q s out); auto.
Qed.

(* ------------------------------------------------------------------ *)
(** ** Ideographs and the type inferrer *)

Lemma CJK3_table :
  forallb (fun b0 => forallb (fun b1 => forallb (fun b2 =>
      implb ((228 <? b0)%Z || (184 <=? b1)%Z)
        (isCJKRune (Z.lor (Z.shiftl (Z.land b0 15) 12)
                      (Z.lor (Z.shiftl (Z.land b1 63) 6) (Z.land b2 63)))))
    (map Z.of_nat (seq 128 64))) (map Z.of_nat (seq 128 64)))
    (map Z.of_nat (seq 228 6)) = true.
Proof. vm_compute. reflexivity. Qed.

Lemma in_byte_range (lo n : nat) (b : Z) :
  (Z.of_nat lo <= b < Z.of_nat lo + Z.of_nat n)%Z ->
  In b (map Z.of_nat (seq lo n)).
Proof.
  intros H. apply in_map_iff. exists (Z.to_nat b). split; [lia|].
  apply in_seq. lia.
Qed.

Lemma inRange_spec (lo hi b : Z) : inRange lo hi b = true <-> (lo <= b <= hi)%Z.
Proof. unfold inRange. rewrite andb_true_iff, !Z.leb_le. tauto. Qed.

(** The three bytes of an ideograph are read as one rune, and
    [InferType] takes that rune for Chinese. *)
Lemma runes_CJK3 (c0 c1 c2 : ascii) (s : string) :
  isCJK3 c0 c1 c2 = true ->
  exists r, runes (String c0 (String c1 (String c2 s))) = r :: runes s
            /\ isCJKRune r = true.
Proof.
  intros H. unfold isCJK3 in H.
  apply andb_true_iff in H as [H H4]. apply andb_true_iff in H as [H H2].
  apply andb_true_iff in H as [H0 H1].
  assert (A0 := proj1 (inRange_spec _ _ _) H0).
  unfold isCont in H1, H2.
  assert (A1 := proj1 (inRange_spec _ _ _) H1).
  assert (A2 := proj1 (inRange_spec _ _ _) H2).
  cbn [runes]. destruct (Z.ltb_spec (byte c0) 128); [lia|].
  replace (inRange 194 223 (byte c0)) with false
    by (symmetry; apply not_true_is_false; rewrite inRange_spec; lia).
  replace (inRange 224 239 (byte c0)) with true
    by (symmetry; apply inRange_spec; lia).
  unfold secondLo, secondHi.
  destruct (Z.eqb_spec (byte c0) 224); [lia|].
  destruct (Z.eqb_spec (byte c0) 240); [lia|].
  destruct (Z.eqb_spec (byte c0) 237); [lia|].
  destruct (Z.eqb_spec (byte c0) 244); [lia|].
  unfold isCont. rewrite H1, H2. cbn [andb].
  eexists. split; [reflexivity|]. unfold low6.
  pose proof CJK3_table as T. rewrite forallb_forall in T.
  assert (I0 : In (byte c0) (map Z.of_nat (seq 228 6)))
    by (apply in_byte_range; lia).
  assert (I1 : In (byte c1) (map Z.of_nat (seq 128 64)))
    by (apply in_byte_range; lia).
  assert (I2 : In (byte c2) (map Z.of_nat (seq 128 64)))
    by (apply in_byte_range; lia).
  specialize (T (byte c0) I0). rewrite forallb_forall in T.
  specialize (T (byte c1) I1). rewrite forallb_forall in T.
  specialize (T (byte c2) I2).
  rewrite H4 in T. exact T.
Qed.

Lemma plain_CJK (s : string) :
  plain s = true -> isASCII s = false -> existsb isCJKRune (runes s) = true.
Proof.
  revert s. apply (plain_ind (fun s => isASCII s = false ->
                                       existsb isCJKRune (runes s) = true)).
  - discriminate.
  - intros c s Hc Hs IH Hn. unfold isASCII in Hn. cbn [allBytes] in Hn.
    rewrite Hc in Hn. cbn [andb] in Hn.
    cbn [runes]. unfold isASCIIByte in Hc. rewrite Hc. cbn [existsb].
    rewrite (IH Hn). apply orb_true_r.
  - intros c0 c1 c2 s H3 Hs IH _.
    destruct (runes_CJK3 c0 c1 c2 s H3) as (r & -> & Hr).
    cbn [existsb]. now rewrite Hr.
Qed.

Lemma not_ascii_not_ID (s : string) :
  isASCII s = false -> allBytes isIDByte s = false.
Proof.
  unfold isASCII. induction s as [|c s IH]; [discriminate|].
  cbn [allBytes]. intros H. destruct (isIDByte c) eqn:E; [|reflexivity].
  rewrite (isIDByte_ascii c E) in H. cbn [andb] in *. auto.
Qed.

Lemma InferType_CJK (s : string) :
  plain s = true -> isASCII s = false ->
  InferType s =
  if (500 <? String.length s) || Contains s (str1 LF) || Contains s (str1 CR)
  then ParamTypeDescription else ParamTypeName.
Proof.
  intros Hs Hn. rewrite InferType_unfold.
  rewrite (plain_CJK s Hs Hn), (not_ascii_not_ID s Hn), andb_false_r.
  destruct s; [discriminate Hn|]. cbn [String.length Nat.eqb orb]. reflexivity.
Qed.


Lemma second_isCont (b0 : Z) (c1 : ascii) :
  inRange (secondLo b0) (secondHi b0) (byte c1) = true -> isCont c1 = true.
Proof.
  unfold isCont. rewrite !inRange_spec. unfold secondLo, secondHi.
  destruct (b0 =? 224)%Z, (b0 =? 240)%Z, (b0 =? 237)%Z, (b0 =? 244)%Z; lia.
Qed.

(** One step of the decoder: it takes the first byte alone, or with the
    one, two or three continuation bytes that follow it. *)
Lemma runes_step (c0 : ascii) (s1 : string) :
  exists r,
    runes (String c0 s1) = r :: runes s1
    \/ (exists c1 s2, s1 = String c1 s2 /\ isCont c1 = true
          /\ runes (String c0 s1) = r :: runes s2)
    \/ (exists c1 c2 s3, s1 = String c1 (String c2 s3)
          /\ isCont c1 = true /\ isCont c2 = true
          /\ runes (String c0 s1) = r :: runes s3)
    \/ (exists c1 c2 c3 s4, s1 = String c1 (String c2 (String c3 s4))
          /\ isCont c1 = true /\ isCont c2 = true /\ isCont c3 = true
          /\ runes (String c0 s1) = r :: runes s4).
Proof.
  cbn [runes].
  destruct (byte c0 <? 128)%Z; [eexists; left; reflexivity|].
  destruct (inRange 194 223 (byte c0)).
  { destruct s1 as [|c1 s2]; [eexists; left; reflexivity|].
    destruct (isCont c1) eqn:E1; [|eexists; left; reflexivity].
    eexists. right. left. exists c1, s2. auto. }
  destruct (inRange 224 239 (byte c0)).
  { destruct s1 as [|c1 [|c2 s3]]; try (eexists; left; reflexivity).
    destruct (inRange _ _ (byte c1)) eqn:E1; [|eexists; left; reflexivity].
    destruct (isCont c2) eqn:E2; [|eexists; left; reflexivity].
    cbn [andb]. eexists. right. right. left. exists c1, c2, s3.
    repeat split; auto. eapply second_isCont; eauto. }
  destruct (inRange 240 244 (byte c0)).
  { destruct s1 as [|c1 [|c2 [|c3 s4]]]; try (eexists; left; reflexivity).
    destruct (inRange _ _ (byte c1)) eqn:E1; [|eexists; left; reflexivity].
    destruct (isCont c2) eqn:E2; [|eexists; left; reflexivity].
    destruct (isCont c3) eqn:E3; [|eexists; left; reflexivity].
    cbn [andb]. eexists. right. right. right. exists c1, c2, c3, s4.
    repeat split; auto. eapply second_isCont; eauto. }
  eexists. left. reflexivity.
Qed.

(** The decoder finds its way back: where a text holds a byte that is not
    a continuation byte, a rune starts, whatever comes before. *)
Lemma runes_resync (x : string) :
  (forall c x', x = String c x' -> isCont c = false) ->
  forall n a, String.length a <= n ->
    exists l, runes (a ++ x) = (l ++ runes x)%list.
Proof.
  intros Hx. induction n as [|n IH]; intros a Hn.
  - destruct a; [|simpl in Hn; lia]. exists []. reflexivity.
  - destruct a as [|c0 a1]; [exists []; reflexivity|].
    cbn [String.length] in Hn. cbn [append].
    assert (Hcons : forall r s, (exists l, runes s = (l ++ runes x)%list) ->
                      exists l, r :: runes s = (l ++ runes x)%list).
    { intros r s (l & ->). exists (r :: l). reflexivity. }
    destruct (runes_step c0 (a1 ++ x)) as (r & [E|[E|[E|E]]]).
    + rewrite E. apply Hcons, IH. lia.
    + destruct E as (c1 & s2 & Es & H1 & ->).
      destruct a1 as [|d1 a2]; cbn [append] in Es.
      { rewrite (Hx _ _ Es) in H1. discriminate. }
      injection Es as -> <-. apply Hcons, IH. cbn [String.length] in Hn. lia.
    + destruct E as (c1 & c2 & s3 & Es & H1 & H2 & ->).
      destruct a1 as [|d1 a2]; cbn [append] in Es.
      { rewrite (Hx _ _ Es) in H1. discriminate. }
      injection Es as -> Es.
      destruct a2 as [|d2 a3]; cbn [append] in Es.
      { rewrite (Hx _ _ Es) in H2. discriminate. }
      injection Es as -> <-. apply Hcons, IH. cbn [String.length] in Hn. lia.
    + destruct E as (c1 & c2 & c3 & s4 & Es & H1 & H2 & H3 & ->).
      destruct a1 as [|d1 a2]; cbn [append] in Es.
      { rewrite (Hx _ _ Es) in H1. discriminate. }
      injection Es as -> Es.
      destruct a2 as [|d2 a3]; cbn [append] in Es.
      { rewrite (Hx _ _ Es) in H2. discriminate. }
      injection Es as -> Es.
      destruct a3 as [|d3 a4]; cbn [append] in Es.
      { rewrite (Hx _ _ Es) in H3. discriminate. }
      injection Es as -> <-. apply Hcons, IH. cbn [String.length] in Hn. lia.
Qed.

Lemma isCJK3_not_cont (c0 c1 c2 : ascii) :
  isCJK3 c0 c1 c2 = true -> isCont c0 = false.
Proof.
  intros H. unfold isCJK3 in H.
  apply andb_true_iff in H as [H _]. apply andb_true_iff in H as [H _].
  apply andb_true_iff in H as [H _]. apply inRange_spec in H.
  apply not_true_is_false. unfold isCont. rewrite inRange_spec. lia.
Qed.

(** A text that holds the bytes of an ideograph holds its rune. *)
Lemma Contains_CJK (s p' : string) (c0 c1 c2 : ascii) :
  isCJK3 c0 c1 c2 = true ->
  Contains s (String c0 (String c1 (String c2 p'))) = true ->
  existsb isCJKRune (runes s) = true.
Proof.
  intros H3 Hc. apply Contains_split in Hc as (a & b & ->).
  cbn [append].
  destruct (runes_resync (String c0 (String c1 (String c2 (p' ++ b))))) with
    (n := String.length a) (a := a) as (l & ->); auto.
  { intros c x' E. injection E as <- _. eapply isCJK3_not_cont; eauto. }
  destruct (runes_CJK3 c0 c1 c2 (p' ++ b) H3) as (r & -> & Hr).
  rewrite existsb_app. cbn [existsb]. rewrite Hr. now rewrite orb_true_r.
Qed.

Lemma namePatterns_CJK (s : string) :
  existsb (Contains s) namePatterns = true ->
  existsb isCJKRune (runes s) = true.
Proof.
  intros H. apply existsb_exists in H as (p & Hp & Hc).
  assert (Hall : forallb (fun p => match p with
                                   | String c0 (String c1 (String c2 _)) =>
                                       isCJK3 c0 c1 c2
                                   | _ => false
                                   end) namePatterns = true) by reflexivity.
  rewrite forallb_forall in Hall. specialize (Hall p Hp).
  destruct p as [|c0 [|c1 [|c2 p']]]; try discriminate.
  eapply Contains_CJK; eauto.
Qed.

(** X28.  The name patterns of [InferType] decide nothing: a text that
    holds one of them holds the rune of an ideograph, whatever bytes
    surround it, so that the text is a Name already by the test on its
    runes. *)
Theorem InferType_name_patterns_redundant (s : string) :
  (existsb (Contains s) namePatterns = true ->
   existsb isCJKRune (runes s) = true)
  /\ InferType s =
     if String.length s =? 0 then ParamTypeGeneric
     else if (String.length s <=? 100) && forallb isIDRune (runes s)
     then ParamTypeID
     else if (500 <? String.length s)
             || Contains s (str1 LF) || Contains s (str1 CR)
     then ParamTypeDescription
     else if existsb isCJKRune (runes s) then ParamTypeName
     else ParamTypeGeneric.
Proof.
  split; [apply namePatterns_CJK|].
  rewrite InferType_unfold, runes_ID.
  destruct (existsb isCJKRune (runes s)) eqn:E; [reflexivity|].
  destruct (existsb (Contains s) namePatterns) eqn:E2; [|reflexivity].
  rewrite (namePatterns_CJK s E2) in E. discriminate.
Qed.

(* ------------------------------------------------------------------ *)
(** ** The sanitizers on text with ideographs *)

Section OnPlain.
Variable lib : GoLib.
Variable it : MapIter.
Hypothesis Hlib : GoLib_plain lib.

Lemma NameValidator_on_plain (s : string) :
  plain s = true ->
  NameValidator_Validate lib it s
  = (result <- rangePatterns lib (it NameValidator_dangerousPatterns)
                 (strings_ToLower lib (normalizeSpaces s)) (normalizeSpaces s) ;;
     Done (truncate 500 result)).
Proof.
  destruct Hlib as (HN & HL & HT). intros Hs.
  unfold NameValidator_Validate, normalizeSpaces.
  rewrite (HN s Hs).
  now rewrite HT by (apply (normalizeSpaces_plain s Hs)).
Qed.

Lemma GenericValidator_on_plain (s : string) :
  plain s = true ->
  GenericValidator_Validate lib it s
  = (result <- rangePatterns lib (it GenericValidator_dangerousPatterns)
                 (strings_ToLower lib (normalizeSpaces s)) (normalizeSpaces s) ;;
     Done (truncate 2000 result)).
Proof.
  destruct Hlib as (HN & HL & HT). intros Hs.
  unfold GenericValidator_Validate, normalizeSpaces.
  rewrite (HN s Hs).
  now rewrite HT by (apply (normalizeSpaces_plain s Hs)).
Qed.

Lemma DescriptionValidator_on_plain (s : string) :
  plain s = true ->
  DescriptionValidator_Validate lib it s
  = (result <- rangePatterns lib (it DescriptionValidator_dangerousPatterns)
                 (strings_ToLower lib (DescriptionValidator_lineEnds s))
                 (DescriptionValidator_lineEnds s) ;;
     Done (truncate 10000 result)).
Proof.
  destruct Hlib as (HN & _). intros Hs.
  unfold DescriptionValidator_Validate, DescriptionValidator_lineEnds.
  now rewrite (HN s Hs).
Qed.

Hypothesis Hit : MapIter_ok it.

Lemma NameValidator_plain_neutralizes (s : string) :
  plain s = true ->
  exists out,
    NameValidator_Validate lib it s = Done out
    /\ forall q r, In (q, r) NameValidator_dangerousPatterns ->
         Contains (asciiToLower r) q = false ->
         Contains (asciiToLower out) q = false.
Proof.
  intros Hs. rewrite NameValidator_on_plain by assumption.
  destruct (rangePatterns_plain lib it NameValidator_dangerousPatterns
              (normalizeSpaces s) Hlib Hit eq_refl
              (proj2 (normalizeSpaces_plain s Hs))) as (out & -> & Hp & Hout).
  cbn [bind]. eexists. split; [reflexivity|]. intros q r Hq Hr.
  apply Contains_truncate, Hout.
  assert (Hall : forallb (fun p => Contains (asciiToLower (snd p)) (fst p)
                                   || neutralizedBy NameValidator_dangerousPatterns (fst p))
                   NameValidator_dangerousPatterns = true)
    by (vm_compute; reflexivity).
  rewrite forallb_forall in Hall. specialize (Hall (q, r) Hq). cbn [fst snd] in Hall.
  rewrite Hr in Hall. exact Hall.
Qed.

End OnPlain.

Lemma GenericValidator_plain_returns (lib : GoLib) (it : MapIter) (s : string) :
  GoLib_plain lib -> MapIter_ok it -> plain s = true ->
  exists out,
    GenericValidator_Validate lib it s = Done out
    /\ forall q, neutralizedBy GenericValidator_dangerousPatterns q = true ->
         Contains (asciiToLower out) q = false.
Proof.
  intros H Hit Hs. rewrite GenericValidator_on_plain by assumption.
  destruct (rangePatterns_plain lib it GenericValidator_dangerousPatterns
              (normalizeSpaces s) H Hit eq_refl
              (proj2 (normalizeSpaces_plain s Hs))) as (out & -> & Hp & Hout).
  cbn [bind]. eexists. split; [reflexivity|]. intros q Hq.
  now apply Contains_truncate, Hout.
Qed.

Lemma DescriptionValidator_plain_returns (lib : GoLib) (it : MapIter) (s : string) :
  GoLib_plain lib -> MapIter_ok it -> plain s = true ->
  exists out,
    DescriptionValidator_Validate lib it s = Done out
    /\ forall q, neutralizedBy DescriptionValidator_dangerousPatterns q = true ->
         Contains (asciiToLower out) q = false.
Proof.
  intros H Hit Hs. rewrite DescriptionValidator_on_plain by assumption.
  destruct (rangePatterns_plain lib it DescriptionValidator_dangerousPatterns
              (DescriptionValidator_lineEnds s) H Hit eq_refl
              (lineEnds_plain s Hs)) as (out & -> & Hp & Hout).
  cbn [bind]. eexists. split; [reflexivity|]. intros q Hq.
  now apply Contains_truncate, Hout.
Qed.

(** X27.  The blocklists on text with ideographs.  On a text of ASCII
    bytes and CJK unified ideographs, in whatever order the maps are ranged
    over, each sanitizer returns, and what it returns, its ASCII letters
    lower-cased, shows no pattern of its blocklist: the Name validator none
    whose replacement does not hold it, the Generic validator none, the
    Description validator none but [--], and [sanitizeStringInput] none
    when the text is not longer than its cap. *)
Theorem blocklists_plain_text (lib : GoLib) (it : MapIter) (s : string) :
  GoLib_plain lib -> MapIter_ok it -> plain s = true ->
  (exists out,
      NameValidator_Validate lib it s = Done out
      /\ forall q r, In (q, r) NameValidator_dangerousPatterns ->
           Contains (asciiToLower r) q = false ->
           Contains (asciiToLower out) q = false)
  /\ (exists out,
        GenericValidator_Validate lib it s = Done out
        /\ forall q r, In (q, r) GenericValidator_dangerousPatterns ->
             Contains (asciiToLower out) q = false)
  /\ (exists out,
        DescriptionValidator_Validate lib it s = Done out
        /\ forall q r, In (q, r) DescriptionValidator_dangerousPatterns ->
             q <> "--" ->
             Contains (asciiToLower out) q = false)
  /\ (String.length s <= 65535 ->
      exists out,
        sanitizeStringInput lib it s = Done out
        /\ forall q r, In (q, r) sanitizeStringInput_dangerousPatterns ->
             Contains (asciiToLower out) q = false).
Proof.
  intros H Hit Hs. split; [|split; [|split]].
  - now apply NameValidator_plain_neutralizes.
  - destruct (GenericValidator_plain_returns lib it s H Hit Hs) as (out & -> & Hout).
    eexists. split; [reflexivity|]. intros q r Hq. apply Hout.
    assert (Hall : forallb (fun p => neutralizedBy GenericValidator_dangerousPatterns (fst p))
                     GenericValidator_dangerousPatterns = true)
      by (vm_compute; reflexivity).
    rewrite forallb_forall in Hall. exact (Hall (q, r) Hq).
  - destruct (DescriptionValidator_plain_returns lib it s H Hit Hs) as (out & -> & Hout).
    eexists. split; [reflexivity|]. intros q r Hq Hne. apply Hout.
    assert (Hall : forallb (fun p => String.eqb (fst p) "--"
                                     || neutralizedBy DescriptionValidator_dangerousPatterns (fst p))
                     DescriptionValidator_dangerousPatterns = true)
      by (vm_compute; reflexivity).
    rewrite forallb_forall in Hall. specialize (Hall (q, r) Hq). cbn [fst] in Hall.
    apply orb_true_iff in Hall as [Hall|Hall]; [|exact Hall].
    apply String.eqb_eq in Hall. contradiction.
  - intros Hl. unfold sanitizeStringInput. rewrite (truncate_short _ _ Hl).
    destruct (rangePatterns_plain lib it sanitizeStringInput_dangerousPatterns
                s H Hit eq_refl Hs) as (out & -> & Hp & Hout).
    eexists. split; [reflexivity|]. intros q r Hq. apply Hout.
    assert (Hall : forallb (fun p => neutralizedBy sanitizeStringInput_dangerousPatterns (fst p))
                     sanitizeStringInput_dangerousPatterns = true)
      by (vm_compute; reflexivity).
    rewrite forallb_forall in Hall. exact (Hall (q, r) Hq).
Qed.

Lemma blocklists_plain_text_witness :
  exists out,
    NameValidator_Validate asciiLib sourceOrder "北京项目'; DROP TABLE users" = Done out
    /\ forall q r, In (q, r) NameValidator_dangerousPatterns ->
         Contains (asciiToLower r) q = false ->
         Contains (asciiToLower out) q = false.
Proof.
  exact (proj1 (blocklists_plain_text asciiLib sourceOrder
                  "北京项目'; DROP TABLE users" asciiLib_plain sourceOrder_ok eq_refl)).
Defined.

Lemma validateAs_ID_returns (lib : GoLib) (it : MapIter) (s : string) :
  exists out, validateAs lib ParamTypeID it s = Done out.
Proof. cbn [validateAs]. unfold IDValidator_Validate. eauto. Qed.

(** X29.  [literal] on text with ideographs.  A text of ASCII bytes and
    CJK unified ideographs with at least one ideograph is a Description
    when it is longer than 500 bytes or holds a line feed or a carriage
    return, and a Name otherwise; [literal] returns, without an error, the
    quoted output of that validator. *)
Theorem literal_CJK_text (lib : GoLib) (it : MapIter) (s : string) :
  GoLib_plain lib -> MapIter_ok it -> plain s = true -> isASCII s = false ->
  InferType s
  = (if (500 <? String.length s) || Contains s (str1 LF) || Contains s (str1 CR)
     then ParamTypeDescription else ParamTypeName)
  /\ exists out,
       validateAs lib (InferType s) it s = Done out
       /\ literal lib it (VString s) = Done (quoteString out, None).
Proof.
  intros H Hit Hs Hn. split; [now apply InferType_CJK|].
  cbn [literal]. rewrite ProcessString_validateAs, (InferType_CJK s Hs Hn).
  destruct ((500 <? String.length s) || Contains s (str1 LF) || Contains s (str1 CR)).
  - destruct (DescriptionValidator_plain_returns lib it s H Hit Hs) as (out & E & _).
    exists out. cbn [validateAs]. rewrite E. auto.
  - destruct (NameValidator_plain_neutralizes lib it H Hit s Hs) as (out & E & _).
    exists out. cbn [validateAs]. rewrite E. auto.
Qed.

Lemma literal_CJK_text_witness :
  InferType "北京项目'; DROP TABLE users" = ParamTypeName
  /\ exists out,
       validateAs asciiLib (InferType "北京项目'; DROP TABLE users") sourceOrder
         "北京项目'; DROP TABLE users" = Done out
       /\ literal asciiLib sourceOrder (VString "北京项目'; DROP TABLE users")
          = Done (quoteString out, None).
Proof.
  exact (literal_CJK_text asciiLib sourceOrder "北京项目'; DROP TABLE users"
           asciiLib_plain sourceOrder_ok eq_refl eq_refl).
Defined.

Lemma rangePatterns_stable_plain (lib : GoLib) (it : MapIter) (table : PatternMap)
  (x : string) :
  GoLib_plain lib -> MapIter_ok it -> plain x = true ->
  (forall p, In p table -> Contains (asciiToLower x) (fst p) = false) ->
  rangePatterns lib (it table) (strings_ToLower lib x) x = Done x.
Proof.
  intros (_ & HL & _) Hit Hx Hq. rewrite rangePatterns_visitAll.
  apply visitAll_nothing_visible. intros p Hp. rewrite (HL x Hx).
  apply Hq. eapply Permutation_in; eauto.
Qed.

Lemma plain_app_inv (x : string) :
  forall a, plain a = true -> plain (a ++ x) = true -> plain x = true.
Proof.
  apply (plain_ind (fun a => plain (a ++ x) = true -> plain x = true)); [auto| |].
  - intros c s Hc _ IH. cbn [append]. now rewrite plain_cons_ascii.
  - intros c0 c1 c2 s H3 _ IH. cbn [append]. now rewrite plain_cons_cjk.
Qed.

Lemma isCont_high (c : ascii) : isCont c = true -> isASCIIByte c = false.
Proof.
  unfold isCont, isASCIIByte. rewrite inRange_spec. intros H.
  apply Z.ltb_ge. lia.
Qed.

(** A plain text cut before a continuation byte is cut within an
    ideograph. *)
Lemma plain_cut (a b : string) (c : ascii) :
  plain (a ++ String c b) = true -> isCont c = true -> plain a = false.
Proof.
  intros Hp Hc. apply not_true_is_false. intros Ha.
  apply (plain_app_inv _ a Ha) in Hp. cbn [plain] in Hp.
  rewrite (isCont_high c Hc) in Hp.
  destruct b as [|c1 [|c2 b]]; try discriminate.
  apply andb_true_iff in Hp as [Hp _]. unfold isCJK3 in Hp.
  apply andb_true_iff in Hp as [Hp _]. apply andb_true_iff in Hp as [Hp _].
  apply andb_true_iff in Hp as [Hp _]. apply inRange_spec in Hp.
  unfold isCont in Hc. apply inRange_spec in Hc. lia.
Qed.

Lemma take_app_length (a b : string) : take (String.length a) (a ++ b) = a.
Proof. induction a as [|c a IH]; cbn [String.length append take]; [now destruct b|now rewrite IH]. Qed.

(** X30.  Clean text with ideographs, and the cap.  A text of ASCII bytes
    and CJK unified ideographs whose lower-casing shows no pattern of the
    blocklist is returned cut to the cap and otherwise unchanged, by the
    Generic and the Name validator when its whitespace is in normal form
    and by the Description validator when it holds no carriage return.
    The cap counts bytes: where the byte at the cap is a continuation
    byte, the text returned ends within an ideograph. *)
Theorem clean_text_cut_by_bytes (lib : GoLib) (it : MapIter) (s : string) :
  GoLib_plain lib -> MapIter_ok it -> plain s = true ->
  (spaceNormal s = true ->
   (forall p, In p GenericValidator_dangerousPatterns ->
              Contains (asciiToLower s) (fst p) = false) ->
   GenericValidator_Validate lib it s = Done (truncate 2000 s))
  /\ (spaceNormal s = true ->
      (forall p, In p NameValidator_dangerousPatterns ->
                 Contains (asciiToLower s) (fst p) = false) ->
      NameValidator_Validate lib it s = Done (truncate 500 s))
  /\ (allBytes notCR s = true ->
      (forall p, In p DescriptionValidator_dangerousPatterns ->
                 Contains (asciiToLower s) (fst p) = false) ->
      DescriptionValidator_Validate lib it s = Done (truncate 10000 s))
  /\ (forall a c b, s = a ++ String c b -> isCont c = true ->
        truncate (String.length a) s = a /\ plain a = false).
Proof.
  intros H Hit Hs. split; [|split; [|split]].
  - intros Hn Hq. rewrite GenericValidator_on_plain by assumption.
    now rewrite (normalizeSpaces_fixpoint s Hn), rangePatterns_stable_plain.
  - intros Hn Hq. rewrite NameValidator_on_plain by assumption.
    now rewrite (normalizeSpaces_fixpoint s Hn), rangePatterns_stable_plain.
  - intros Hn Hq. rewrite DescriptionValidator_on_plain by assumption.
    now rewrite (lineEnds_fixpoint s Hn), rangePatterns_stable_plain.
  - intros a c b -> Hc. split; [|now apply (plain_cut a b c)].
    unfold truncate. rewrite length_append. cbn [String.length].
    destruct (Nat.ltb_spec (String.length a) (String.length a + S (String.length b)));
      [apply take_app_length|lia].
Qed.

Lemma clean_text_cut_by_bytes_witness :
  NameValidator_Validate asciiLib sourceOrder
    "中中中中中中中中中中中中中中中中中中中中中中中中中中中中中中中中中中中中中中中中中中中中中中中中中中中中中中中中中中中中中中中中中中中中中中中中中中中中中中中中中中中中中中中中中中中中中中中中中中中中中中中中中中中中中中中中中中中中中中中中中中中中中中中中中中中中中中中中中中中中中中中中中中中中中中中中中中中中中中中中中中中中中中中"
  = Done (truncate 500
    "中中中中中中中中中中中中中中中中中中中中中中中中中中中中中中中中中中中中中中中中中中中中中中中中中中中中中中中中中中中中中中中中中中中中中中中中中中中中中中中中中中中中中中中中中中中中中中中中中中中中中中中中中中中中中中中中中中中中中中中中中中中中中中中中中中中中中中中中中中中中中中中中中中中中中中中中中中中中中中中中中中中中中中中").
Proof.
  refine (proj1 (proj2 (clean_text_cut_by_bytes asciiLib sourceOrder
    "中中中中中中中中中中中中中中中中中中中中中中中中中中中中中中中中中中中中中中中中中中中中中中中中中中中中中中中中中中中中中中中中中中中中中中中中中中中中中中中中中中中中中中中中中中中中中中中中中中中中中中中中中中中中中中中中中中中中中中中中中中中中中中中中中中中中中中中中中中中中中中中中中中中中中中中中中中中中中中中中中中中中中中中"
    asciiLib_plain sourceOrder_ok eq_refl)) eq_refl _).
  intros p Hp.
  assert (Hall : forallb (fun p => negb (Contains (asciiToLower
    "中中中中中中中中中中中中中中中中中中中中中中中中中中中中中中中中中中中中中中中中中中中中中中中中中中中中中中中中中中中中中中中中中中中中中中中中中中中中中中中中中中中中中中中中中中中中中中中中中中中中中中中中中中中中中中中中中中中中中中中中中中中中中中中中中中中中中中中中中中中中中中中中中中中中中中中中中中中中中中中中中中中中中中中") (fst p)))
                   NameValidator_dangerousPatterns = true) by (vm_compute; reflexivity).
  rewrite forallb_forall in Hall. apply negb_true_iff, Hall, Hp.
Defined.
